(** * bomhelper: BOM consolidation, ranking, selection and export

    A shallow embedding of the decision logic of the BOM helper
    (bom_parser.py, part_ranker.py, mouser_api.py, bom_mouser_lookup.py,
    config.py) together with the properties its specification states about
    it.

    Modelling conventions.
    - A Python [str] is a [string]; the character predicates ([isspace],
      [isdigit], [upper]) are the ASCII ones.
    - A Python [dict] with string keys is an insertion-ordered association
      list ([dict]): assignment to an existing key keeps the key's position,
      assignment to a new key appends, iteration follows the list.
    - A dict literal with a fixed key set is a record; a key that may be
      absent is an [option] field.
    - A Python [float] is an exact rational or one of [inf], [-inf] and
      [nan]; arithmetic on scores and weights is that of the rationals;
      [float(s)] itself is a parameter of the ranking section.
    - A call that may raise returns an [option]: [None] stands for the
      exception. *)

From Stdlib Require Import String Ascii List Bool ZArith QArith Qround Lia Lqa.
From Stdlib Require DecimalString DecimalPos DecimalZ.
From Stdlib Require Import Permutation Sorted.
Import ListNotations.

Local Close Scope Q_scope.
Local Open Scope nat_scope.
Local Open Scope string_scope.
Local Open Scope list_scope.

(* ================================================================== *)
(** ** Python strings *)

Module PyStr.

(** [bool(s)] for a string: true unless empty. *)
Definition truthy (s : string) : bool :=
  match s with EmptyString => false | String _ _ => true end.

(** [c.isspace()] on ASCII: TAB, LF, VT, FF, CR, FS, GS, RS, US, SPACE. *)
Definition is_space (c : ascii) : bool :=
  let n := nat_of_ascii c in
  (Nat.leb 9 n && Nat.leb n 13) || (Nat.leb 28 n && Nat.leb n 32).

Fixpoint lstrip_l (l : list ascii) : list ascii :=
  match l with
  | [] => []
  | c :: l' => if is_space c then lstrip_l l' else l
  end.

Definition strip_l (l : list ascii) : list ascii :=
  List.rev (lstrip_l (List.rev (lstrip_l l))).

(** [s.strip()] *)
Definition strip (s : string) : string :=
  string_of_list_ascii (strip_l (list_ascii_of_string s)).

(** [c.upper()] on ASCII. *)
Definition upper_char (c : ascii) : ascii :=
  let n := nat_of_ascii c in
  if Nat.leb 97 n && Nat.leb n 122 then ascii_of_nat (n - 32) else c.

(** [s.upper()] *)
Fixpoint upper (s : string) : string :=
  match s with
  | EmptyString => EmptyString
  | String c s' => String (upper_char c) (upper s')
  end.

(** [s.replace(c, '')] for a one-character pattern [c]. *)
Fixpoint remove_char (c : ascii) (s : string) : string :=
  match s with
  | EmptyString => EmptyString
  | String d s' => if Ascii.eqb d c then remove_char c s' else String d (remove_char c s')
  end.

Definition is_digit (c : ascii) : bool :=
  let n := nat_of_ascii c in Nat.leb 48 n && Nat.leb n 57.

Fixpoint all_digits (s : string) : bool :=
  match s with
  | EmptyString => true
  | String c s' => is_digit c && all_digits s'
  end.

(** [s.isdigit()]: non-empty and every character a digit. *)
Definition isdigit (s : string) : bool := truthy s && all_digits s.

Fixpoint digits_value (acc : Z) (s : string) : Z :=
  match s with
  | EmptyString => acc
  | String c s' => digits_value (10 * acc + (Z.of_nat (nat_of_ascii c) - 48)) s'
  end.

(** [int(s)] on a string for which [s.isdigit()] holds. *)
Definition int_of_digits (s : string) : Z := digits_value 0 s.

(** [str(n)] for an integer. *)
Definition str_of_Z (z : Z) : string := DecimalString.NilZero.string_of_int (Z.to_int z).

Definition str_of_nat (n : nat) : string := str_of_Z (Z.of_nat n).

(** [sep.join(l)] *)
Definition join (sep : string) (l : list string) : string := String.concat sep l.

(** [a in b] for strings: [a] occurs as a contiguous substring of [b]. *)
Fixpoint contains (a b : string) : bool :=
  String.prefix a b ||
  match b with
  | EmptyString => false
  | String _ b' => contains a b'
  end.

(** [x in l] for a list of strings. *)
Definition mem (x : string) (l : list string) : bool := existsb (String.eqb x) l.

End PyStr.

(* ================================================================== *)
(** ** Insertion-ordered dictionaries with string keys *)

Module Dict.

Definition dict (V : Type) : Type := list (string * V).

(** [d.get(k)] *)
Fixpoint get {V : Type} (d : dict V) (k : string) : option V :=
  match d with
  | [] => None
  | (k', v) :: d' => if String.eqb k k' then Some v else get d' k
  end.

(** [k in d] *)
Definition mem {V : Type} (d : dict V) (k : string) : bool :=
  match get d k with Some _ => true | None => false end.

(** [d[k] = v]: an existing key keeps its position, a new key goes last. *)
Fixpoint set {V : Type} (d : dict V) (k : string) (v : V) : dict V :=
  match d with
  | [] => [(k, v)]
  | (k', v') :: d' =>
      if String.eqb k k' then (k', v) :: d' else (k', v') :: set d' k v
  end.

(** [d.get(k, dflt)] *)
Definition get_default {V : Type} (d : dict V) (k : string) (dflt : V) : V :=
  match get d k with Some v => v | None => dflt end.

Definition keys {V : Type} (d : dict V) : list string := map fst d.
Definition values {V : Type} (d : dict V) : list V := map snd d.

End Dict.

Import PyStr.
Import Dict.

(* ================================================================== *)
(** ** bom_parser.py: consolidation *)

(** A raw BOM row: normalized column name -> cell text. *)
Definition RawRow : Type := dict string.

(** One entry of [parts_dict] in [get_consolidated_parts].  The keys of the
    dict literal are the fields; [extra] holds the additional columns copied
    from the first row of the group, in column order; [refdes] is the key
    added by the final loop ([None] while the group is being built). *)
Record part : Type := mkPart {
  refdes_list : list string;
  mpn : string;
  value : string;
  package : string;
  voltage : string;
  tolerance : string;
  power : string;
  description : string;
  quantity : Z;
  extra : dict string;
  refdes : option string
}.

Definition set_refdes_list (p : part) (l : list string) : part :=
  mkPart l (mpn p) (value p) (package p) (voltage p) (tolerance p) (power p)
         (description p) (quantity p) (extra p) (refdes p).

Definition set_quantity (p : part) (q : Z) : part :=
  mkPart (refdes_list p) (mpn p) (value p) (package p) (voltage p) (tolerance p)
         (power p) (description p) q (extra p) (refdes p).

Definition set_refdes (p : part) (r : string) : part :=
  mkPart (refdes_list p) (mpn p) (value p) (package p) (voltage p) (tolerance p)
         (power p) (description p) (quantity p) (extra p) (Some r).

(** The keys already present in a freshly created [parts_dict] entry. *)
Definition literal_keys : list string :=
  ["refdes_list"; "mpn"; "value"; "package"; "voltage"; "tolerance"; "power";
   "description"; "quantity"].

(** [for k, v in comp.items(): if k not in parts_dict[key] and k not in
    ['refdes']: parts_dict[key][k] = v] *)
Definition copy_extra (comp : RawRow) : dict string :=
  fold_left
    (fun (e : dict string) (kv : string * string) =>
       let (k, v) := kv in
       if negb (PyStr.mem k literal_keys || Dict.mem e k) && negb (PyStr.mem k ["refdes"])
       then Dict.set e k v else e)
    comp [].

Definition row_mpn (comp : RawRow) : string := strip (get_default comp "mpn" "").
Definition row_value (comp : RawRow) : string := strip (get_default comp "value" "").
Definition row_package (comp : RawRow) : string := strip (get_default comp "package" "").
Definition row_refdes (comp : RawRow) : string := strip (get_default comp "refdes" "").

(** [qty = comp.get('quantity', 0)], then
    [qty = int(qty) if qty.isdigit() else 0] for the string found. *)
Definition row_qty (comp : RawRow) : Z :=
  match Dict.get comp "quantity" with
  | None => 0
  | Some s => if isdigit s then int_of_digits s else 0
  end.

(** [qty if qty else 1]: what one row adds to its group's quantity. *)
Definition row_contribution (comp : RawRow) : Z :=
  let qty := row_qty comp in
  if Z.eqb qty 0 then 1 else qty.

Section Consolidation.

(** [hash(str(sorted(comp.items())))]: Python's built-in string hash of the
    row's sorted items, fixed for the lifetime of the process. *)
Variable row_hash : RawRow -> Z.

(** The grouping key of a row. *)
Definition group_key (comp : RawRow) : string :=
  let mpn := row_mpn comp in
  let value := row_value comp in
  let package := row_package comp in
  if truthy mpn then "mpn:" ++ mpn
  else if truthy value && truthy package then "value:" ++ value ++ "|package:" ++ package
  else if truthy value then "value:" ++ value
  else str_of_Z (row_hash comp).

(** The dict literal stored under a key seen for the first time, with the
    additional columns copied in. *)
Definition new_part (comp : RawRow) : part :=
  {| refdes_list := [];
     mpn := row_mpn comp;
     value := row_value comp;
     package := row_package comp;
     voltage := get_default comp "voltage" "";
     tolerance := get_default comp "tolerance" "";
     power := get_default comp "power" "";
     description := get_default comp "description" "";
     quantity := 0;
     extra := copy_extra comp;
     refdes := None |}.

(** Aggregation of one row into the entry of its group: the reference
    designator is appended unless empty or already listed, and the row's
    contribution is added to the quantity. *)
Definition absorb (p : part) (comp : RawRow) : part :=
  let r := row_refdes comp in
  let p1 := if truthy r && negb (PyStr.mem r (refdes_list p))
            then set_refdes_list p (refdes_list p ++ [r]) else p in
  set_quantity p1 (quantity p1 + row_contribution comp).

(** One iteration of [for comp in components]. *)
Definition consolidate_step (parts_dict : dict part) (comp : RawRow) : dict part :=
  let key := group_key comp in
  let parts_dict1 :=
    if Dict.mem parts_dict key then parts_dict
    else Dict.set parts_dict key (new_part comp) in
  match Dict.get parts_dict1 key with
  | Some p => Dict.set parts_dict1 key (absorb p comp)
  | None => parts_dict1
  end.

(** [parts_dict] after the grouping loop. *)
Definition consolidate (components : list RawRow) : dict part :=
  fold_left consolidate_step components [].

(** [part['refdes'] = ', '.join(part['refdes_list'])] *)
Definition finalize (p : part) : part := set_refdes p (join ", " (refdes_list p)).

(** [BOMParser.get_consolidated_parts] *)
Definition get_consolidated_parts (components : list RawRow) : list part :=
  map finalize (Dict.values (consolidate components)).

End Consolidation.

(** *** Reference notions for the consolidation properties *)

(** The distinct elements of a list, each at its first occurrence. *)
Fixpoint dedup (l : list string) : list string :=
  match l with
  | [] => []
  | x :: t => x :: filter (fun y => negb (String.eqb y x)) (dedup t)
  end.

Definition sumZ (l : list Z) : Z := fold_right Z.add 0%Z l.

(** The rows of the input that carry a given grouping key, in input order. *)
Definition rows_of_key (row_hash : RawRow -> Z) (key : string) (comps : list RawRow)
  : list RawRow :=
  filter (fun c => String.eqb (group_key row_hash c) key) comps.

(** The text of a field of a row with the blanks at both ends removed, the
    empty text when the row lacks the field.  The reference notions below
    read the rows through this function and not through the readers of
    [get_consolidated_parts]. *)
Definition stripped_field (c : RawRow) (k : string) : string :=
  strip (match Dict.get c k with Some s => s | None => "" end).

(** The rows of the input whose stripped mpn is [m], in input order. *)
Definition rows_of_mpn (m : string) (comps : list RawRow) : list RawRow :=
  filter (fun c => String.eqb (stripped_field c "mpn") m) comps.

(** The non-empty stripped reference designators of a list of rows, in row
    order. *)
Definition designators (rows : list RawRow) : list string :=
  filter truthy (map (fun c => stripped_field c "refdes") rows).

(** The refdes text as C4 first states it, on the exact strings of the rows:
    the rows whose mpn field is exactly [m], their non-empty refdes fields,
    each once, in first-seen order, joined with [", "]. *)
Definition exact_field (c : RawRow) (k : string) : string :=
  match Dict.get c k with Some s => s | None => "" end.

Definition claimed_refdes (m : string) (comps : list RawRow) : string :=
  join ", "
       (dedup (filter truthy
                 (map (fun c => exact_field c "refdes")
                      (filter (fun c => String.eqb (exact_field c "mpn") m) comps)))).

(** Two rows of one part whose designators differ in a trailing blank
    only. *)
Definition blank_suffix_rows : list RawRow :=
  [ [("mpn", "R1-103"); ("refdes", "R1")];
    [("mpn", "R1-103"); ("refdes", "R1 ")] ].

(** The [parts_dict] entry of a group, computed from the group's rows alone:
    created from the first row, then every row absorbed in order. *)
Definition group_entry (rows : list RawRow) : part :=
  match rows with
  | [] => new_part []
  | c :: _ => fold_left absorb rows (new_part c)
  end.

(** [int(s)] on text: surrounding blanks ignored, an optional sign, then
    decimal digits; [None] when the text is no integer (ValueError). *)
Definition parse_int (s : string) : option Z :=
  match strip s with
  | String "-" t => if isdigit t then Some (- int_of_digits t)%Z else None
  | String "+" t => if isdigit t then Some (int_of_digits t) else None
  | t => if isdigit t then Some (int_of_digits t) else None
  end.

(** The per-row quantity in the specification's words: the quantity field
    parsed as an integer, 1 when the field is missing or does not parse. *)
Definition parsed_quantity (comp : RawRow) : Z :=
  match Dict.get comp "quantity" with
  | None => 1
  | Some s => match parse_int s with Some n => n | None => 1 end
  end.

(** The per-row quantity the code counts: the value of a quantity field made
    of decimal digits only and denoting a positive number; 1 for every other
    row (field missing, empty, signed, not a number, or zero). *)
Definition counted_quantity (comp : RawRow) : Z :=
  match Dict.get comp "quantity" with
  | None => 1
  | Some s => if isdigit s && Z.ltb 0 (int_of_digits s) then int_of_digits s else 1
  end.

(** Sample inputs. *)
Definition no_hash : RawRow -> Z := fun _ => 0%Z.

Definition two_resistor_rows : list RawRow :=
  [ [("mpn", "R1-103"); ("refdes", "R1"); ("quantity", "1")];
    [("mpn", "R1-103"); ("refdes", "R2"); ("quantity", "1")] ].

Definition zero_quantity_rows : list RawRow :=
  [ [("mpn", "C7-DNP"); ("refdes", "C7"); ("quantity", "0")] ].

(* ================================================================== *)
(** ** bom_parser.py: reading the data rows *)

(** [for x in xs: ... components.append(y)] with [continue] on some rows. *)
Fixpoint collect {A B : Type} (f : A -> option B) (l : list A) : list B :=
  match l with
  | [] => []
  | x :: l' => match f x with
               | Some y => y :: collect f l'
               | None => collect f l'
               end
  end.

(** [enumerate(l)] *)
Definition enumerate {A : Type} (l : list A) : list (nat * A) :=
  combine (seq 0 (length l)) l.

(** The [for col_idx, header in enumerate(headers)] loop that fills one
    component from the cell texts of a row. *)
Definition fill_component (headers : list string) (texts : list string) : RawRow :=
  fold_left
    (fun (component : RawRow) (ih : nat * string) =>
       match nth_error texts (fst ih) with
       | Some v => Dict.set component (snd ih) v
       | None => component
       end)
    (enumerate headers) [].

(** [component and any(v for v in component.values() if v)] *)
Definition has_data (component : RawRow) : bool :=
  match component with
  | [] => false
  | _ :: _ => existsb truthy (Dict.values component)
  end.

(** One iteration of the data-row loop of [parse_csv]: [None] when the row is
    skipped.  A csv row is a list of cell strings. *)
Definition csv_row (headers : list string) (row : list string) : option RawRow :=
  if negb (existsb truthy row) then None
  else
    let component := fill_component headers (map strip row) in
    if has_data component then Some component else None.

(** The data-row loop of [parse_csv], after the header has been read. *)
Definition parse_csv_rows (headers : list string) (rows : list (list string)) : list RawRow :=
  collect (csv_row headers) rows.

(** The value of a spreadsheet cell.  A value that is neither empty, text,
    integer nor boolean (a float, a date) is represented by its truth value
    and its [str()] rendering. *)
Inductive cell_value : Type :=
| CellNone
| CellStr (s : string)
| CellInt (z : Z)
| CellBool (b : bool)
| CellOther (truth : bool) (text : string).

(** [bool(cell.value)] *)
Definition cell_truthy (v : cell_value) : bool :=
  match v with
  | CellNone => false
  | CellStr s => truthy s
  | CellInt z => negb (Z.eqb z 0)
  | CellBool b => b
  | CellOther t _ => t
  end.

(** [str(value).strip() if value is not None else ""] *)
Definition cell_text (v : cell_value) : string :=
  match v with
  | CellNone => ""
  | CellStr s => strip s
  | CellInt z => strip (str_of_Z z)
  | CellBool b => strip (if b then "True" else "False")
  | CellOther _ text => strip text
  end.

(** One iteration of the data-row loop of [parse_excel]. *)
Definition excel_row (headers : list string) (row : list cell_value) : option RawRow :=
  if negb (existsb cell_truthy row) then None
  else
    let component := fill_component headers (map cell_text row) in
    if has_data component then Some component else None.

(** The data-row loop of [parse_excel]. *)
Definition parse_excel_rows (headers : list string) (rows : list (list cell_value))
  : list RawRow :=
  collect (excel_row headers) rows.

(* ================================================================== *)
(** ** Vendor candidates *)

(** A float value.  The numbers are modelled as exact rationals; beside them
    stand the three special values [float('inf')], [float('-inf')] and
    [float('nan')], which [float()] also returns for the texts "inf", "-inf"
    and "nan". *)
Inductive pyfloat : Type :=
| Finite (q : Q)
| Infinity
| NegInfinity
| NaN.

Definition Qlt_bool (a b : Q) : bool := negb (Qle_bool b a).

(** [a <= b], [a < b] and [a == b] on floats: every comparison with NaN is
    false. *)
Definition fle (a b : pyfloat) : bool :=
  match a, b with
  | NaN, _ | _, NaN => false
  | NegInfinity, _ => true
  | _, Infinity => true
  | Finite x, Finite y => Qle_bool x y
  | _, _ => false
  end.

Definition flt (a b : pyfloat) : bool := fle a b && negb (fle b a).

Definition feq (a b : pyfloat) : bool := fle a b && fle b a.



(** A value found in a JSON-derived field that may hold text or a number. *)
Inductive pyval : Type :=
| PyNone
| PyStr (s : string)
| PyInt (z : Z)
| PyFloat (f : pyfloat).

(** One entry of a candidate's [price_breaks]. *)
Record price_break : Type := mkPriceBreak {
  pb_quantity : Z;
  pb_price : pyval;
  pb_currency : string
}.

(** A vendor part dictionary.  A field is [None] when the key is absent (the
    NA sentinel carries four keys only). *)
Record mouser_part : Type := mkMouserPart {
  mp_mpn : option string;
  mp_manufacturer : option string;
  mp_mouser_part_number : option string;
  mp_description : option string;
  mp_package : option string;
  mp_stock : option Z;
  mp_price_breaks : option (list price_break);
  mp_lifecycle : option string;
  mp_product_url : option string;
  mp_score : option Q;
  mp_other : dict string
}.

(** [d.get(key, '')] on an optional text field. *)
Definition text_or_empty (o : option string) : string :=
  match o with Some s => s | None => "" end.

(** [p.get('stock', 0)] *)
Definition stock_of (p : mouser_part) : Z :=
  match mp_stock p with Some z => z | None => 0%Z end.

(* ================================================================== *)
(** ** mouser_api.py: post-search filters *)

Definition inactive_statuses : list string :=
  ["OBSOLETE"; "EOL"; "END OF LIFE"; "NOT RECOMMENDED FOR NEW DESIGNS";
   "END OF LIFE (EOL)"].

(** [lifecycle_upper = lambda p: (p.get('lifecycle') or '').upper()] *)
Definition lifecycle_upper (p : mouser_part) : string :=
  upper (text_or_empty (mp_lifecycle p)).

(** [MouserAPI._apply_filters] *)
Definition _apply_filters (parts : list mouser_part) (in_stock_only active_only : bool)
  : list mouser_part :=
  let filtered := parts in
  let filtered :=
    if in_stock_only then filter (fun p => Z.ltb 0 (stock_of p)) filtered
    else filtered in
  let filtered :=
    if active_only
    then filter (fun p => negb (PyStr.mem (lifecycle_upper p) inactive_statuses)) filtered
    else filtered in
  filtered.

(** Two characters are the same letter up to ASCII case. *)
Definition same_letter (a b : ascii) : bool :=
  let x := nat_of_ascii a in
  let y := nat_of_ascii b in
  Nat.eqb x y
  || (Nat.leb 65 x && Nat.leb x 90 && Nat.eqb y (x + 32))
  || (Nat.leb 65 y && Nat.leb y 90 && Nat.eqb x (y + 32)).

(** Case-insensitive equality of two strings. *)
Fixpoint ci_equal (s t : string) : bool :=
  match s, t with
  | EmptyString, EmptyString => true
  | String a s', String b t' => same_letter a b && ci_equal s' t'
  | _, _ => false
  end.

(** A string without lower-case letters. *)
Fixpoint no_lower (s : string) : bool :=
  match s with
  | EmptyString => true
  | String c s' =>
      negb (Nat.leb 97 (nat_of_ascii c) && Nat.leb (nat_of_ascii c) 122) && no_lower s'
  end.

(** A candidate that carries nothing but a stock count. *)
Definition stock_only (z : Z) : mouser_part :=
  mkMouserPart None None None None None (Some z) None None None None [].

(** A candidate that carries nothing but a lifecycle text. *)
Definition lifecycle_only (status : string) : mouser_part :=
  mkMouserPart None None None None None None None (Some status) None None [].

(* ================================================================== *)
(** ** Sorting *)

(** [bisect]-style insertion of [x] behind every element that is not greater
    than it, as a stable sort places a later element. *)
Fixpoint insert_sorted {A : Type} (lt : A -> A -> bool) (x : A) (l : list A) : list A :=
  match l with
  | [] => [x]
  | y :: l' => if lt x y then x :: l else y :: insert_sorted lt x l'
  end.

(** A stable sort that uses [<] only: elements are taken left to right.  On
    keys that are totally preordered every stable sort returns this list, so
    it stands for the sort behind [sorted] and [list.sort].  Keys that hold
    NaN are not preordered by [<]; what is proved of a sort on float keys is
    proved for lists whose keys are not NaN. *)
Definition stable_sort {A : Type} (lt : A -> A -> bool) (l : list A) : list A :=
  fold_left (fun acc x => insert_sorted lt x acc) l [].

(** [sorted(l, key=key, reverse=reverse)]: a stable sort on the keys; with
    [reverse] the list is reversed, sorted and reversed again, which keeps
    equal keys in their original order. *)
Definition sorted {A K : Type} (key : A -> K) (lt : K -> K -> bool) (reverse : bool)
           (l : list A) : list A :=
  let by_key := fun a b => lt (key a) (key b) in
  if reverse then rev (stable_sort by_key (rev l)) else stable_sort by_key l.

(** [<] on pairs [(float, int)] and [(number, int)]: the first components
    decide unless they are equal. *)
Definition lt_float_int (a b : pyfloat * Z) : bool :=
  if feq (fst a) (fst b) then Z.ltb (snd a) (snd b) else flt (fst a) (fst b).

Definition lt_num_int (a b : Q * Z) : bool :=
  if Qeq_bool (fst a) (fst b) then Z.ltb (snd a) (snd b) else Qlt_bool (fst a) (fst b).

(** [a] may stand before [b] in ascending order: [b < a] does not hold. *)
Definition not_after {A : Type} (lt : A -> A -> bool) (a b : A) : Prop := lt b a = false.

(** [(k, n) < (k', n')] for pairs whose first components are ordered by
    [le1]: the second components decide when the first are equal. *)
Definition lex_lt {K : Type} (le1 : K -> K -> bool) (a b : K * Z) : bool :=
  if le1 (fst a) (fst b) && le1 (fst b) (fst a)
  then Z.ltb (snd a) (snd b)
  else negb (le1 (fst b) (fst a)).

(** [round(x)] to the nearest integer, ties to even. *)
Definition round_half_even (q : Q) : Z :=
  let f := Qfloor q in
  let r := Qminus q (inject_Z f) in
  if Qlt_bool r (1 # 2) then f
  else if Qlt_bool (1 # 2) r then (f + 1)%Z
  else if Z.even f then f else (f + 1)%Z.

(** [round(x, 2)] *)
Definition round2 (q : Q) : Q :=
  Qdiv (inject_Z (round_half_even (Qmult q (inject_Z 100)))) (inject_Z 100).

(* ================================================================== *)
(** ** part_ranker.py and the ranking modes *)

(** The four weights held by a [RankingEngine]. *)
Record RankingEngine : Type := mkRankingEngine {
  stock_weight : Q;
  price_weight : Q;
  lifecycle_weight : Q;
  package_match_weight : Q
}.

(** [RankingEngine.__init__]: the weights divided by their sum when the sum
    is positive.  The divisions are those of exact rationals; binary floats
    round each quotient, so the stored floats need not add up to exactly
    1.0. *)
Definition new_ranker (stock price lifecycle package_match : Q) : RankingEngine :=
  let total := Qplus (Qplus (Qplus stock price) lifecycle) package_match in
  if Qlt_bool 0 total
  then mkRankingEngine (Qdiv stock total) (Qdiv price total)
                       (Qdiv lifecycle total) (Qdiv package_match total)
  else mkRankingEngine stock price lifecycle package_match.

Definition set_score (p : mouser_part) (sc : Q) : mouser_part :=
  mkMouserPart (mp_mpn p) (mp_manufacturer p) (mp_mouser_part_number p)
               (mp_description p) (mp_package p) (mp_stock p) (mp_price_breaks p)
               (mp_lifecycle p) (mp_product_url p) (Some sc) (mp_other p).

(** [normalize_package] *)
Definition normalize_package (package : string) : string :=
  if negb (truthy package) then ""
  else remove_char "_" (remove_char "-" (remove_char " " (strip (upper package)))).

(** [packages_match] *)
Definition packages_match (package1 package2 : string) : bool :=
  if negb (truthy package1) || negb (truthy package2) then false
  else
    let norm1 := normalize_package package1 in
    let norm2 := normalize_package package2 in
    if String.eqb norm1 norm2 then true
    else if contains norm1 norm2 || contains norm2 norm1 then true
    else false.

(** [score_stock] *)
Definition score_stock (part : mouser_part) : Q :=
  let stock := stock_of part in
  if Z.leb stock 0 then 0
  else if Z.leb 10000 stock then 100
  else if Z.leb 1000 stock then 80
  else if Z.leb 100 stock then 60
  else if Z.leb 10 stock then 40
  else 20.

(** [score_lifecycle] *)
Definition score_lifecycle (part : mouser_part) : Q :=
  let lifecycle := upper (text_or_empty (mp_lifecycle part)) in
  if negb (truthy lifecycle) then 50
  else if PyStr.mem lifecycle ["ACTIVE"; "LIFEBUY"; "NEW"] then 100
  else if PyStr.mem lifecycle ["LAST TIME BUY"; "NOT RECOMMENDED FOR NEW DESIGNS"] then 30
  else if PyStr.mem lifecycle ["OBSOLETE"; "EOL"; "END OF LIFE"] then 0
  else 50.

(** [score_package_match] *)
Definition score_package_match (part : mouser_part) (target_package : option string) : Q :=
  if negb (truthy (text_or_empty target_package)) then 50
  else
    let part_package := text_or_empty (mp_package part) in
    if negb (truthy part_package) then 0
    else if packages_match part_package (text_or_empty target_package) then 100
    else 0.

(** [price.replace('$', '').replace(',', '').strip()] *)
Definition clean_price (price : string) : string :=
  strip (remove_char "," (remove_char "$" price)).

Section Ranking.

(** [float(s)] on a string: [None] when it raises ValueError. *)
Variable float_of_str : string -> option pyfloat.

(** The body of the loop of [score_price] for one price break: the parsed
    price, [None] when the iteration ends in [continue].  Only a string has
    [.replace]. *)
Definition score_price_parse (pb : price_break) : option pyfloat :=
  match pb_price pb with
  | PyStr s => float_of_str (clean_price s)
  | _ => None
  end.

(** The running minimum of [score_price]. *)
Definition min_price_of (price_breaks : list price_break) : option pyfloat :=
  fold_left
    (fun (min_price : option pyfloat) (pb : price_break) =>
       match score_price_parse pb with
       | None => min_price
       | Some price =>
           match min_price with
           | None => Some price
           | Some m => if flt price m then Some price else min_price
           end
       end)
    price_breaks None.

(** [score_price] *)
Definition score_price (part : mouser_part) : Q :=
  match mp_price_breaks part with
  | None | Some [] => 50
  | Some price_breaks =>
      match min_price_of price_breaks with
      | None => 50
      | Some min_price =>
          if fle min_price (Finite (1 # 100)) then 100
          else if fle min_price (Finite (1 # 10)) then 90
          else if fle min_price (Finite 1) then 70
          else if fle min_price (Finite 10) then 50
          else if fle min_price (Finite 50) then 30
          else 10
      end
  end.

(** [total_score] in [calculate_score]. *)
Definition total_score (r : RankingEngine) (part : mouser_part)
           (target_package : option string) : Q :=
  let stock_score := score_stock part in
  let price_score := score_price part in
  let lifecycle_score := score_lifecycle part in
  let package_score := score_package_match part target_package in
  Qplus (Qplus (Qplus (Qmult (stock_weight r) stock_score)
                      (Qmult (price_weight r) price_score))
               (Qmult (lifecycle_weight r) lifecycle_score))
        (Qmult (package_match_weight r) package_score).

(** [part.get('price_breaks', [{}])[0].get('price', 'N/A')], which
    [calculate_score] evaluates for its debug message: [None] when the
    indexing raises IndexError, that is, when the list of price breaks is
    there and empty. *)
Definition logged_price (part : mouser_part) : option pyval :=
  match mp_price_breaks part with
  | None => Some (PyStr "N/A")
  | Some [] => None
  | Some (pb :: _) => Some (pb_price pb)
  end.

(** [calculate_score]: [None] when it raises (the IndexError of the debug
    message), else the score, rounded to two decimals. *)
Definition calculate_score (r : RankingEngine) (part : mouser_part)
           (target_package : option string) : option Q :=
  let total_score := total_score r part target_package in
  match logged_price part with
  | None => None
  | Some _ => Some (round2 total_score)
  end.

(** [for part in parts: part['score'] = self.calculate_score(part, target)]:
    [None] when a call raises; the parts scored before it keep their score
    in the caller's list, of which the model keeps no trace. *)
Fixpoint attach_scores (r : RankingEngine) (parts : list mouser_part)
         (target_package : option string) : option (list mouser_part) :=
  match parts with
  | [] => Some []
  | part :: rest =>
      match calculate_score r part target_package with
      | None => None
      | Some sc =>
          match attach_scores r rest target_package with
          | None => None
          | Some scored => Some (set_score part sc :: scored)
          end
      end
  end.

(** [p.get('score', 0)] *)
Definition score_of (p : mouser_part) : Q :=
  match mp_score p with Some sc => sc | None => 0 end.

(** [rank_parts]: [None] when scoring raises. *)
Definition rank_parts (r : RankingEngine) (parts : list mouser_part)
           (target_package : option string) : option (list mouser_part) :=
  match attach_scores r parts target_package with
  | None => None
  | Some scored =>
      Some (sorted (fun p => (score_of p, stock_of p)) lt_num_int true scored)
  end.

(** The price of one price break as [_extract_price] reads it: [None] when
    the iteration ends in [continue] (empty or zero price, unparseable text).
    An integer price is taken to lie within the range of the floats. *)
Definition price_float (price : pyval) : option pyfloat :=
  match price with
  | PyNone => None
  | PyStr s => if truthy s then float_of_str (clean_price s) else None
  | PyInt z => if Z.eqb z 0 then None else Some (Finite (inject_Z z))
  | PyFloat (Finite q) => if Qeq_bool q 0 then None else Some (Finite q)
  | PyFloat f => Some f
  end.

(** The loop of [_extract_price]: returns [(unit_price, first_price)]; the
    recursion stops at the [break]. *)
Fixpoint extract_loop (price_breaks : list price_break) (first_price : option pyfloat)
  : option pyfloat * option pyfloat :=
  match price_breaks with
  | [] => (None, first_price)
  | pb :: rest =>
      match price_float (pb_price pb) with
      | None => extract_loop rest first_price
      | Some price =>
          let first_price' :=
            match first_price with None => Some price | Some _ => first_price end in
          if Z.eqb (pb_quantity pb) 1 then (Some price, first_price')
          else extract_loop rest first_price'
      end
  end.

(** [_extract_price] *)
Definition _extract_price (part : mouser_part) : pyfloat :=
  match mp_price_breaks part with
  | None | Some [] => Infinity
  | Some price_breaks =>
      match extract_loop price_breaks None with
      | (Some unit_price, _) => unit_price
      | (None, Some first_price) => first_price
      | (None, None) => Infinity
      end
  end.

(** The two ranking modes. *)
Inductive sort_mode : Type := ByPrice | ByStock.

(** [sort_by == 'price'] selects the price mode, anything else the stock mode. *)
Definition mode_of (sort_by : string) : sort_mode :=
  if String.eqb sort_by "price" then ByPrice else ByStock.

(** The weights installed in the ranker for the stock mode. *)
Definition stock_mode_ranker : RankingEngine :=
  let stock_weight := (6 # 10)%Q in
  let price_weight := (2 # 10)%Q in
  let lifecycle_weight := (1 # 10)%Q in
  let package_match_weight := (1 # 10)%Q in
  let total := Qplus (Qplus (Qplus stock_weight price_weight) lifecycle_weight)
                     package_match_weight in
  mkRankingEngine (Qdiv stock_weight total) (Qdiv price_weight total)
                  (Qdiv lifecycle_weight total) (Qdiv package_match_weight total).

(** [rank_parts_with_preference], for the ranker held by the application:
    [None] when scoring raises. *)
Definition rank_parts_with_preference (ranker : RankingEngine)
           (results : list mouser_part) (target_package : option string)
           (sort_by : string) : option (list mouser_part) :=
  match mode_of sort_by with
  | ByPrice =>
      match attach_scores ranker results target_package with
      | None => None
      | Some results_copy =>
          Some (sorted (fun p => (_extract_price p, (- stock_of p)%Z)) lt_float_int false
                       results_copy)
      end
  | ByStock =>
      rank_parts stock_mode_ranker results target_package
  end.

(** *** Reference notions for the price mode

    They are written from the wording of the property, not from
    [_extract_price]. *)

(** A price that parses: a text that [float()] reads once currency signs,
    commas and surrounding blanks are removed, or a number. *)
Definition parses (price : pyval) : option pyfloat :=
  match price with
  | PyNone => None
  | PyStr s => float_of_str (strip (remove_char "," (remove_char "$" s)))
  | PyInt z => Some (Finite (inject_Z z))
  | PyFloat f => Some f
  end.

(** A price that is usable: it parses and is neither the empty text nor the
    number zero. *)
Definition usable (price : pyval) : option pyfloat :=
  match price with
  | PyStr EmptyString => None
  | PyInt 0%Z => None
  | PyFloat (Finite q) => if Qeq_bool q 0 then None else Some (Finite q)
  | _ => parses price
  end.

(** The unit price under a reading of prices: the price of the first
    quantity-1 price break that can be read, else the first price that can
    be read, else infinity. *)
Definition unit_price_by (read : pyval -> option pyfloat) (part : mouser_part)
  : pyfloat :=
  let price_breaks := match mp_price_breaks part with Some l => l | None => [] end in
  let readable :=
    collect (fun pb => match read (pb_price pb) with
                       | Some f => Some (pb_quantity pb, f)
                       | None => None
                       end) price_breaks in
  match find (fun qf => Z.eqb (fst qf) 1) readable with
  | Some qf => snd qf
  | None => match readable with
            | qf :: _ => snd qf
            | [] => Infinity
            end
  end.


Definition unit_price : mouser_part -> pyfloat := unit_price_by usable.

End Ranking.

(** A plain decimal reader for sample inputs: digits, optionally followed by
    a point and digits. *)
Fixpoint split_point (s : string) : string * option string :=
  match s with
  | EmptyString => (EmptyString, None)
  | String c s' =>
      if Ascii.eqb c "." then (EmptyString, Some s')
      else let (a, b) := split_point s' in (String c a, b)
  end.

Definition decimal_float (s : string) : option pyfloat :=
  match split_point s with
  | (a, None) => if isdigit a then Some (Finite (inject_Z (int_of_digits a))) else None
  | (a, Some b) =>
      if isdigit a && isdigit b
      then Some (Finite (Qplus (inject_Z (int_of_digits a))
                               (Qdiv (inject_Z (int_of_digits b))
                                     (inject_Z (10 ^ Z.of_nat (String.length b))))))
      else None
  end.

(** The specification's two-candidate scenario. *)
Definition candidate (stock : Z) (price : string) : mouser_part :=
  mkMouserPart None None None None None (Some stock)
               (Some [mkPriceBreak 1 (PyStr price) "USD"]) None None None [].

Definition default_ranker : RankingEngine :=
  new_ranker (3 # 10) (5 # 10) (1 # 10) (1 # 10).

(* ================================================================== *)
(** ** bom_mouser_lookup.py: session state, confirmation, export *)

(** The attributes of [BOMMouserLookupApp] that hold session data.  Widgets
    and Tk variables are represented by the values they carry. *)
Record App : Type := mkApp {
  components : list RawRow;
  column_mapping : dict string;
  consolidated_parts : list part;
  part_key_to_index : dict nat;
  selected_parts : dict mouser_part;
  part_selected : dict bool;
  in_stock_var : bool;
  active_only_var : bool;
  sort_preference : string;
  current_search_results : dict (list mouser_part);
  batch_part_keys : list string;
  current_batch_index : Z
}.

Definition set_selected_parts (a : App) (d : dict mouser_part) : App :=
  mkApp (components a) (column_mapping a) (consolidated_parts a) (part_key_to_index a)
        d (part_selected a) (in_stock_var a) (active_only_var a) (sort_preference a)
        (current_search_results a) (batch_part_keys a) (current_batch_index a).

Definition set_part_selected (a : App) (d : dict bool) : App :=
  mkApp (components a) (column_mapping a) (consolidated_parts a) (part_key_to_index a)
        (selected_parts a) d (in_stock_var a) (active_only_var a) (sort_preference a)
        (current_search_results a) (batch_part_keys a) (current_batch_index a).

Definition set_current_batch_index (a : App) (i : Z) : App :=
  mkApp (components a) (column_mapping a) (consolidated_parts a) (part_key_to_index a)
        (selected_parts a) (part_selected a) (in_stock_var a) (active_only_var a)
        (sort_preference a) (current_search_results a) (batch_part_keys a) i.

(** [_generate_part_key]: [f"part_{index}"] *)
Definition _generate_part_key (index : nat) : string := "part_" ++ str_of_nat index.

(** The loop [for idx, part in enumerate(self.consolidated_parts):
    self.part_key_to_index[self._generate_part_key(idx)] = idx] *)
Definition build_part_key_to_index (parts : list part) : dict nat :=
  fold_left (fun (m : dict nat) (ip : nat * part) =>
               Dict.set m (_generate_part_key (fst ip)) (fst ip))
            (enumerate parts) [].

(** [_get_part_by_key] *)
Definition _get_part_by_key (a : App) (part_key : string) : option part :=
  match Dict.get (part_key_to_index a) part_key with
  | Some index =>
      if Nat.ltb index (length (consolidated_parts a))
      then nth_error (consolidated_parts a) index else None
  | None => None
  end.

(** The dictionary built for the N/A radio option. *)
Definition na_part : mouser_part :=
  {| mp_mpn := Some "NA";
     mp_manufacturer := Some "N/A";
     mp_mouser_part_number := Some "NA";
     mp_description := Some "N/A - No part selected";
     mp_package := None;
     mp_stock := None;
     mp_price_breaks := None;
     mp_lifecycle := None;
     mp_product_url := None;
     mp_score := None;
     mp_other := [] |}.

(** [confirm_part_selection]: the two dictionary assignments; the remainder
    of the method updates the table widget and the status line. *)
Definition confirm_part_selection (a : App) (part_key : string) (mouser_part : mouser_part)
  : App :=
  let a1 := set_selected_parts a (Dict.set (selected_parts a) part_key mouser_part) in
  set_part_selected a1 (Dict.set (part_selected a1) part_key true).

(** [l[i]] for a Python integer index, [None] for IndexError. *)
Definition py_index {A : Type} (l : list A) (i : Z) : option A :=
  let n := Z.of_nat (length l) in
  if Z.leb 0 i then nth_error l (Z.to_nat i)
  else if Z.leb (- n) i then nth_error l (Z.to_nat (n + i))
  else None.

(** The part chosen by a radio value: the sentinel for ['NA'], otherwise the
    result at the parsed index; [None] on the paths that show an error. *)
Definition chosen_part (a : App) (part_key selected_value : string) : option mouser_part :=
  if String.eqb selected_value "NA" then Some na_part
  else
    match parse_int selected_value with
    | Some part_index =>
        let all_results := Dict.get_default (current_search_results a) part_key [] in
        if Z.ltb part_index (Z.of_nat (length all_results))
        then py_index all_results part_index else None
    | None => None
    end.

(** [if self.batch_part_keys and self.current_batch_index < len(...) - 1] *)
Definition can_advance (a : App) : bool :=
  match batch_part_keys a with
  | [] => false
  | _ :: _ => Z.ltb (current_batch_index a) (Z.of_nat (length (batch_part_keys a)) - 1)
  end.

(** [confirm_selected_part], for the part key the method resolved and the
    value read from that part's radio variable ([None]: the key has no radio
    variable).  The state is unchanged on every path that shows a warning. *)
Definition confirm_selected_part (a : App) (part_key : string)
           (radio : option string) : App :=
  match radio with
  | None => a
  | Some selected_value =>
      if negb (truthy selected_value) then a
      else
        match chosen_part a part_key selected_value with
        | None => a
        | Some mouser_part =>
            let a1 := confirm_part_selection a part_key mouser_part in
            if can_advance a1
            then set_current_batch_index a1 (current_batch_index a1 + 1)
            else a1
        end
  end.

(** One row of the exported table. *)
Record export_row : Type := mkExportRow {
  x_REFDES : string;
  x_Quantity : pyval;
  x_Description : string;
  x_Package : string;
  x_MPN : string;
  x_Mouser_Part_Number : string;
  x_Manufacturer : string;
  x_Value : string;
  x_Voltage : string;
  x_Stock : pyval;
  x_Price : pyval;
  x_Lifecycle : string;
  x_Product_URL : string
}.

(** [checked_parts = {k: v for k, v in self.selected_parts.items()
                      if self.part_selected.get(k, False)}] *)
Definition checked_parts (a : App) : dict mouser_part :=
  filter (fun kv => Dict.get_default (part_selected a) (fst kv) false) (selected_parts a).

(** The body of the export loop for one entry of [checked_parts]. *)
Definition build_row (a : App) (entry : string * mouser_part) : export_row :=
  let (part_key, mouser_part) := entry in
  let original_part := _get_part_by_key a part_key in
  let mouser_package :=
    match mp_package mouser_part with
    | Some raw => if truthy raw then strip raw else ""
    | None => ""
    end in
  {| x_REFDES := match original_part with
                 | Some p => text_or_empty (refdes p) | None => "" end;
     x_Quantity := match original_part with
                   | Some p => PyInt (quantity p) | None => PyStr "" end;
     x_Description :=
       match mp_description mouser_part with
       | Some d => d
       | None => match original_part with Some p => description p | None => "" end
       end;
     x_Package := mouser_package;
     x_MPN := text_or_empty (mp_mpn mouser_part);
     x_Mouser_Part_Number := text_or_empty (mp_mouser_part_number mouser_part);
     x_Manufacturer := text_or_empty (mp_manufacturer mouser_part);
     x_Value := match original_part with Some p => value p | None => "" end;
     x_Voltage := match original_part with Some p => voltage p | None => "" end;
     x_Stock := PyInt (stock_of mouser_part);
     x_Price := match mp_price_breaks mouser_part with
                | Some (first_pb :: _) => pb_price first_pb
                | _ => PyStr ""
                end;
     x_Lifecycle := text_or_empty (mp_lifecycle mouser_part);
     x_Product_URL := text_or_empty (mp_product_url mouser_part) |}.

(** [get_export_data] *)
Definition get_export_data (a : App) : list export_row :=
  match checked_parts a with
  | [] => []
  | entries => map (build_row a) entries
  end.

(** A cell of the export that shows nothing. *)
Definition blank (v : pyval) : Prop := v = PyStr "" \/ v = PyNone.

(** The consolidated-part indices of the exported records, in export order. *)
Definition exported_indices (a : App) : list (option nat) :=
  map (fun kv => Dict.get (part_key_to_index a) (fst kv)) (checked_parts a).

(** The indices of the checked parts, in consolidated-part order. *)
Definition checked_indices (a : App) : list nat :=
  filter (fun i => Dict.get_default (part_selected a) (_generate_part_key i) false)
         (seq 0 (length (consolidated_parts a))).

(** The session right after a BOM has been opened: parts and key index in
    place, every checkbox clear, no selection, no search results. *)
Definition opened (comps : list RawRow) (mapping : dict string) (parts : list part) : App :=
  {| components := comps;
     column_mapping := mapping;
     consolidated_parts := parts;
     part_key_to_index := build_part_key_to_index parts;
     selected_parts := [];
     part_selected := map (fun ip => (_generate_part_key (fst ip), false)) (enumerate parts);
     in_stock_var := true;
     active_only_var := true;
     sort_preference := "stock";
     current_search_results := [];
     batch_part_keys := [];
     current_batch_index := 0 |}.

(** A candidate as the search normalizes it, and a two-part session. *)
Definition sample_candidate : mouser_part :=
  {| mp_mpn := Some "RC0603FR-0710KL";
     mp_manufacturer := Some "YAGEO";
     mp_mouser_part_number := Some "603-RC0603FR-0710KL";
     mp_description := Some "Thick Film Resistors 10K 1%";
     mp_package := Some "0603";
     mp_stock := Some 5000%Z;
     mp_price_breaks := Some [mkPriceBreak 1 (PyStr "$0.10") "USD"];
     mp_lifecycle := Some "";
     mp_product_url := Some "https://www.mouser.com/ProductDetail/603-RC0603FR-0710KL";
     mp_score := None;
     mp_other := [] |}.

Definition two_part_rows : list RawRow :=
  [ [("mpn", "R1-103"); ("refdes", "R1"); ("quantity", "1")];
    [("mpn", "C2-104"); ("refdes", "C2"); ("quantity", "2")] ].

Definition two_part_session : App :=
  opened two_part_rows [] (get_consolidated_parts no_hash two_part_rows).

(** The export row the specification describes for the NA sentinel: MPN
    ["NA"], manufacturer ["N/A"], every other vendor-sourced column blank. *)
Definition claimed_na_row (r : export_row) : Prop :=
  x_MPN r = "NA" /\ x_Manufacturer r = "N/A" /\
  x_Mouser_Part_Number r = "" /\ x_Description r = "" /\ x_Package r = "" /\
  blank (x_Stock r) /\ blank (x_Price r) /\ x_Lifecycle r = "" /\ x_Product_URL r = "".

(** *** Session snapshot *)

(** The document written by [save_bom_state] and read by [load_bom_state]:
    one optional field per top-level key ([None]: key absent).  [json.dump]
    and [json.load] are taken to write and read this document unchanged. *)
Record state_data : Type := mkStateData {
  sd_version : option string;
  sd_save_date : option string;
  sd_consolidated_parts : option (list part);
  sd_column_mapping : option (dict string);
  sd_components : option (list RawRow);
  sd_selected_parts : option (dict mouser_part);
  sd_part_selected : option (dict bool);
  sd_in_stock_only : option bool;
  sd_active_only : option bool;
  sd_sort_preference : option string;
  sd_current_search_results : option (dict (list mouser_part));
  sd_batch_part_keys : option (list string);
  sd_current_batch_index : option Z
}.

(** [save_bom_state] for a chosen file, at time [now]: [None] when there is
    no BOM to save. *)
Definition save_bom_state (a : App) (now : string) : option state_data :=
  match consolidated_parts a with
  | [] => None
  | _ :: _ =>
      Some {| sd_version := Some "1.0";
              sd_save_date := Some now;
              sd_consolidated_parts := Some (consolidated_parts a);
              sd_column_mapping := Some (column_mapping a);
              sd_components := Some (components a);
              sd_selected_parts := Some (selected_parts a);
              sd_part_selected := Some (part_selected a);
              sd_in_stock_only := Some (in_stock_var a);
              sd_active_only := Some (active_only_var a);
              sd_sort_preference := Some (sort_preference a);
              sd_current_search_results := Some (current_search_results a);
              sd_batch_part_keys := Some (batch_part_keys a);
              sd_current_batch_index := Some (current_batch_index a) |}
  end.

(** [x = state_data[key] if key in state_data], otherwise [x] stays. *)
Definition restore {A : Type} (field : option A) (current : A) : A :=
  match field with Some v => v | None => current end.

(** The session effects of [populate_parts_table]: a checkbox entry for every
    part key that has none, and the key index rebuilt. *)
Definition populate_parts_table (a : App) : App :=
  match consolidated_parts a with
  | [] => a
  | _ :: _ =>
      let boxes :=
        fold_left (fun (d : dict bool) (ip : nat * part) =>
                     let part_key := _generate_part_key (fst ip) in
                     if Dict.mem d part_key then d else Dict.set d part_key false)
                  (enumerate (consolidated_parts a)) (part_selected a) in
      mkApp (components a) (column_mapping a) (consolidated_parts a)
            (build_part_key_to_index (consolidated_parts a))
            (selected_parts a) boxes (in_stock_var a) (active_only_var a)
            (sort_preference a) (current_search_results a) (batch_part_keys a)
            (current_batch_index a)
  end.

(** [load_bom_state] on a document that was read successfully. *)
Definition load_bom_state (a : App) (doc : state_data) : App :=
  match sd_consolidated_parts doc with
  | None => a
  | Some parts =>
      let a1 :=
        mkApp (restore (sd_components doc) (components a))
              (restore (sd_column_mapping doc) (column_mapping a))
              parts
              (build_part_key_to_index parts)
              (selected_parts a) (part_selected a) (in_stock_var a) (active_only_var a)
              (sort_preference a) (current_search_results a) (batch_part_keys a)
              (current_batch_index a) in
      let a2 := populate_parts_table a1 in
      mkApp (components a2) (column_mapping a2) (consolidated_parts a2)
            (part_key_to_index a2)
            (restore (sd_selected_parts doc) (selected_parts a2))
            (restore (sd_part_selected doc) (part_selected a2))
            (restore (sd_in_stock_only doc) (in_stock_var a2))
            (restore (sd_active_only doc) (active_only_var a2))
            (restore (sd_sort_preference doc) (sort_preference a2))
            (restore (sd_current_search_results doc) (current_search_results a2))
            (restore (sd_batch_part_keys doc) (batch_part_keys a2))
            (restore (sd_current_batch_index doc) (current_batch_index a2))
  end.

(** *** User actions on the selection state *)

(** The checkbox branch of [on_cell_click] for the row of [part_key]. *)
Definition toggle_checked (a : App) (part_key : string) : App :=
  let current_state := Dict.get_default (part_selected a) part_key false in
  set_part_selected a (Dict.set (part_selected a) part_key (negb current_state)).

Inductive action : Type :=
| Confirm (part_key : string) (choice : mouser_part)
| Toggle (part_key : string).

Definition perform (a : App) (act : action) : App :=
  match act with
  | Confirm part_key choice => confirm_part_selection a part_key choice
  | Toggle part_key => toggle_checked a part_key
  end.

(** The session after a sequence of user actions. *)
Definition run (a : App) (acts : list action) : App := fold_left perform acts a.

(** The part keys confirmed by a sequence of actions, in action order. *)
Fixpoint confirmed_keys (acts : list action) : list string :=
  match acts with
  | [] => []
  | Confirm k _ :: rest => k :: confirmed_keys rest
  | Toggle _ :: rest => confirmed_keys rest
  end.

(** Sample sessions: the NA option confirmed for the first part; the second
    part confirmed before the first. *)
Definition na_confirmed_session : App :=
  confirm_selected_part two_part_session "part_0" (Some "NA").

Definition reverse_confirmed_session : App :=
  run two_part_session [Confirm "part_1" na_part; Confirm "part_0" sample_candidate].

(** Two candidates that differ in stock only, ranked in stock mode. *)
Definition empty_stock_candidates : list mouser_part :=
  [candidate 0 "$0.02"; candidate 50 "$0.02"].

Definition ranked_empty_stock : list mouser_part :=
  match rank_parts_with_preference decimal_float default_ranker empty_stock_candidates
                                   None "stock" with
  | Some ranked => ranked
  | None => []
  end.

(* ================================================================== *)
(** ** Further functions of the ranking engine and the search client *)

(** [l[:n]] for a Python integer [n]: a negative bound counts from the end. *)
Definition py_slice_to {A : Type} (l : list A) (n : Z) : list A :=
  if Z.leb 0 n then firstn (Z.to_nat n) l
  else firstn (length l - Z.to_nat (- n)) l.

Section TopParts.

Variable float_of_str : string -> option pyfloat.

(** [get_top_parts]: [None] when ranking raises. *)
Definition get_top_parts (r : RankingEngine) (parts : list mouser_part)
           (target_package : option string) (limit : Z) : option (list mouser_part) :=
  match rank_parts float_of_str r parts target_package with
  | None => None
  | Some ranked => Some (py_slice_to ranked limit)
  end.

End TopParts.

Section Search.

(** The two remote lookups of the client, with their normalization:
    [search_by_mpn(mpn)] and
    [search_keyword(keyword, max_results, search_options)]. *)
Variable search_by_mpn : string -> list mouser_part.
Variable search_keyword : string -> Z -> string -> list mouser_part.

(** [MouserAPI.search] *)
Definition search (component : RawRow) (spec : dict string)
           (in_stock_only active_only : bool) : list mouser_part :=
  let search_opts := if in_stock_only then "InStock" else "None" in
  let mpn :=
    let m := strip (get_default component "mpn" "") in
    if truthy m then m else strip (get_default spec "mpn" "") in
  let by_mpn := if truthy mpn then search_by_mpn mpn else [] in
  match by_mpn with
  | _ :: _ => _apply_filters by_mpn in_stock_only active_only
  | [] =>
      match Dict.get spec "keyword" with
      | None => []
      | Some keyword =>
          if negb (truthy keyword) then []
          else _apply_filters (search_keyword keyword 50 search_opts)
                              in_stock_only active_only
      end
  end.

End Search.

(** A candidate passes the filters that are switched on. *)
Definition passes (in_stock_only active_only : bool) (p : mouser_part) : bool :=
  (negb in_stock_only || Z.ltb 0 (stock_of p))
  && (negb active_only || negb (PyStr.mem (lifecycle_upper p) inactive_statuses)).

(** The fields of a [parts_dict] entry that are fixed when the entry is
    created. *)
Definition carried_fields (p : part)
  : string * string * string * string * string * string * string * dict string :=
  (mpn p, value p, package p, voltage p, tolerance p, power p, description p, extra p).

(** A column that is copied into a new entry as an additional column. *)
Definition additional_column (kv : string * string) : bool :=
  negb (PyStr.mem (fst kv) literal_keys) && negb (String.eqb (fst kv) "refdes").

(** Sample provider lookups. *)
Definition sample_by_mpn (mpn : string) : list mouser_part :=
  if String.eqb mpn "R1-103" then [sample_candidate] else [].

Definition sample_by_keyword (keyword : string) (max_results : Z) (options : string)
  : list mouser_part :=
  [stock_only 0; stock_only 3].

Definition sample_row : RawRow :=
  [("refdes", "R1"); ("mpn", "R1-103"); ("voltage", "50V"); ("Supplier", "ACME")].

(** Two rows of one part that disagree on the voltage and the supplier. *)
Definition two_voltage_rows : list RawRow :=
  [ sample_row;
    [("refdes", "R2"); ("mpn", "R1-103"); ("voltage", "25V"); ("Supplier", "OTHER")] ].

(* ================================================================== *)
(** ** Further operations of the application *)

Definition set_batch (a : App) (keys : list string) (i : Z) : App :=
  mkApp (components a) (column_mapping a) (consolidated_parts a) (part_key_to_index a)
        (selected_parts a) (part_selected a) (in_stock_var a) (active_only_var a)
        (sort_preference a) (current_search_results a) keys i.

(** [go_to_previous_part] *)
Definition go_to_previous_part (a : App) : App :=
  if Z.ltb 0 (current_batch_index a)
  then set_current_batch_index a (current_batch_index a - 1)
  else a.

(** [go_to_next_part] *)
Definition go_to_next_part (a : App) : App :=
  if Z.ltb (current_batch_index a) (Z.of_nat (length (batch_part_keys a)) - 1)
  then set_current_batch_index a (current_batch_index a + 1)
  else a.

(** [confirm_and_advance]: the cursor moves on unless it is on the last
    part, where a message is shown instead. *)
Definition confirm_and_advance (a : App) : App :=
  if Z.ltb (current_batch_index a) (Z.of_nat (length (batch_part_keys a)) - 1)
  then set_current_batch_index a (current_batch_index a + 1)
  else a.

(** The session effects of [display_batch_results]: the key list of the
    batch and the cursor on its first part. *)
Definition display_batch_results (a : App) (all_results : dict (list mouser_part)) : App :=
  set_batch a (Dict.keys all_results) 0.

(** Steps of a batch review. *)
Inductive review_step : Type :=
| Previous
| Next
| Advance
| ConfirmRadio (part_key : string) (radio : option string).

Definition review (a : App) (st : review_step) : App :=
  match st with
  | Previous => go_to_previous_part a
  | Next => go_to_next_part a
  | Advance => confirm_and_advance a
  | ConfirmRadio part_key radio => confirm_selected_part a part_key radio
  end.

(** The cursor addresses a part of the batch (or rests at 0 on an empty
    batch). *)
Definition cursor_in_range (a : App) : Prop :=
  (0 <= current_batch_index a
   <= Z.max 0 (Z.of_nat (length (batch_part_keys a)) - 1))%Z.

(** The session effects of [open_bom] once the file has been parsed into
    [(components, column_mapping)]: the parts are consolidated, selections
    and search results are cleared, every part key without a checkbox entry
    gets one, and the key index is rebuilt.  Checkbox entries and the batch
    cursor of an earlier BOM are left as they are. *)
Definition open_bom (row_hash : RawRow -> Z) (a : App)
           (parsed : list RawRow * dict string) : App :=
  let (comps, mapping) := parsed in
  let parts := get_consolidated_parts row_hash comps in
  let boxes :=
    fold_left (fun (d : dict bool) (ip : nat * part) =>
                 let part_key := _generate_part_key (fst ip) in
                 if Dict.mem d part_key then d else Dict.set d part_key false)
              (enumerate parts) (part_selected a) in
  mkApp comps mapping parts (build_part_key_to_index parts)
        [] boxes (in_stock_var a) (active_only_var a) (sort_preference a)
        [] (batch_part_keys a) (current_batch_index a).

(** [get_more_parts_for_key], on the search results and the paging cursors
    ([current_search_index]): the new cursors, and the results to display
    when the call reveals any. *)
Definition get_more_parts_for_key (results : dict (list mouser_part))
           (cursors : dict nat) (part_key : string)
  : dict nat * option (list mouser_part) :=
  let all_results := Dict.get_default results part_key [] in
  let current_idx := Dict.get_default cursors part_key 0 in
  let next_results := firstn 3 (skipn current_idx all_results) in
  match next_results with
  | [] => (cursors, None)
  | _ :: _ =>
      let cursors' := Dict.set cursors part_key (current_idx + length next_results) in
      (cursors', Some (firstn (Dict.get_default cursors' part_key 0) all_results))
  end.

(** [n] presses of "Get More Parts" for one part key. *)
Fixpoint more_presses (results : dict (list mouser_part)) (cursors : dict nat)
         (part_key : string) (n : nat) : dict nat :=
  match n with
  | O => cursors
  | S n' => more_presses results
                         (fst (get_more_parts_for_key results cursors part_key))
                         part_key n'
  end.

(* ================================================================== *)
(** ** bom_parser.py: column names *)

(** [c.lower()] on ASCII. *)
Definition lower_char (c : ascii) : ascii :=
  let n := nat_of_ascii c in
  if Nat.leb 65 n && Nat.leb n 90 then ascii_of_nat (n + 32) else c.

(** [s.lower()] *)
Fixpoint lower (s : string) : string :=
  match s with
  | EmptyString => EmptyString
  | String c s' => String (lower_char c) (lower s')
  end.

(** [s.replace(' ', '_')] *)
Fixpoint spaces_to_underscores (s : string) : string :=
  match s with
  | EmptyString => EmptyString
  | String c s' =>
      String (if Ascii.eqb c " " then "_"%char else c) (spaces_to_underscores s')
  end.

(** [BOMParser.COLUMN_MAPPINGS], in the order of the dict literal. *)
Definition COLUMN_MAPPINGS : list (string * list string) :=
  [ ("refdes", ["refdes"; "ref"; "reference"; "reference designator"; "designator"]);
    ("mpn", ["mpn"; "manufacturer part number"; "part number"; "part#"; "mfr part number"]);
    ("value", ["value"; "component value"; "val"]);
    ("package", ["package"; "footprint"; "case"; "case code"; "size"]);
    ("voltage", ["voltage"; "voltage rating"; "v rating"; "v"]);
    ("tolerance", ["tolerance"; "tol"]);
    ("power", ["power"; "power rating"; "wattage"; "w"]);
    ("description", ["description"; "desc"; "comment"; "notes"]);
    ("quantity", ["quantity"; "qty"; "qty per board"]) ].

(** [normalize_column_name] *)
Definition normalize_column_name (col_name : string) : string :=
  if negb (truthy col_name) then ""
  else
    let col_lower := strip (lower col_name) in
    match find (fun sv => PyStr.mem col_lower (snd sv)) COLUMN_MAPPINGS with
    | Some sv => fst sv
    | None => spaces_to_underscores col_lower
    end.

(** [f"{base_name}_{n}"] and [f"col_{idx}"] *)
Definition suffixed (base_name : string) (n : nat) : string :=
  base_name ++ "_" ++ str_of_nat n.

Definition col_name_for (idx : nat) : string := "col_" ++ str_of_nat idx.

(** The loop [while final_name in column_mapping: count += 1; ...] of
    [_prepare_headers], returning the final [count]; [fuel] bounds the number
    of iterations. *)
Fixpoint bump (fuel : nat) (base_name : string) (count : nat)
         (column_mapping : dict string) : nat :=
  if Dict.mem column_mapping (suffixed base_name (count + 1))
  then match fuel with
       | O => count
       | S fuel' => bump fuel' base_name (count + 1) column_mapping
       end
  else count.

(** [orig_header] and [base_name] of the column at position [idx]. *)
Definition orig_header_of (idx : nat) (raw_header : string) : string :=
  let orig_header := strip raw_header in
  if truthy orig_header then orig_header else col_name_for idx.

Definition base_name_of (idx : nat) (raw_header : string) : string :=
  let n := normalize_column_name (orig_header_of idx raw_header) in
  if truthy n then n else col_name_for idx.

(** The state of the loop of [_prepare_headers]:
    [(headers, column_mapping, name_counts)]. *)
Definition header_state : Type := list string * dict string * dict nat.

(** One iteration of [for idx, raw_header in enumerate(original_headers)].
    The inner loop gets as much fuel as [column_mapping] has entries, which
    is enough for it to end on a name that is not in use. *)
Definition prepare_step (st : header_state) (ih : nat * string) : header_state :=
  let '(headers, column_mapping, name_counts) := st in
  let orig_header := orig_header_of (fst ih) (snd ih) in
  let base_name := base_name_of (fst ih) (snd ih) in
  let count := Dict.get_default name_counts base_name 0 in
  let count' :=
    if Nat.eqb count 0 then count
    else bump (length column_mapping) base_name count column_mapping in
  let final_name :=
    if Nat.eqb count 0 then base_name else suffixed base_name (count' + 1) in
  (headers ++ [final_name],
   Dict.set column_mapping final_name orig_header,
   Dict.set name_counts base_name (count' + 1)).

(** [_prepare_headers]: the normalized header list and the mapping from
    normalized to original names. *)
Definition _prepare_headers (original_headers : list string) : list string * dict string :=
  let '(headers, column_mapping, _) :=
    fold_left prepare_step (enumerate original_headers) ([], [], []) in
  (headers, column_mapping).

(** The base names and the original names of numbered columns, in column
    order. *)
Definition bases_of (ihs : list (nat * string)) : list string :=
  map (fun ih => base_name_of (fst ih) (snd ih)) ihs.

Definition base_names (original_headers : list string) : list string :=
  bases_of (enumerate original_headers).

Definition named_columns (ihs : list (nat * string)) : dict string :=
  map (fun ih => (base_name_of (fst ih) (snd ih), orig_header_of (fst ih) (snd ih))) ihs.

(** What holds of the loop state after the numbered columns [done]. *)
Definition header_inv (done : list (nat * string)) (st : header_state) : Prop :=
  let '(headers, column_mapping, name_counts) := st in
  length headers = length done /\
  (forall h, In h headers <-> Dict.mem column_mapping h = true) /\
  (forall h, In h headers -> truthy h = true) /\
  (forall b, Dict.get_default name_counts b 0 = 0 <-> ~ In b (bases_of done)) /\
  (NoDup (bases_of done) ->
   headers = bases_of done /\ column_mapping = named_columns done).



(** A candidate with volume pricing and one unreadable price. *)
Definition volume_priced_breaks : list price_break :=
  [mkPriceBreak 1 (PyStr "$2.50") "USD";
   mkPriceBreak 100 (PyStr "$1.20") "USD";
   mkPriceBreak 10 (PyStr "n/a") "USD"].

Definition volume_priced_candidate : mouser_part :=
  mkMouserPart None None None None None (Some 10%Z)
               (Some volume_priced_breaks) None None None [].

(* ================================================================== *)
(** ** config.py: API keys *)

(** What [load_keys] finds at the path of the keys file: no file, a file
    that cannot be read (the [except] branch), or the text of the file. *)
Inductive keys_file : Type :=
| Missing
| Unreadable
| Content (content : string).

(** The two attributes of a [Config]. *)
Record Config : Type := {
  mouser_api_key : option string;
  gemini_api_key : option string
}.

(** [s] with the prefix [p] removed, if [s] starts with [p]. *)
Fixpoint after_prefix (p s : string) : option string :=
  match p with
  | EmptyString => Some s
  | String a p' =>
      match s with
      | EmptyString => None
      | String b s' => if Ascii.eqb a b then after_prefix p' s' else None
      end
  end.

(** The longest run of characters that are not white space at the start of
    [s]: what the greedy group matches. *)
Fixpoint take_non_space (s : string) : string :=
  match s with
  | EmptyString => EmptyString
  | String c s' => if is_space c then EmptyString else String c (take_non_space s')
  end.

(** The pattern [name + '([^\s\n]+)'] matched at the start of [s]: group 1. *)
Definition match_at (name s : string) : option string :=
  match after_prefix name s with
  | Some rest =>
      let g := take_non_space rest in if truthy g then Some g else None
  | None => None
  end.

(** [re.search(name + '([^\s\n]+)', content)]: group 1 of the leftmost match. *)
Fixpoint re_search_key (name content : string) : option string :=
  match match_at name content with
  | Some g => Some g
  | None =>
      match content with
      | EmptyString => None
      | String _ content' => re_search_key name content'
      end
  end.

Definition has_no_space (s : string) : bool :=
  forallb (fun c => negb (is_space c)) (list_ascii_of_string s).

Section Keys.

(** [os.getenv] *)
Variable getenv : string -> option string.

Definition key_from (name env_name content : string) : option string :=
  match re_search_key name content with
  | Some g => Some (strip g)
  | None => getenv env_name
  end.

(** [Config.load_keys] *)
Definition load_keys (file : keys_file) : Config :=
  match file with
  | Missing | Unreadable =>
      {| mouser_api_key := getenv "MOUSER_API_KEY";
         gemini_api_key := getenv "GEMINI_API_KEY" |}
  | Content content =>
      {| mouser_api_key := key_from "MouserAPIkey=" "MOUSER_API_KEY" content;
         gemini_api_key := key_from "GeminiKey=" "GEMINI_API_KEY" content |}
  end.

End Keys.

(** [Config.is_configured] *)
Definition is_configured (c : Config) : bool :=
  match mouser_api_key c, gemini_api_key c with
  | Some _, Some _ => true
  | _, _ => false
  end.

(* ================================================================== *)
(** * Properties *)

(** ** Strings and dictionaries *)

Lemma mem_true_iff (x : string) (l : list string) :
  PyStr.mem x l = true <-> In x l.
Proof.
  unfold PyStr.mem. rewrite existsb_exists. split.
  - intros [y [Hy E]]. apply String.eqb_eq in E. now subst.
  - intros H. exists x. split; [assumption | apply String.eqb_refl].
Qed.

Lemma mem_false_iff (x : string) (l : list string) :
  PyStr.mem x l = false <-> ~ In x l.
Proof.
  rewrite <- mem_true_iff. destruct (PyStr.mem x l); split; intros; congruence.
Qed.

Module DictFacts.

Lemma get_set_same {V : Type} (d : dict V) (k : string) (v : V) :
  Dict.get (Dict.set d k v) k = Some v.
Proof.
  induction d as [|[k' v'] d IH]; simpl.
  - now rewrite String.eqb_refl.
  - destruct (String.eqb k k') eqn:E; simpl; rewrite E; [reflexivity | exact IH].
Qed.

Lemma get_set_other {V : Type} (d : dict V) (k k' : string) (v : V) :
  k <> k' -> Dict.get (Dict.set d k v) k' = Dict.get d k'.
Proof.
  intros Hne. induction d as [|[k0 v0] d IH]; simpl.
  - destruct (String.eqb k' k) eqn:E; [|reflexivity].
    apply String.eqb_eq in E. congruence.
  - destruct (String.eqb k k0) eqn:E; simpl.
    + apply String.eqb_eq in E. subst k0.
      destruct (String.eqb k' k) eqn:E'; [|reflexivity].
      apply String.eqb_eq in E'. congruence.
    + now rewrite IH.
Qed.

Lemma set_absent {V : Type} (d : dict V) (k : string) (v : V) :
  Dict.get d k = None -> Dict.set d k v = d ++ [(k, v)].
Proof.
  induction d as [|[k' v'] d IH]; simpl; intros H; [reflexivity|].
  destruct (String.eqb k k'); [discriminate|]. now rewrite IH.
Qed.

Lemma keys_set {V : Type} (d : dict V) (k : string) (v : V) :
  Dict.keys (Dict.set d k v) =
  if Dict.mem d k then Dict.keys d else Dict.keys d ++ [k].
Proof.
  unfold Dict.mem, Dict.keys. induction d as [|[k' v'] d IH]; simpl; [reflexivity|].
  destruct (String.eqb k k') eqn:E; simpl; [reflexivity|].
  rewrite IH. now destruct (Dict.get d k).
Qed.

Lemma get_tabulate {V : Type} (f : string -> V) (ks : list string) (k : string) :
  Dict.get (map (fun x => (x, f x)) ks) k =
  if PyStr.mem k ks then Some (f k) else None.
Proof.
  induction ks as [|x ks IH]; simpl; [reflexivity|].
  destruct (String.eqb k x) eqn:E; simpl; [|exact IH].
  apply String.eqb_eq in E. now subst.
Qed.

Lemma set_tabulate {V : Type} (f : string -> V) (ks : list string) (k : string) (v : V) :
  NoDup ks -> In k ks ->
  Dict.set (map (fun x => (x, f x)) ks) k v =
  map (fun x => (x, if String.eqb x k then v else f x)) ks.
Proof.
  induction ks as [|x ks IH]; simpl; intros Hnd Hin; [contradiction|].
  inversion Hnd as [|? ? Hx Hnd']; subst.
  destruct (String.eqb k x) eqn:E.
  - apply String.eqb_eq in E. subst x. rewrite String.eqb_refl. f_equal.
    apply map_ext_in. intros y Hy.
    destruct (String.eqb y k) eqn:E'; [|reflexivity].
    apply String.eqb_eq in E'. subst. contradiction.
  - destruct Hin as [->|Hin]; [rewrite String.eqb_refl in E; discriminate|].
    rewrite String.eqb_sym, E. f_equal. now apply IH.
Qed.

End DictFacts.

(** ** First-occurrence deduplication *)

Lemma In_dedup (x : string) (l : list string) : In x (dedup l) <-> In x l.
Proof.
  induction l as [|y l IH]; simpl; [tauto|].
  rewrite filter_In, IH. split.
  - intros [H|[H _]]; auto.
  - intros [H|H]; auto.
    destruct (String.eqb x y) eqn:E; simpl.
    + apply String.eqb_eq in E. auto.
    + right. split; [assumption | reflexivity].
Qed.

Lemma NoDup_filter {A : Type} (f : A -> bool) (l : list A) :
  NoDup l -> NoDup (filter f l).
Proof.
  induction 1 as [|x l Hx Hnd IH]; simpl; [constructor|].
  destruct (f x); [|assumption].
  constructor; [|assumption]. rewrite filter_In. tauto.
Qed.

Lemma NoDup_dedup (l : list string) : NoDup (dedup l).
Proof.
  induction l as [|x l IH]; simpl; constructor.
  - rewrite filter_In, String.eqb_refl. simpl. intros [_ H]. discriminate.
  - now apply NoDup_filter.
Qed.

Lemma mem_dedup (x : string) (l : list string) :
  PyStr.mem x (dedup l) = PyStr.mem x l.
Proof.
  destruct (PyStr.mem x l) eqn:E.
  - apply mem_true_iff, In_dedup, mem_true_iff, E.
  - apply mem_false_iff. rewrite In_dedup. now apply mem_false_iff.
Qed.

Lemma dedup_snoc (l : list string) (k : string) :
  dedup (l ++ [k]) = if PyStr.mem k l then dedup l else dedup l ++ [k].
Proof.
  induction l as [|x l IH]; simpl; [reflexivity|].
  rewrite IH. destruct (String.eqb k x) eqn:E; simpl.
  - apply String.eqb_eq in E. subst x.
    destruct (PyStr.mem k l); [reflexivity|].
    rewrite filter_app. simpl. rewrite String.eqb_refl. simpl.
    now rewrite app_nil_r.
  - destruct (PyStr.mem k l); [reflexivity|].
    rewrite filter_app. simpl. now rewrite E.
Qed.

(** ** Consolidation *)

Lemma absorb_refdes_list (p : part) (c : RawRow) :
  refdes_list (absorb p c) =
  if truthy (row_refdes c) && negb (PyStr.mem (row_refdes c) (refdes_list p))
  then refdes_list p ++ [row_refdes c] else refdes_list p.
Proof.
  unfold absorb.
  now destruct (truthy (row_refdes c) && negb (PyStr.mem (row_refdes c) (refdes_list p))).
Qed.

(** The readers of [get_consolidated_parts] return the stripped fields. *)
Lemma row_refdes_stripped (c : RawRow) : row_refdes c = stripped_field c "refdes".
Proof. reflexivity. Qed.

Lemma row_mpn_stripped (c : RawRow) : row_mpn c = stripped_field c "mpn".
Proof. reflexivity. Qed.

Lemma designators_rows (rows : list RawRow) :
  designators rows = filter truthy (map row_refdes rows).
Proof. reflexivity. Qed.

Lemma rows_of_mpn_rows (m : string) (comps : list RawRow) :
  rows_of_mpn m comps = filter (fun c => String.eqb (row_mpn c) m) comps.
Proof. reflexivity. Qed.

Lemma absorb_fold_refdes_list (rows : list RawRow) (p0 : part) :
  refdes_list p0 = [] ->
  refdes_list (fold_left absorb rows p0) = dedup (designators rows).
Proof.
  intros H0. induction rows as [|c rows IH] using rev_ind; [exact H0|].
  rewrite fold_left_app. cbn [fold_left]. rewrite absorb_refdes_list, IH.
  rewrite !designators_rows. rewrite map_app, filter_app. cbn [map filter].
  rewrite mem_dedup.
  destruct (truthy (row_refdes c)) eqn:T; cbn [andb].
  - rewrite dedup_snoc.
    now destruct (PyStr.mem (row_refdes c) (filter truthy (map row_refdes rows))).
  - now rewrite app_nil_r.
Qed.

Lemma absorb_fold_quantity (rows : list RawRow) (p0 : part) :
  quantity (fold_left absorb rows p0) =
  (quantity p0 + sumZ (map row_contribution rows))%Z.
Proof.
  revert p0. induction rows as [|c rows IH]; intros p0; simpl.
  - lia.
  - rewrite IH. unfold absorb. simpl.
    destruct (truthy (row_refdes c) && negb (PyStr.mem (row_refdes c) (refdes_list p0)));
      simpl; lia.
Qed.

Lemma absorb_fold_mpn (rows : list RawRow) (p0 : part) :
  mpn (fold_left absorb rows p0) = mpn p0.
Proof.
  revert p0. induction rows as [|c rows IH]; intros p0; simpl; [reflexivity|].
  rewrite IH. unfold absorb. simpl.
  now destruct (truthy (row_refdes c) && negb (PyStr.mem (row_refdes c) (refdes_list p0))).
Qed.

Section ConsolidationFacts.

Variable row_hash : RawRow -> Z.

Lemma consolidate_snoc (comps : list RawRow) (c : RawRow) :
  consolidate row_hash (comps ++ [c]) =
  consolidate_step row_hash (consolidate row_hash comps) c.
Proof. unfold consolidate. now rewrite fold_left_app. Qed.

Lemma rows_of_key_nil (k : string) (comps : list RawRow) :
  ~ In k (map (group_key row_hash) comps) -> rows_of_key row_hash k comps = [].
Proof.
  unfold rows_of_key. induction comps as [|c comps IH]; simpl; intros H; [reflexivity|].
  destruct (String.eqb (group_key row_hash c) k) eqn:E.
  - apply String.eqb_eq in E. tauto.
  - apply IH. tauto.
Qed.

Lemma rows_of_key_cons (k : string) (comps : list RawRow) :
  In k (map (group_key row_hash) comps) ->
  exists c rest, rows_of_key row_hash k comps = c :: rest.
Proof.
  unfold rows_of_key. induction comps as [|c comps IH]; simpl; intros H; [contradiction|].
  destruct (String.eqb (group_key row_hash c) k) eqn:E; [eauto|].
  destruct H as [H|H]; [|auto].
  apply String.eqb_neq in E. contradiction.
Qed.

Lemma rows_of_key_snoc (k : string) (comps : list RawRow) (c : RawRow) :
  rows_of_key row_hash k (comps ++ [c]) =
  rows_of_key row_hash k comps ++
  (if String.eqb (group_key row_hash c) k then [c] else []).
Proof. unfold rows_of_key. now rewrite filter_app. Qed.

Lemma step_present (d : dict part) (c : RawRow) (p : part) :
  Dict.get d (group_key row_hash c) = Some p ->
  consolidate_step row_hash d c = Dict.set d (group_key row_hash c) (absorb p c).
Proof.
  intros H. unfold consolidate_step, Dict.mem. now rewrite H, H.
Qed.

Lemma step_absent (d : dict part) (c : RawRow) :
  Dict.get d (group_key row_hash c) = None ->
  consolidate_step row_hash d c =
  d ++ [(group_key row_hash c, absorb (new_part c) c)].
Proof.
  intros H. unfold consolidate_step, Dict.mem. rewrite H.
  rewrite DictFacts.get_set_same, (DictFacts.set_absent _ _ _ H).
  clear - H. induction d as [|[k' v'] d IHd]; simpl in *.
  - now rewrite String.eqb_refl.
  - destruct (String.eqb (group_key row_hash c) k'); [discriminate|].
    now rewrite IHd.
Qed.

(** The grouping loop computes, for each distinct key in first-seen order,
    the entry of the rows that carry the key. *)
Lemma consolidate_spec (comps : list RawRow) :
  consolidate row_hash comps =
  map (fun k => (k, group_entry (rows_of_key row_hash k comps)))
      (dedup (map (group_key row_hash) comps)).
Proof.
  induction comps as [|c comps IH] using rev_ind; [reflexivity|].
  rewrite consolidate_snoc, IH, map_app. cbn [map].
  rewrite dedup_snoc.
  set (k0 := group_key row_hash c).
  set (ks := dedup (map (group_key row_hash) comps)).
  set (d := map (fun k => (k, group_entry (rows_of_key row_hash k comps))) ks).
  assert (Hget : Dict.get d k0 =
                 if PyStr.mem k0 (map (group_key row_hash) comps)
                 then Some (group_entry (rows_of_key row_hash k0 comps)) else None).
  { unfold d. rewrite DictFacts.get_tabulate. unfold ks. now rewrite mem_dedup. }
  destruct (PyStr.mem k0 (map (group_key row_hash) comps)) eqn:M.
  - rewrite (step_present _ _ _ Hget). fold k0. unfold d.
    rewrite DictFacts.set_tabulate;
      [| apply NoDup_dedup | apply In_dedup, mem_true_iff, M].
    apply map_ext. intros k. f_equal. rewrite rows_of_key_snoc. fold k0.
    destruct (String.eqb k k0) eqn:E.
    + apply String.eqb_eq in E. subst k. rewrite String.eqb_refl.
      destruct (rows_of_key_cons k0 comps) as [c1 [rest Hr]];
        [apply mem_true_iff, M|].
      rewrite Hr. unfold group_entry. cbn [app].
      change (c1 :: rest ++ [c]) with ((c1 :: rest) ++ [c]).
      now rewrite fold_left_app.
    + rewrite String.eqb_sym, E. now rewrite app_nil_r.
  - rewrite (step_absent _ _ Hget). fold k0. unfold d.
    rewrite map_app. cbn [map]. f_equal.
    + apply map_ext_in. intros k Hk. f_equal. rewrite rows_of_key_snoc. fold k0.
      destruct (String.eqb k0 k) eqn:E; [|now rewrite app_nil_r].
      apply String.eqb_eq in E. subst k.
      unfold ks in Hk. apply (proj1 (In_dedup _ _)) in Hk.
      apply (proj2 (mem_true_iff _ _)) in Hk. congruence.
    + f_equal. f_equal. rewrite rows_of_key_snoc. fold k0.
      rewrite String.eqb_refl.
      rewrite rows_of_key_nil; [reflexivity|]. now apply mem_false_iff.
Qed.

End ConsolidationFacts.

Lemma digits_value_nonneg (s : string) (acc : Z) :
  (0 <= acc)%Z -> all_digits s = true -> (0 <= digits_value acc s)%Z.
Proof.
  revert acc. induction s as [|c s IH]; cbn [digits_value all_digits];
    intros acc Hacc H; [assumption|].
  apply andb_prop in H. destruct H as [Hc Hs]. apply IH; [|assumption].
  unfold is_digit in Hc. apply andb_prop in Hc. destruct Hc as [Hlo _].
  apply Nat.leb_le in Hlo. lia.
Qed.

Lemma row_contribution_counted (comp : RawRow) :
  row_contribution comp = counted_quantity comp.
Proof.
  unfold row_contribution, row_qty, counted_quantity.
  destruct (Dict.get comp "quantity") as [s|]; [|reflexivity].
  destruct (isdigit s) eqn:D; [|reflexivity]. cbn [andb].
  assert (0 <= int_of_digits s)%Z.
  { apply digits_value_nonneg; [lia|]. unfold isdigit in D.
    now apply andb_prop in D. }
  destruct (Z.eqb_spec (int_of_digits s) 0) as [E|E].
  - rewrite E. reflexivity.
  - destruct (Z.ltb_spec 0 (int_of_digits s)); [reflexivity | lia].
Qed.

Lemma group_entry_quantity (rows : list RawRow) :
  quantity (group_entry rows) = sumZ (map row_contribution rows).
Proof.
  destruct rows as [|c rows]; [reflexivity|].
  unfold group_entry. now rewrite absorb_fold_quantity.
Qed.

Lemma group_entry_refdes_list (rows : list RawRow) :
  refdes_list (group_entry rows) = dedup (designators rows).
Proof.
  destruct rows as [|c rows]; [reflexivity|].
  unfold group_entry. now apply absorb_fold_refdes_list.
Qed.

Lemma group_entry_mpn (c : RawRow) (rows : list RawRow) :
  mpn (group_entry (c :: rows)) = row_mpn c.
Proof. unfold group_entry. now rewrite absorb_fold_mpn. Qed.

Lemma get_consolidated_parts_spec (row_hash : RawRow -> Z) (comps : list RawRow) :
  get_consolidated_parts row_hash comps =
  map (fun k => finalize (group_entry (rows_of_key row_hash k comps)))
      (dedup (map (group_key row_hash) comps)).
Proof.
  unfold get_consolidated_parts, Dict.values.
  rewrite consolidate_spec, !map_map. reflexivity.
Qed.

(** C3 (as amended).  Each consolidated part's quantity is the sum, over the
    rows of its group, of the row's counted quantity: the value of a quantity
    field that consists of decimal digits and denotes a positive number, and
    1 for every other row (field missing, not all digits, or zero).  The parts
    are listed group by group in first-seen key order. *)
Theorem consolidated_quantity_sums_counted_rows
  (row_hash : RawRow -> Z) (comps : list RawRow) :
  map quantity (get_consolidated_parts row_hash comps) =
  map (fun k => sumZ (map counted_quantity (rows_of_key row_hash k comps)))
      (dedup (map (group_key row_hash) comps)).
Proof.
  rewrite get_consolidated_parts_spec, map_map. apply map_ext. intros k.
  change (quantity (finalize (group_entry (rows_of_key row_hash k comps))))
    with (quantity (group_entry (rows_of_key row_hash k comps))).
  rewrite group_entry_quantity. f_equal. apply map_ext.
  apply row_contribution_counted.
Qed.

(** C3 as stated fails: a row whose quantity field is ["0"] parses to the
    integer 0, yet its part is given quantity 1. *)
Lemma zero_quantity_row_counts_one :
  map parsed_quantity zero_quantity_rows = [0%Z] /\
  map quantity (get_consolidated_parts no_hash zero_quantity_rows) = [1%Z] /\
  map quantity (get_consolidated_parts no_hash zero_quantity_rows) <>
  map (fun k => sumZ (map parsed_quantity (rows_of_key no_hash k zero_quantity_rows)))
      (dedup (map (group_key no_hash) zero_quantity_rows)).
Proof.
  split; [reflexivity|]. split; [reflexivity|]. vm_compute. discriminate.
Qed.

Lemma str_of_Z_head (z : Z) (t : string) : str_of_Z z <> String "m" t.
Proof.
  unfold str_of_Z, DecimalString.NilZero.string_of_int,
    DecimalString.NilZero.string_of_uint.
  destruct (Z.to_int z) as [d|d]; destruct d; simpl; discriminate.
Qed.

Lemma group_key_mpn (row_hash : RawRow -> Z) (c : RawRow) (m : string) :
  truthy m = true ->
  (group_key row_hash c = ("mpn:" ++ m)%string <-> row_mpn c = m).
Proof.
  intros Hm. unfold group_key. split.
  - destruct (truthy (row_mpn c)).
    + simpl. intros H. now injection H.
    + destruct (truthy (row_value c) && truthy (row_package c));
        [simpl; discriminate|].
      destruct (truthy (row_value c)); [simpl; discriminate|].
      intros H. exfalso. exact (str_of_Z_head _ _ H).
  - intros ->. now rewrite Hm.
Qed.

Lemma rows_of_key_mpn (row_hash : RawRow -> Z) (m : string) (comps : list RawRow) :
  truthy m = true ->
  rows_of_key row_hash ("mpn:" ++ m)%string comps = rows_of_mpn m comps.
Proof.
  intros Hm. rewrite rows_of_mpn_rows. unfold rows_of_key. apply filter_ext. intros c.
  destruct (String.eqb_spec (row_mpn c) m) as [E|E].
  - apply String.eqb_eq. now apply group_key_mpn.
  - apply String.eqb_neq. intros H. apply E. now apply (group_key_mpn row_hash).
Qed.

Lemma rows_of_key_head (row_hash : RawRow -> Z) (k : string) (comps : list RawRow)
      (c : RawRow) (rest : list RawRow) :
  rows_of_key row_hash k comps = c :: rest -> group_key row_hash c = k.
Proof.
  intros H. assert (Hin : In c (rows_of_key row_hash k comps)) by (rewrite H; now left).
  unfold rows_of_key in Hin. apply filter_In in Hin. destruct Hin as [_ E].
  now apply String.eqb_eq.
Qed.

(** C4 (as amended).  Rows whose mpn, stripped of the blanks at both ends,
    is the same non-empty text end up in exactly one consolidated part: the
    output splits around a single part carrying that mpn, no other part
    carries it, the part sits at the first-seen position of its group key,
    and its refdes is the non-empty stripped reference designators of these
    rows, each once, in first-seen order, joined with [", "].  The groups
    themselves are kept in first-seen key order.  For rows whose mpn and
    refdes carry no blanks at either end, this is the refdes as first
    stated, on the exact strings. *)
Theorem same_mpn_rows_form_one_part
  (row_hash : RawRow -> Z) (comps : list RawRow) (m : string) :
  truthy m = true ->
  In m (map (fun c => stripped_field c "mpn") comps) ->
  Dict.keys (consolidate row_hash comps) = dedup (map (group_key row_hash) comps) /\
  exists l1 p l2,
    get_consolidated_parts row_hash comps = l1 ++ p :: l2 /\
    mpn p = m /\
    (forall q, In q (l1 ++ l2) -> mpn q <> m) /\
    nth_error (dedup (map (group_key row_hash) comps)) (length l1) = Some ("mpn:" ++ m)%string /\
    refdes p = Some (join ", " (dedup (designators (rows_of_mpn m comps)))) /\
    ((forall c, In c comps ->
                stripped_field c "mpn" = exact_field c "mpn" /\
                stripped_field c "refdes" = exact_field c "refdes") ->
     refdes p = Some (claimed_refdes m comps)).
Proof.
  intros Hm Hin.
  change (In m (map row_mpn comps)) in Hin.
  assert (Hexact : (forall c, In c comps ->
                              stripped_field c "mpn" = exact_field c "mpn" /\
                              stripped_field c "refdes" = exact_field c "refdes") ->
                   join ", " (dedup (designators (rows_of_mpn m comps))) =
                   claimed_refdes m comps).
  { intros Hs. unfold claimed_refdes, designators, rows_of_mpn.
    rewrite (filter_ext_in (fun c => String.eqb (stripped_field c "mpn") m)
                           (fun c => String.eqb (exact_field c "mpn") m))
      by (intros c Hc; now rewrite (proj1 (Hs c Hc))).
    do 3 f_equal. apply map_ext_in. intros c Hc. apply filter_In in Hc.
    exact (proj2 (Hs c (proj1 Hc))). }
  split.
  { rewrite consolidate_spec. unfold Dict.keys. rewrite map_map. apply map_id. }
  set (F := fun k => finalize (group_entry (rows_of_key row_hash k comps))).
  set (ks := dedup (map (group_key row_hash) comps)).
  set (k0 := ("mpn:" ++ m)%string).
  assert (Hk0 : In k0 ks).
  { apply In_dedup. apply in_map_iff in Hin. destruct Hin as [c [Hc Hcin]].
    apply in_map_iff. exists c. split; [|assumption]. now apply group_key_mpn. }
  assert (Hmpn : forall k, In k ks -> mpn (F k) = m -> k = k0).
  { intros k Hk HF. apply (proj1 (In_dedup _ _)) in Hk.
    destruct (rows_of_key_cons row_hash k comps Hk) as [c [rest Hr]].
    unfold F in HF. rewrite Hr in HF.
    change (mpn (group_entry (c :: rest)) = m) in HF.
    rewrite group_entry_mpn in HF.
    rewrite <- (rows_of_key_head _ _ _ _ _ Hr). now apply group_key_mpn. }
  assert (Hnd : NoDup ks) by apply NoDup_dedup.
  destruct (in_split _ _ Hk0) as [ks1 [ks2 Hsplit]].
  exists (map F ks1), (F k0), (map F ks2).
  rewrite get_consolidated_parts_spec. fold F. fold ks.
  rewrite Hsplit, map_app in *. cbn [map].
  split; [reflexivity|].
  assert (Hp : mpn (F k0) = m).
  { unfold F, k0. rewrite rows_of_key_mpn by assumption.
    apply in_map_iff in Hin. destruct Hin as [c [Hc Hcin]].
    assert (Hc' : In c (rows_of_mpn m comps)).
    { unfold rows_of_mpn. apply filter_In. split; [assumption|].
      now apply String.eqb_eq. }
    destruct (rows_of_mpn m comps) as [|c1 rest] eqn:Hr; [contradiction|].
    change (mpn (group_entry (c1 :: rest)) = m). rewrite group_entry_mpn.
    assert (Hc1 : In c1 (rows_of_mpn m comps)) by (rewrite Hr; now left).
    unfold rows_of_mpn in Hc1. apply filter_In in Hc1.
    now apply String.eqb_eq. }
  split; [exact Hp|]. split; [|split].
  - intros q Hq Hqm. rewrite <- map_app in Hq. apply in_map_iff in Hq.
    destruct Hq as [k [<- Hk]].
    assert (In k (ks1 ++ k0 :: ks2)) by
      (apply in_app_iff in Hk; apply in_app_iff; simpl; tauto).
    assert (k = k0) by (now apply Hmpn). subst k.
    apply NoDup_remove_2 in Hnd. contradiction.
  - rewrite length_map, nth_error_app2 by lia.
    now rewrite Nat.sub_diag.
  - assert (Hr : refdes (F k0) =
                 Some (join ", " (dedup (designators (rows_of_mpn m comps))))).
    { unfold F, k0. rewrite rows_of_key_mpn by assumption.
      change (refdes (finalize (group_entry (rows_of_mpn m comps))))
        with (Some (join ", " (refdes_list (group_entry (rows_of_mpn m comps))))).
      now rewrite group_entry_refdes_list. }
    split; [exact Hr|]. intros Hs. rewrite Hr. f_equal. now apply Hexact.
Qed.

(** The two-row scenario of the specification: one part, refdes ["R1, R2"]. *)
Lemma same_mpn_rows_form_one_part_witness :
  exists l1 p l2,
    get_consolidated_parts no_hash two_resistor_rows = l1 ++ p :: l2 /\
    mpn p = "R1-103" /\
    (forall q, In q (l1 ++ l2) -> mpn q <> "R1-103") /\
    refdes p = Some "R1, R2".
Proof.
  destruct (same_mpn_rows_form_one_part no_hash two_resistor_rows "R1-103")
    as [_ [l1 [p [l2 [H1 [H2 [H3 [_ [H5 _]]]]]]]]];
    [reflexivity | left; reflexivity |].
  exists l1, p, l2. split; [exact H1|]. split; [exact H2|]. split; [exact H3|].
  exact H5.
Defined.

(** C4 as stated fails on designators that differ in blanks only:
    deduplicated by exact string match the two rows would give the refdes
    ["R1, R1 "]; the code strips each designator first and lists ["R1"]
    once. *)
Lemma designators_merge_after_strip :
  map (fun p => (mpn p, refdes p)) (get_consolidated_parts no_hash blank_suffix_rows) =
    [("R1-103", Some "R1")] /\
  claimed_refdes "R1-103" blank_suffix_rows = "R1, R1 " /\
  Some "R1" <> Some (claimed_refdes "R1-103" blank_suffix_rows).
Proof. split; [reflexivity|]. split; [reflexivity | discriminate]. Qed.

(** The specification's scenario, evaluated. *)
Example two_resistor_rows_consolidate :
  map (fun p => (mpn p, refdes p, quantity p))
      (get_consolidated_parts no_hash two_resistor_rows) =
  [("R1-103", Some "R1, R2", 2%Z)].
Proof. reflexivity. Qed.

(** ** Post-search filters *)

Lemma nat_of_ascii_inj (a b : ascii) : nat_of_ascii a = nat_of_ascii b -> a = b.
Proof.
  intros H. rewrite <- (ascii_nat_embedding a), <- (ascii_nat_embedding b).
  now rewrite H.
Qed.

Lemma upper_char_same_letter (a b : ascii) :
  Nat.leb 97 (nat_of_ascii b) && Nat.leb (nat_of_ascii b) 122 = false ->
  Ascii.eqb (upper_char a) b = same_letter a b.
Proof.
  intros Hb. unfold upper_char, same_letter.
  pose proof (nat_ascii_bounded a) as Ba.
  pose proof (nat_ascii_bounded b) as Bb.
  set (x := nat_of_ascii a) in *. set (y := nat_of_ascii b) in *.
  assert (Hy : ~ (97 <= y /\ y <= 122)).
  { intros [H1 H2]. apply Nat.leb_le in H1, H2. rewrite H1, H2 in Hb. discriminate. }
  clear Hb.
  destruct (Nat.leb 97 x && Nat.leb x 122) eqn:Hx.
  - apply andb_prop in Hx. destruct Hx as [H1 H2]. apply Nat.leb_le in H1, H2.
    destruct (Ascii.eqb_spec (ascii_of_nat (x - 32)) b) as [E|E].
    + assert (Hxy : x - 32 = y).
      { unfold y. rewrite <- E. symmetry. apply nat_ascii_embedding. lia. }
      symmetry. apply orb_true_iff. right.
      rewrite !andb_true_iff, !Nat.leb_le, Nat.eqb_eq. lia.
    + symmetry. apply orb_false_iff. split; [apply orb_false_iff; split|].
      * apply Nat.eqb_neq. lia.
      * apply andb_false_iff. left. apply andb_false_iff. right.
        apply Nat.leb_gt. lia.
      * destruct (Nat.eqb_spec x (y + 32)) as [Exy|Exy];
          [|now rewrite andb_false_r].
        exfalso. apply E. apply nat_of_ascii_inj.
        rewrite nat_ascii_embedding by lia. fold y. lia.
  - assert (Hx' : ~ (97 <= x /\ x <= 122)).
    { intros [H1 H2]. apply Nat.leb_le in H1, H2. rewrite H1, H2 in Hx. discriminate. }
    clear Hx.
    destruct (Ascii.eqb_spec a b) as [E|E].
    + subst b. fold x. now rewrite Nat.eqb_refl.
    + assert (Hne : x <> y) by (intros H; apply E; now apply nat_of_ascii_inj).
      symmetry. apply orb_false_iff. split; [apply orb_false_iff; split|].
      * now apply Nat.eqb_neq.
      * destruct (Nat.eqb_spec y (x + 32)); [|now rewrite andb_false_r].
        apply andb_false_iff. left. apply andb_false_iff.
        rewrite !Nat.leb_gt. lia.
      * destruct (Nat.eqb_spec x (y + 32)); [|now rewrite andb_false_r].
        apply andb_false_iff. left. apply andb_false_iff.
        rewrite !Nat.leb_gt. lia.
Qed.

Lemma upper_eqb_ci_equal (s t : string) :
  no_lower t = true -> String.eqb (upper s) t = ci_equal s t.
Proof.
  revert t. induction s as [|a s IH]; intros [|b t] H; simpl; try reflexivity.
  simpl in H. apply andb_prop in H. destruct H as [Hb Ht].
  apply negb_true_iff in Hb.
  rewrite (upper_char_same_letter a b Hb), (IH t Ht).
  now destruct (same_letter a b).
Qed.

Lemma mem_upper_inactive (s : string) :
  PyStr.mem (upper s) inactive_statuses = existsb (ci_equal s) inactive_statuses.
Proof.
  unfold PyStr.mem, inactive_statuses. cbn [existsb].
  now rewrite !upper_eqb_ci_equal by reflexivity.
Qed.

(** C9.  With [in_stock_only] the filter keeps exactly the candidates whose
    stock is positive; with [active_only] it removes exactly the candidates
    whose lifecycle text equals, up to letter case, one of OBSOLETE, EOL,
    END OF LIFE, NOT RECOMMENDED FOR NEW DESIGNS, END OF LIFE (EOL); with both
    flags a candidate survives exactly when it passes both tests; the
    in-stock filter on stocks [0; 3] leaves the second candidate only, and
    the active filter on nine sample lifecycle texts leaves the four that
    are none of the five statuses. *)
Theorem apply_filters_keeps_exactly (parts : list mouser_part) :
  _apply_filters parts true false = filter (fun p => Z.ltb 0 (stock_of p)) parts /\
  _apply_filters parts false true =
    filter (fun p => negb (existsb (ci_equal (text_or_empty (mp_lifecycle p)))
                                   ["OBSOLETE"; "EOL"; "END OF LIFE";
                                    "NOT RECOMMENDED FOR NEW DESIGNS";
                                    "END OF LIFE (EOL)"])) parts /\
  (forall (in_stock_only active_only : bool) (p : mouser_part),
     In p (_apply_filters parts in_stock_only active_only) <->
     In p parts /\
     (in_stock_only = true -> (0 < stock_of p)%Z) /\
     (active_only = true ->
      forall st, In st ["OBSOLETE"; "EOL"; "END OF LIFE";
                        "NOT RECOMMENDED FOR NEW DESIGNS"; "END OF LIFE (EOL)"] ->
                 ci_equal (text_or_empty (mp_lifecycle p)) st = false)) /\
  _apply_filters [stock_only 0; stock_only 3] true false = [stock_only 3] /\
  _apply_filters [lifecycle_only "Obsolete"; lifecycle_only "Active"; lifecycle_only "eol";
                  lifecycle_only ""; lifecycle_only "End of Life";
                  lifecycle_only "Not Recommended for New Designs";
                  lifecycle_only "New Product"; lifecycle_only "end of life (EOL)";
                  lifecycle_only "EOL soon"] false true =
    [lifecycle_only "Active"; lifecycle_only ""; lifecycle_only "New Product";
     lifecycle_only "EOL soon"].
Proof.
  change ["OBSOLETE"; "EOL"; "END OF LIFE"; "NOT RECOMMENDED FOR NEW DESIGNS";
          "END OF LIFE (EOL)"] with inactive_statuses.
  assert (Hact : forall p,
             negb (PyStr.mem (lifecycle_upper p) inactive_statuses) =
             negb (existsb (ci_equal (text_or_empty (mp_lifecycle p))) inactive_statuses)).
  { intros p. unfold lifecycle_upper. now rewrite mem_upper_inactive. }
  split; [reflexivity|]. split.
  { unfold _apply_filters. apply filter_ext. exact Hact. }
  split; [|split; reflexivity].
  intros a b p. unfold _apply_filters.
  assert (Hno : negb (existsb (ci_equal (text_or_empty (mp_lifecycle p))) inactive_statuses) = true <->
                forall st, In st inactive_statuses ->
                           ci_equal (text_or_empty (mp_lifecycle p)) st = false).
  { rewrite negb_true_iff. split.
    - intros H st Hst. destruct (ci_equal _ st) eqn:E; [|reflexivity].
      assert (existsb (ci_equal (text_or_empty (mp_lifecycle p))) inactive_statuses = true)
        by (apply existsb_exists; eauto).
      congruence.
    - intros H. destruct (existsb _ inactive_statuses) eqn:E; [|reflexivity].
      apply existsb_exists in E. destruct E as [st [Hst E]].
      rewrite (H st Hst) in E. discriminate. }
  destruct a, b; rewrite ?filter_In, ?Hact, ?Hno, ?Z.ltb_lt;
    intuition (try discriminate; auto).
Qed.

(** ** Reading the data rows *)

Lemma in_collect {A B : Type} (f : A -> option B) (l : list A) (y : B) :
  In y (collect f l) <-> exists x, In x l /\ f x = Some y.
Proof.
  induction l as [|x l IH]; simpl.
  - split; [contradiction | intros [x [[] _]]].
  - destruct (f x) as [y'|] eqn:E; simpl; rewrite IH; split.
    + intros [->|[x' [Hx Hf]]]; eauto.
    + intros [x' [[->|Hx] Hf]]; [left; congruence | right; eauto].
    + intros [x' [Hx Hf]]; eauto.
    + intros [x' [[->|Hx] Hf]]; [congruence | eauto].
Qed.

Lemma collect_skip {A B : Type} (f : A -> option B) (l1 l2 : list A) (x : A) :
  f x = None -> collect f (l1 ++ x :: l2) = collect f (l1 ++ l2).
Proof.
  intros H. induction l1 as [|a l1 IH]; simpl.
  - now rewrite H.
  - destruct (f a); now rewrite IH.
Qed.

Lemma has_data_value (component : RawRow) :
  has_data component = true -> exists k v, In (k, v) component /\ v <> "".
Proof.
  unfold has_data. destruct component as [|kv component]; [discriminate|].
  intros H. apply existsb_exists in H. destruct H as [v [Hv Ht]].
  unfold Dict.values in Hv. apply in_map_iff in Hv. destruct Hv as [[k v'] [E Hin]].
  simpl in E. subst v'. exists k, v. split; [assumption|].
  intros ->. discriminate.
Qed.

Lemma has_data_false (component : RawRow) :
  (forall k v, In (k, v) component -> v = "") -> has_data component = false.
Proof.
  intros H. unfold has_data. destruct component as [|kv component]; [reflexivity|].
  destruct (existsb truthy (Dict.values (kv :: component))) eqn:E; [|reflexivity].
  apply existsb_exists in E. destruct E as [v [Hv Ht]].
  unfold Dict.values in Hv. apply in_map_iff in Hv. destruct Hv as [[k v'] [E Hin]].
  simpl in E. subst v'. rewrite (H k v Hin) in Ht. discriminate.
Qed.

Lemma existsb_truthy_false (row : list string) :
  (forall c, In c row -> c = "") -> existsb truthy row = false.
Proof.
  intros H. destruct (existsb truthy row) eqn:E; [|reflexivity].
  apply existsb_exists in E. destruct E as [c [Hc Ht]].
  rewrite (H c Hc) in Ht. discriminate.
Qed.

Lemma existsb_cell_truthy_false (row : list cell_value) :
  (forall v, In v row -> v = CellNone \/ v = CellStr "") ->
  existsb cell_truthy row = false.
Proof.
  intros H. destruct (existsb cell_truthy row) eqn:E; [|reflexivity].
  apply existsb_exists in E. destruct E as [v [Hv Ht]].
  destruct (H v Hv) as [-> | ->]; discriminate.
Qed.

(** C10.  In both readers a data row whose cells are all empty is skipped, a
    row whose stripped values are all empty is skipped, a skipped row leaves
    no trace in the result, and every record that is returned comes from an
    input row and has at least one non-empty field value. *)
Theorem parsed_rows_carry_data (headers : list string) :
  (forall row, (forall c, In c row -> c = "") -> csv_row headers row = None) /\
  (forall row,
     (forall k v, In (k, v) (fill_component headers (map strip row)) -> v = "") ->
     csv_row headers row = None) /\
  (forall rows1 row rows2,
     csv_row headers row = None ->
     parse_csv_rows headers (rows1 ++ row :: rows2) = parse_csv_rows headers (rows1 ++ rows2)) /\
  (forall rows comp,
     In comp (parse_csv_rows headers rows) ->
     (exists row, In row rows /\ csv_row headers row = Some comp) /\
     exists k v, In (k, v) comp /\ v <> "") /\
  (forall row, (forall v, In v row -> v = CellNone \/ v = CellStr "") ->
               excel_row headers row = None) /\
  (forall row,
     (forall k v, In (k, v) (fill_component headers (map cell_text row)) -> v = "") ->
     excel_row headers row = None) /\
  (forall rows1 row rows2,
     excel_row headers row = None ->
     parse_excel_rows headers (rows1 ++ row :: rows2) =
     parse_excel_rows headers (rows1 ++ rows2)) /\
  (forall rows comp,
     In comp (parse_excel_rows headers rows) ->
     (exists row, In row rows /\ excel_row headers row = Some comp) /\
     exists k v, In (k, v) comp /\ v <> "").
Proof.
  repeat split.
  - intros row H. unfold csv_row. now rewrite existsb_truthy_false.
  - intros row H. unfold csv_row. rewrite has_data_false by assumption.
    now destruct (negb (existsb truthy row)).
  - intros rows1 row rows2 H. now apply collect_skip.
  - apply in_collect in H. exact H.
  - apply in_collect in H. destruct H as [row [_ Hrow]]. unfold csv_row in Hrow.
    destruct (negb (existsb truthy row)); [discriminate|].
    destruct (has_data (fill_component headers (map strip row))) eqn:E; [|discriminate].
    injection Hrow as <-. now apply has_data_value.
  - intros row H. unfold excel_row. now rewrite existsb_cell_truthy_false.
  - intros row H. unfold excel_row. rewrite has_data_false by assumption.
    now destruct (negb (existsb cell_truthy row)).
  - intros rows1 row rows2 H. now apply collect_skip.
  - apply in_collect in H. exact H.
  - apply in_collect in H. destruct H as [row [_ Hrow]]. unfold excel_row in Hrow.
    destruct (negb (existsb cell_truthy row)); [discriminate|].
    destruct (has_data (fill_component headers (map cell_text row))) eqn:E; [|discriminate].
    injection Hrow as <-. now apply has_data_value.
Qed.


(** ** Confirmation *)

Lemma mem_keys {V : Type} (d : dict V) (k : string) :
  Dict.mem d k = PyStr.mem k (Dict.keys d).
Proof.
  unfold Dict.mem, Dict.keys, PyStr.mem.
  induction d as [|[k' v] d IH]; simpl; [reflexivity|].
  destruct (String.eqb k k'); [reflexivity | exact IH].
Qed.

Lemma get_In {V : Type} (d : dict V) (k : string) (v : V) :
  Dict.get d k = Some v -> In (k, v) d.
Proof.
  induction d as [|[k' v'] d IH]; simpl; [discriminate|].
  destruct (String.eqb_spec k k') as [->|Hne].
  - intros H. injection H as ->. now left.
  - intros H. right. now apply IH.
Qed.

(** C7.  Confirming a choice for a part key checks that part and records the
    chosen candidate as its selection; when the key already had a selection
    the entry is overwritten in place (the key list is unchanged), otherwise
    one entry is added; every other key keeps its selection and its checked
    flag, and the consolidated parts are untouched. *)
Theorem confirm_touches_only_its_part (a : App) (part_key : string) (choice : mouser_part) :
  let a' := confirm_part_selection a part_key choice in
  Dict.get (part_selected a') part_key = Some true /\
  Dict.get (selected_parts a') part_key = Some choice /\
  Dict.keys (selected_parts a') =
    (if Dict.mem (selected_parts a) part_key
     then Dict.keys (selected_parts a)
     else Dict.keys (selected_parts a) ++ [part_key]) /\
  (forall k, k <> part_key ->
             Dict.get (selected_parts a') k = Dict.get (selected_parts a) k /\
             Dict.get (part_selected a') k = Dict.get (part_selected a) k) /\
  consolidated_parts a' = consolidated_parts a /\
  part_key_to_index a' = part_key_to_index a.
Proof.
  cbn. repeat split.
  - apply DictFacts.get_set_same.
  - apply DictFacts.get_set_same.
  - apply DictFacts.keys_set.
  - apply DictFacts.get_set_other. congruence.
  - apply DictFacts.get_set_other. congruence.
Qed.

(** ** Export *)

Lemma get_export_data_rows (a : App) :
  get_export_data a = map (build_row a) (checked_parts a).
Proof. unfold get_export_data. now destruct (checked_parts a). Qed.

(** C1 (as amended).  A checked part whose confirmed choice is the NA
    sentinel is exported as a row with MPN ["NA"], Mouser part number ["NA"],
    manufacturer ["N/A"], description ["N/A - No part selected"], stock 0, and
    package, price, lifecycle and product URL blank. *)
Theorem na_choice_export_row (a : App) (part_key : string) :
  Dict.get (selected_parts a) part_key = Some na_part ->
  Dict.get_default (part_selected a) part_key false = true ->
  let row := build_row a (part_key, na_part) in
  In row (get_export_data a) /\
  x_MPN row = "NA" /\
  x_Mouser_Part_Number row = "NA" /\
  x_Manufacturer row = "N/A" /\
  x_Description row = "N/A - No part selected" /\
  x_Stock row = PyInt 0 /\
  x_Package row = "" /\
  x_Price row = PyStr "" /\
  x_Lifecycle row = "" /\
  x_Product_URL row = "".
Proof.
  intros Hsel Hchk. cbn zeta. split; [|cbn; repeat split].
  rewrite get_export_data_rows. apply in_map. unfold checked_parts.
  apply filter_In. split; [now apply get_In | exact Hchk].
Qed.

Lemma na_choice_export_row_witness :
  Dict.get (selected_parts na_confirmed_session) "part_0" = Some na_part /\
  Dict.get_default (part_selected na_confirmed_session) "part_0" false = true /\
  In (build_row na_confirmed_session ("part_0", na_part))
     (get_export_data na_confirmed_session) /\
  x_Stock (build_row na_confirmed_session ("part_0", na_part)) = PyInt 0.
Proof.
  split; [reflexivity|]. split; [reflexivity|].
  destruct (na_choice_export_row na_confirmed_session "part_0")
    as [H1 [_ [_ [_ [_ [H6 _]]]]]]; [reflexivity | reflexivity |].
  split; assumption.
Defined.

(** C1 as stated fails: after the NA option is confirmed for the first part
    of the sample session, the exported row shows a Mouser part number, a
    description and a stock figure. *)
Lemma na_row_not_blank :
  Dict.get (selected_parts na_confirmed_session) "part_0" = Some na_part /\
  Dict.get (part_selected na_confirmed_session) "part_0" = Some true /\
  ~ (forall row, In row (get_export_data na_confirmed_session) -> claimed_na_row row).
Proof.
  split; [reflexivity|]. split; [reflexivity|]. intros H.
  specialize (H (build_row na_confirmed_session ("part_0", na_part))).
  destruct H as [_ [_ [H _]]]; [left; reflexivity|]. discriminate H.
Qed.

Lemma run_snoc (a : App) (acts : list action) (act : action) :
  run a (acts ++ [act]) = perform (run a acts) act.
Proof. unfold run. now rewrite fold_left_app. Qed.

Lemma confirmed_keys_snoc (acts : list action) (act : action) :
  confirmed_keys (acts ++ [act]) =
  confirmed_keys acts ++ match act with Confirm k _ => [k] | Toggle _ => [] end.
Proof.
  induction acts as [|[k c|k] acts IH]; simpl.
  - destruct act; reflexivity.
  - now rewrite IH.
  - exact IH.
Qed.

Lemma run_keys (a : App) (acts : list action) :
  selected_parts a = [] ->
  Dict.keys (selected_parts (run a acts)) = dedup (confirmed_keys acts).
Proof.
  intros H0. induction acts as [|act acts IH] using rev_ind.
  - cbn. now rewrite H0.
  - rewrite run_snoc, confirmed_keys_snoc. destruct act as [k c|k]; cbn [perform].
    + rewrite dedup_snoc. unfold confirm_part_selection.
      cbn [selected_parts set_part_selected set_selected_parts].
      rewrite DictFacts.keys_set, mem_keys, IH, mem_dedup.
      now destruct (PyStr.mem k (confirmed_keys acts)).
    + rewrite app_nil_r. exact IH.
Qed.

Lemma keys_filter {V : Type} (f : string -> bool) (d : dict V) :
  Dict.keys (filter (fun kv => f (fst kv)) d) = filter f (Dict.keys d).
Proof.
  unfold Dict.keys. induction d as [|[k v] d IH]; simpl; [reflexivity|].
  destruct (f k); simpl; now rewrite IH.
Qed.

(** C2 (as amended).  In a session reached from an empty selection map by any
    sequence of confirmations and checkbox toggles, the export holds one
    record per entry of the selection map whose part is checked, and these
    records follow the order in which the part keys were first confirmed:
    the exported keys are the first-seen confirmed keys, restricted to the
    checked ones. *)
Theorem export_follows_confirmation_order (a : App) (acts : list action) :
  selected_parts a = [] ->
  let a' := run a acts in
  get_export_data a' = map (build_row a') (checked_parts a') /\
  Dict.keys (checked_parts a') =
    filter (fun k => Dict.get_default (part_selected a') k false)
           (dedup (confirmed_keys acts)) /\
  length (get_export_data a') = length (Dict.keys (checked_parts a')).
Proof.
  intros H0. cbn zeta. split; [apply get_export_data_rows|]. split.
  - unfold checked_parts.
    rewrite (keys_filter (fun k => Dict.get_default (part_selected (run a acts)) k false)).
    now rewrite run_keys.
  - rewrite get_export_data_rows. unfold Dict.keys. now rewrite !length_map.
Qed.

Lemma export_follows_confirmation_order_witness :
  selected_parts two_part_session = [] /\
  Dict.keys (checked_parts (run two_part_session
                                [Confirm "part_1" na_part; Confirm "part_0" sample_candidate])) =
  ["part_1"; "part_0"].
Proof.
  split; [reflexivity|].
  destruct (export_follows_confirmation_order two_part_session
              [Confirm "part_1" na_part; Confirm "part_0" sample_candidate])
    as [_ [H _]]; [reflexivity|].
  rewrite H. reflexivity.
Defined.

(** C2 as stated fails: with the second part confirmed before the first, the
    export lists part 1 before part 0, while both parts are checked. *)
Lemma export_not_in_part_order :
  checked_indices reverse_confirmed_session = [0; 1] /\
  exported_indices reverse_confirmed_session = [Some 1; Some 0] /\
  map x_REFDES (get_export_data reverse_confirmed_session) = ["C2"; "R1"] /\
  exported_indices reverse_confirmed_session <>
  map Some (checked_indices reverse_confirmed_session).
Proof.
  split; [reflexivity|]. split; [reflexivity|]. split; [reflexivity|].
  vm_compute. discriminate.
Qed.

(** ** Session snapshot *)

(** C8.  For a session that has a BOM, saving yields a document, and loading
    that document into any session restores the same consolidated parts in
    the same order, the same selection map and the same checked flags; the
    key index is rebuilt from the restored part sequence. *)
Theorem snapshot_round_trip (a other : App) (now : string) :
  consolidated_parts a <> [] ->
  exists doc,
    save_bom_state a now = Some doc /\
    let a' := load_bom_state other doc in
    consolidated_parts a' = consolidated_parts a /\
    selected_parts a' = selected_parts a /\
    part_selected a' = part_selected a /\
    (forall k, Dict.get (selected_parts a') k = Dict.get (selected_parts a) k) /\
    (forall k, Dict.get (part_selected a') k = Dict.get (part_selected a) k) /\
    part_key_to_index a' = build_part_key_to_index (consolidated_parts a).
Proof.
  intros Hne. unfold save_bom_state.
  destruct (consolidated_parts a) as [|p parts] eqn:Hparts; [congruence|].
  eexists. split; [reflexivity|].
  unfold load_bom_state. cbn. repeat split.
Qed.

Lemma snapshot_round_trip_witness :
  consolidated_parts reverse_confirmed_session <> [] /\
  exists doc,
    save_bom_state reverse_confirmed_session "2024-01-01T00:00:00" = Some doc /\
    selected_parts (load_bom_state two_part_session doc) =
    selected_parts reverse_confirmed_session.
Proof.
  assert (H : consolidated_parts reverse_confirmed_session <> []) by (vm_compute; discriminate).
  split; [exact H|].
  destruct (snapshot_round_trip reverse_confirmed_session two_part_session
              "2024-01-01T00:00:00" H) as [doc [Hs [_ [Hsel _]]]].
  exists doc. split; assumption.
Defined.


(** ** Stable sorting *)

Section SortFacts.

Context {A : Type}.
Variable lt : A -> A -> bool.

Hypothesis lt_asym : forall a b, lt a b = true -> lt b a = false.
Hypothesis not_after_trans :
  forall a b c, not_after lt a b -> not_after lt b c -> not_after lt a c.

Local Abbreviation not_after := (not_after lt).

Lemma insert_sorted_In (x y : A) (l : list A) :
  In y (insert_sorted lt x l) <-> y = x \/ In y l.
Proof.
  induction l as [|z l IH]; simpl.
  - intuition.
  - destruct (lt x z); simpl; [intuition|]. rewrite IH. intuition.
Qed.

Lemma insert_sorted_perm (x : A) (l : list A) :
  Permutation (insert_sorted lt x l) (x :: l).
Proof.
  induction l as [|z l IH]; simpl; [reflexivity|].
  destruct (lt x z); [reflexivity|].
  rewrite IH. apply perm_swap.
Qed.

Lemma insert_sorted_sorted (x : A) (l : list A) :
  StronglySorted not_after l -> StronglySorted not_after (insert_sorted lt x l).
Proof.
  induction 1 as [|z l Hs IH Hz]; simpl.
  - constructor; constructor.
  - destruct (lt x z) eqn:E.
    + constructor; [constructor; assumption|].
      constructor; [now apply lt_asym|].
      rewrite Forall_forall in *. intros y Hy.
      apply (not_after_trans x z y); [now apply lt_asym | now apply Hz].
    + constructor; [assumption|].
      rewrite Forall_forall in *. intros y Hy.
      apply insert_sorted_In in Hy. destruct Hy as [->|Hy]; [exact E | now apply Hz].
Qed.

Lemma fold_insert_sorted (l acc : list A) :
  StronglySorted not_after acc ->
  StronglySorted not_after (fold_left (fun acc x => insert_sorted lt x acc) l acc).
Proof.
  revert acc. induction l as [|x l IH]; intros acc H; simpl; [assumption|].
  apply IH. now apply insert_sorted_sorted.
Qed.

Lemma stable_sort_sorted (l : list A) : StronglySorted not_after (stable_sort lt l).
Proof. apply fold_insert_sorted. constructor. Qed.

Lemma fold_insert_perm (l acc : list A) :
  Permutation (fold_left (fun acc x => insert_sorted lt x acc) l acc) (acc ++ l).
Proof.
  revert acc. induction l as [|x l IH]; intros acc; simpl.
  - now rewrite app_nil_r.
  - rewrite IH, insert_sorted_perm. apply Permutation_middle.
Qed.

Lemma stable_sort_perm (l : list A) : Permutation (stable_sort lt l) l.
Proof. apply (fold_insert_perm l []). Qed.

Lemma insert_sorted_last (x : A) (l : list A) :
  (forall y, In y l -> not_after y x) -> insert_sorted lt x l = l ++ [x].
Proof.
  induction l as [|z l IH]; intros H; simpl; [reflexivity|].
  rewrite (H z) by now left. rewrite IH; [reflexivity|].
  intros y Hy. apply H. now right.
Qed.

Lemma sorted_snoc_inv (l : list A) (x : A) :
  StronglySorted not_after (l ++ [x]) ->
  StronglySorted not_after l /\ forall y, In y l -> not_after y x.
Proof.
  induction l as [|z l IH]; simpl; intros H.
  - split; [constructor | contradiction].
  - inversion H as [|? ? Hs Hz]; subst. destruct (IH Hs) as [Hl Hx].
    rewrite Forall_forall in Hz. split.
    + constructor; [assumption|]. rewrite Forall_forall. intros y Hy.
      apply Hz. apply in_or_app. now left.
    + intros y [->|Hy]; [|now apply Hx].
      apply Hz. apply in_or_app. right. now left.
Qed.

Lemma stable_sort_snoc (l : list A) (x : A) :
  stable_sort lt (l ++ [x]) = insert_sorted lt x (stable_sort lt l).
Proof. unfold stable_sort. now rewrite fold_left_app. Qed.

(** Sorting a sorted list changes nothing. *)
Lemma stable_sort_fixed (l : list A) :
  StronglySorted not_after l -> stable_sort lt l = l.
Proof.
  induction l as [|x l IH] using rev_ind; intros H; [reflexivity|].
  apply sorted_snoc_inv in H. destruct H as [Hl Hx].
  rewrite stable_sort_snoc, IH by assumption. now apply insert_sorted_last.
Qed.

Lemma stable_sort_idempotent (l : list A) :
  stable_sort lt (stable_sort lt l) = stable_sort lt l.
Proof. apply stable_sort_fixed, stable_sort_sorted. Qed.

Lemma sorted_split (l1 l2 l3 : list A) (a b : A) :
  StronglySorted not_after (l1 ++ a :: l2 ++ b :: l3) -> not_after a b.
Proof.
  induction l1 as [|z l1 IH]; simpl; intros H.
  - inversion H as [|? ? _ Ha]; subst. rewrite Forall_forall in Ha.
    apply Ha. apply in_or_app. right. now left.
  - inversion H; subst. now apply IH.
Qed.

End SortFacts.

Lemma rev_split {A : Type} (l l1 l2 l3 : list A) (a b : A) :
  rev l = l1 ++ a :: l2 ++ b :: l3 ->
  l = rev l3 ++ b :: rev l2 ++ a :: rev l1.
Proof.
  intros H. rewrite <- (rev_involutive l), H.
  rewrite rev_app_distr. simpl. rewrite rev_app_distr. simpl.
  now rewrite <- !app_assoc.
Qed.

(** ** Lexicographic keys *)

Section LexFacts.

Context {K : Type}.
Variable le1 : K -> K -> bool.
Hypothesis le1_total : forall a b, le1 a b = true \/ le1 b a = true.
Hypothesis le1_trans : forall a b c, le1 a b = true -> le1 b c = true -> le1 a c = true.

Local Abbreviation lex_lt := (lex_lt le1).

Lemma lex_lt_asym (a b : K * Z) : lex_lt a b = true -> lex_lt b a = false.
Proof.
  unfold lex_lt. destruct a as [a1 a2], b as [b1 b2]. simpl.
  destruct (le1_total a1 b1) as [H|H]; rewrite H;
    destruct (le1 b1 a1) eqn:E1; destruct (le1 a1 b1) eqn:E2; simpl;
    try discriminate; try reflexivity.
  all: rewrite Z.ltb_lt, Z.ltb_ge; lia.
Qed.

Lemma lex_not_after_trans (a b c : K * Z) :
  lex_lt b a = false -> lex_lt c b = false -> lex_lt c a = false.
Proof.
  unfold lex_lt. destruct a as [a1 a2], b as [b1 b2], c as [c1 c2]. simpl.
  pose proof (le1_trans a1 b1 c1) as T1. pose proof (le1_trans a1 c1 b1) as T2.
  pose proof (le1_trans b1 a1 c1) as T3. pose proof (le1_trans b1 c1 a1) as T4.
  pose proof (le1_trans c1 a1 b1) as T5. pose proof (le1_trans c1 b1 a1) as T6.
  destruct (le1_total a1 b1) as [X1|X1]; destruct (le1_total b1 c1) as [X2|X2];
    destruct (le1_total a1 c1) as [X3|X3];
    destruct (le1 a1 b1), (le1 b1 a1), (le1 b1 c1), (le1 c1 b1), (le1 a1 c1), (le1 c1 a1);
    simpl; try discriminate; try reflexivity;
    try (exfalso; (discriminate (T1 eq_refl eq_refl) || discriminate (T2 eq_refl eq_refl)
                   || discriminate (T3 eq_refl eq_refl) || discriminate (T4 eq_refl eq_refl)
                   || discriminate (T5 eq_refl eq_refl) || discriminate (T6 eq_refl eq_refl)));
    rewrite ?Z.ltb_ge; intros; try discriminate; lia.
Qed.

End LexFacts.

Lemma Qle_bool_total (a b : Q) : Qle_bool a b = true \/ Qle_bool b a = true.
Proof.
  rewrite !Qle_bool_iff. destruct (Qlt_le_dec a b) as [H|H]; [left | right]; lra.
Qed.

Lemma Qle_bool_trans (a b c : Q) :
  Qle_bool a b = true -> Qle_bool b c = true -> Qle_bool a c = true.
Proof. rewrite !Qle_bool_iff. lra. Qed.

Lemma Qeq_bool_le (a b : Q) : Qeq_bool a b = Qle_bool a b && Qle_bool b a.
Proof.
  apply eq_true_iff_eq. rewrite andb_true_iff, Qeq_bool_iff, !Qle_bool_iff.
  split; [intros H; lra | intros [H1 H2]; lra].
Qed.

(** Floats other than NaN are totally ordered by [<=]. *)
Lemma fle_total (a b : pyfloat) :
  a <> NaN -> b <> NaN -> fle a b = true \/ fle b a = true.
Proof.
  destruct a, b; simpl; auto; try congruence. intros _ _. apply Qle_bool_total.
Qed.

Lemma fle_trans (a b c : pyfloat) :
  fle a b = true -> fle b c = true -> fle a c = true.
Proof. destruct a, b, c; simpl; try discriminate; auto. apply Qle_bool_trans. Qed.

Lemma fle_refl (a : pyfloat) : a <> NaN -> fle a a = true.
Proof. intros H. destruct (fle_total a a H H); assumption. Qed.

Lemma fle_not_nan (a b : pyfloat) : fle a b = true -> a <> NaN /\ b <> NaN.
Proof. destruct a, b; simpl; intros H; try discriminate H; split; discriminate. Qed.






Lemma lt_num_int_lex (a b : Q * Z) : lt_num_int a b = lex_lt Qle_bool a b.
Proof. unfold lt_num_int, lex_lt, Qlt_bool. now rewrite Qeq_bool_le. Qed.

Section SortedFacts.

Context {A K : Type}.
Variable key : A -> K.
Variable ltk : K -> K -> bool.
Hypothesis ltk_asym : forall a b, ltk a b = true -> ltk b a = false.
Hypothesis ltk_trans : forall a b c, ltk b a = false -> ltk c b = false -> ltk c a = false.

Local Abbreviation by_key := (fun a b => ltk (key a) (key b)).

Lemma by_key_asym (a b : A) : by_key a b = true -> by_key b a = false.
Proof. apply ltk_asym. Qed.

Lemma by_key_trans (a b c : A) :
  not_after by_key a b -> not_after by_key b c -> not_after by_key a c.
Proof. unfold not_after. apply ltk_trans. Qed.

Lemma sorted_perm (reverse : bool) (l : list A) :
  Permutation (sorted key ltk reverse l) l.
Proof.
  unfold sorted. destruct reverse.
  - rewrite <- Permutation_rev, stable_sort_perm. symmetry. apply Permutation_rev.
  - apply stable_sort_perm.
Qed.


Lemma sorted_descending (l l1 l2 l3 : list A) (a b : A) :
  sorted key ltk true l = l1 ++ a :: l2 ++ b :: l3 -> ltk (key a) (key b) = false.
Proof.
  unfold sorted. intros H. apply rev_split in H.
  pose proof (stable_sort_sorted by_key by_key_asym by_key_trans (rev l)) as Hs.
  rewrite H in Hs. exact (sorted_split by_key _ _ _ _ _ Hs).
Qed.


End SortedFacts.

(** ** Ranking *)



Lemma lt_num_int_asym (a b : Q * Z) :
  lt_num_int a b = true -> lt_num_int b a = false.
Proof. rewrite !lt_num_int_lex. apply (lex_lt_asym Qle_bool Qle_bool_total). Qed.

Lemma lt_num_int_trans (a b c : Q * Z) :
  lt_num_int b a = false -> lt_num_int c b = false -> lt_num_int c a = false.
Proof.
  rewrite !lt_num_int_lex.
  apply (lex_not_after_trans Qle_bool Qle_bool_total Qle_bool_trans).
Qed.




Section RankingFacts.

Variable float_of_str : string -> option pyfloat.

Local Abbreviation price_of := (_extract_price float_of_str).
Local Abbreviation readable :=
  (collect (fun pb => match usable float_of_str (pb_price pb) with
                      | Some f => Some (pb_quantity pb, f)
                      | None => None
                      end)).




(** Scoring raises exactly on an empty list of price breaks. *)
Lemma calculate_score_some (r : RankingEngine) (p : mouser_part)
      (target_package : option string) :
  mp_price_breaks p <> Some [] ->
  calculate_score float_of_str r p target_package =
  Some (round2 (total_score float_of_str r p target_package)).
Proof.
  intros H. unfold calculate_score, logged_price.
  destruct (mp_price_breaks p) as [[|pb rest]|]; [congruence | reflexivity | reflexivity].
Qed.

Lemma calculate_score_none (r : RankingEngine) (p : mouser_part)
      (target_package : option string) :
  calculate_score float_of_str r p target_package = None <->
  mp_price_breaks p = Some [].
Proof.
  unfold calculate_score, logged_price.
  destruct (mp_price_breaks p) as [[|pb rest]|]; split; intros H;
    try reflexivity; discriminate.
Qed.

Lemma attach_scores_some (r : RankingEngine) (target_package : option string)
      (parts : list mouser_part) :
  (forall p, In p parts -> mp_price_breaks p <> Some []) ->
  attach_scores float_of_str r parts target_package =
  Some (map (fun p => set_score p (round2 (total_score float_of_str r p target_package)))
            parts).
Proof.
  induction parts as [|p parts IH]; intros H; cbn [attach_scores map]; [reflexivity|].
  rewrite calculate_score_some by (apply H; now left).
  rewrite IH by (intros q Hq; apply H; now right). reflexivity.
Qed.

Lemma attach_scores_none (r : RankingEngine) (target_package : option string)
      (parts : list mouser_part) :
  attach_scores float_of_str r parts target_package = None <->
  exists p, In p parts /\ mp_price_breaks p = Some [].
Proof.
  induction parts as [|p parts IH]; cbn [attach_scores].
  - split; [discriminate | intros [q [[] _]]].
  - destruct (calculate_score float_of_str r p target_package) as [sc|] eqn:C.
    + destruct (attach_scores float_of_str r parts target_package) as [scored|].
      * split; [discriminate|]. intros [q [[<-|Hq] Hb]].
        -- apply (calculate_score_none r) with (target_package := target_package) in Hb.
           congruence.
        -- assert (N : @None (list mouser_part) = None) by reflexivity.
           destruct IH as [_ IH]. discriminate IH. now exists q.
      * split; [|reflexivity]. intros _. destruct IH as [IH _].
        destruct (IH eq_refl) as [q [Hq Hb]]. exists q. split; [now right | exact Hb].
    + split; [|reflexivity]. intros _. exists p. split; [now left|].
      now apply (calculate_score_none r p target_package).
Qed.

Lemma attach_scores_inv (r : RankingEngine) (target_package : option string)
      (parts scored : list mouser_part) :
  attach_scores float_of_str r parts target_package = Some scored ->
  (forall p, In p parts -> mp_price_breaks p <> Some []) /\
  scored = map (fun p => set_score p (round2 (total_score float_of_str r p target_package)))
               parts.
Proof.
  intros H.
  assert (Hb : forall p, In p parts -> mp_price_breaks p <> Some []).
  { intros p Hp Hbreaks.
    assert (N : attach_scores float_of_str r parts target_package = None)
      by (apply attach_scores_none; now exists p).
    congruence. }
  split; [exact Hb|]. rewrite (attach_scores_some r target_package parts Hb) in H.
  now injection H.
Qed.

(** Parts that carry their score already are scored to themselves. *)
Lemma attach_scores_fixed (r : RankingEngine) (target_package : option string)
      (l scored l' : list mouser_part) :
  attach_scores float_of_str r l target_package = Some scored ->
  (forall x, In x l' -> In x scored) ->
  attach_scores float_of_str r l' target_package = Some l'.
Proof.
  intros Hs H. apply attach_scores_inv in Hs. destruct Hs as [Hb ->].
  rewrite attach_scores_some.
  - f_equal. rewrite <- (map_id l') at 2. apply map_ext_in. intros x Hx.
    apply H in Hx. apply in_map_iff in Hx. destruct Hx as [p [<- _]]. reflexivity.
  - intros x Hx. apply H in Hx. apply in_map_iff in Hx. destruct Hx as [p [<- Hp]].
    exact (Hb p Hp).
Qed.


End RankingFacts.



(** The two-candidate scenario of the specification: stock mode puts the
    well-stocked candidate first, price mode the cheaper one. *)
Example two_candidates_ranked :
  option_map (map stock_of)
    (rank_parts_with_preference decimal_float default_ranker
       [candidate 5000 "$0.02"; candidate 50 "$0.01"] None "stock") = Some [5000%Z; 50%Z] /\
  option_map (map stock_of)
    (rank_parts_with_preference decimal_float default_ranker
       [candidate 5000 "$0.02"; candidate 50 "$0.01"] None "price") = Some [50%Z; 5000%Z].
Proof. split; vm_compute; reflexivity. Qed.

(** ** Stock mode *)

Lemma Qlt_bool_iff (a b : Q) : Qlt_bool a b = true <-> (a < b)%Q.
Proof.
  unfold Qlt_bool. rewrite negb_true_iff. split.
  - intros H. destruct (Qlt_le_dec a b) as [L|L]; [assumption|].
    apply Qle_bool_iff in L. congruence.
  - intros H. destruct (Qle_bool b a) eqn:E; [|reflexivity].
    apply Qle_bool_iff in E. lra.
Qed.

Lemma round_half_even_near (q : Q) :
  (- (1 # 2) <= inject_Z (round_half_even q) - q <= 1 # 2)%Q.
Proof.
  unfold round_half_even.
  pose proof (Qfloor_le q) as Hlo. pose proof (Qlt_floor q) as Hhi.
  rewrite inject_Z_plus in Hhi. change (inject_Z 1) with 1%Q in Hhi.
  set (f := Qfloor q) in *.
  destruct (Qlt_bool (q - inject_Z f) (1 # 2)) eqn:E1.
  - apply Qlt_bool_iff in E1. lra.
  - destruct (Qlt_bool (1 # 2) (q - inject_Z f)) eqn:E2.
    + apply Qlt_bool_iff in E2. rewrite inject_Z_plus.
      change (inject_Z 1) with 1%Q. lra.
    + assert (H1 : ~ (q - inject_Z f < 1 # 2)%Q)
        by (intros H; apply Qlt_bool_iff in H; congruence).
      assert (H2 : ~ ((1 # 2) < q - inject_Z f)%Q)
        by (intros H; apply Qlt_bool_iff in H; congruence).
      destruct (Z.even f); [lra|].
      rewrite inject_Z_plus. change (inject_Z 1) with 1%Q. lra.
Qed.

Lemma round2_near (q : Q) : (q - (1 # 200) <= round2 q <= q + (1 # 200))%Q.
Proof.
  unfold round2. pose proof (round_half_even_near (q * inject_Z 100)) as H.
  set (n := inject_Z (round_half_even (q * inject_Z 100))) in *.
  unfold Qdiv. change (/ inject_Z 100)%Q with (1 # 100)%Q.
  change (inject_Z 100) with (100 # 1)%Q in H. lra.
Qed.

Lemma score_stock_empty (p : mouser_part) :
  (stock_of p <= 0)%Z -> score_stock p = 0%Q.
Proof.
  intros H. unfold score_stock. destruct (Z.leb_spec (stock_of p) 0); [reflexivity | lia].
Qed.

Lemma score_stock_available (p : mouser_part) :
  (0 < stock_of p)%Z -> (20 <= score_stock p)%Q.
Proof.
  intros H. unfold score_stock.
  destruct (Z.leb_spec (stock_of p) 0); [lia|].
  destruct (Z.leb 10000 (stock_of p)); [lra|].
  destruct (Z.leb 1000 (stock_of p)); [lra|].
  destruct (Z.leb 100 (stock_of p)); [lra|].
  destruct (Z.leb 10 (stock_of p)); lra.
Qed.

Lemma stock_mode_total (s p l k : Q) :
  (stock_weight stock_mode_ranker * s + price_weight stock_mode_ranker * p
   + lifecycle_weight stock_mode_ranker * l + package_match_weight stock_mode_ranker * k
   == (6 # 10) * s + (2 # 10) * p + (1 # 10) * l + (1 # 10) * k)%Q.
Proof. unfold stock_mode_ranker. cbn. field. Qed.

Section StockModeFacts.

Variable float_of_str : string -> option pyfloat.

(** A ranked candidate carries the score that [calculate_score] returns for
    it, which is its weighted total rounded. *)
Lemma ranked_score (r : RankingEngine) (target_package : option string)
      (results ranked : list mouser_part) (a : mouser_part) :
  rank_parts float_of_str r results target_package = Some ranked ->
  In a ranked ->
  calculate_score float_of_str r a target_package = Some (score_of a) /\
  score_of a = round2 (total_score float_of_str r a target_package).
Proof.
  unfold rank_parts. intros Hr H.
  destruct (attach_scores float_of_str r results target_package) as [scored|] eqn:Hs;
    [|discriminate].
  injection Hr as <-.
  apply (Permutation_in _ (sorted_perm (fun p => (score_of p, stock_of p))
                                       lt_num_int true scored)) in H.
  apply attach_scores_inv in Hs. destruct Hs as [Hb ->].
  apply in_map_iff in H. destruct H as [p [<- Hp]].
  split; [|reflexivity]. apply calculate_score_some. exact (Hb p Hp).
Qed.

(** C6.  Stock mode ranks with the weights 0.6, 0.2, 0.1, 0.1, in descending
    order of the weighted score and, at equal score, of stock: whenever [a]
    stands before [b] in the ranked list, the score of [a] is at least that
    of [b], equal scores put the larger stock first, and if the two agree on
    the price, lifecycle and package sub-scores and [b] is in stock then [a]
    is in stock too, so a candidate without stock is never ahead of one with
    stock. *)
Theorem stock_mode_keeps_empty_stock_behind
  (ranker : RankingEngine) (target_package : option string)
  (results l1 l2 l3 : list mouser_part) (a b : mouser_part) :
  rank_parts_with_preference float_of_str ranker results target_package "stock" =
    Some (l1 ++ a :: l2 ++ b :: l3) ->
  (stock_weight stock_mode_ranker == 6 # 10)%Q /\
  (price_weight stock_mode_ranker == 2 # 10)%Q /\
  (lifecycle_weight stock_mode_ranker == 1 # 10)%Q /\
  (package_match_weight stock_mode_ranker == 1 # 10)%Q /\
  calculate_score float_of_str stock_mode_ranker a target_package = Some (score_of a) /\
  calculate_score float_of_str stock_mode_ranker b target_package = Some (score_of b) /\
  (score_of b <= score_of a)%Q /\
  ((score_of a == score_of b)%Q -> (stock_of b <= stock_of a)%Z) /\
  ((score_price float_of_str a == score_price float_of_str b)%Q ->
   (score_lifecycle a == score_lifecycle b)%Q ->
   (score_package_match a target_package == score_package_match b target_package)%Q ->
   (0 < stock_of b)%Z -> (0 < stock_of a)%Z).
Proof.
  unfold rank_parts_with_preference. cbn [mode_of String.eqb Ascii.eqb Bool.eqb].
  intros H.
  destruct (ranked_score stock_mode_ranker target_package results _ a H) as [Ha Ta'].
  { apply in_or_app. right. now left. }
  destruct (ranked_score stock_mode_ranker target_package results _ b H) as [Hb Tb'].
  { apply in_or_app. right. right. apply in_or_app. right. now left. }
  unfold rank_parts in H.
  destruct (attach_scores float_of_str stock_mode_ranker results target_package)
    as [scored|]; [|discriminate].
  injection H as H.
  apply (sorted_descending _ lt_num_int lt_num_int_asym lt_num_int_trans) in H.
  unfold lt_num_int in H. cbn [fst snd] in H.
  assert (Hord : (score_of b <= score_of a)%Q /\
                 ((score_of a == score_of b)%Q -> (stock_of b <= stock_of a)%Z)).
  { destruct (Qeq_bool (score_of a) (score_of b)) eqn:E.
    - apply Qeq_bool_iff in E. apply Z.ltb_ge in H. split; [lra | auto].
    - split.
      + destruct (Qlt_le_dec (score_of a) (score_of b)) as [L|L]; [|exact L].
        apply Qlt_bool_iff in L. congruence.
      + intros Heq. apply Qeq_bool_iff in Heq. congruence. }
  destruct Hord as [Hle Htie].
  repeat (split; [reflexivity|]). split; [exact Ha|]. split; [exact Hb|].
  split; [exact Hle|]. split; [exact Htie|].
  intros Hp Hl Hk Hsb.
  destruct (Z.ltb_spec 0 (stock_of a)) as [Hsa|Hsa]; [exact Hsa|]. exfalso.
  rewrite Ta', Tb' in Hle. unfold total_score in Hle.
  pose proof (stock_mode_total (score_stock a) (score_price float_of_str a)
                (score_lifecycle a) (score_package_match a target_package)) as Ta.
  pose proof (stock_mode_total (score_stock b) (score_price float_of_str b)
                (score_lifecycle b) (score_package_match b target_package)) as Tb.
  rewrite (score_stock_empty a Hsa) in *.
  pose proof (score_stock_available b Hsb) as Sb.
  match type of Hle with
  | (round2 ?tb <= round2 ?ta)%Q =>
      pose proof (round2_near ta) as Na; pose proof (round2_near tb) as Nb;
      set (xa := ta) in *; set (xb := tb) in *
  end.
  lra.
Qed.

End StockModeFacts.

Lemma stock_mode_keeps_empty_stock_behind_witness :
  rank_parts_with_preference decimal_float default_ranker empty_stock_candidates
                             None "stock" =
    Some ([] ++ nth 0 ranked_empty_stock na_part ::
          [] ++ nth 1 ranked_empty_stock na_part :: []) /\
  map stock_of ranked_empty_stock = [50%Z; 0%Z] /\
  (score_of (nth 1 ranked_empty_stock na_part) <= score_of (nth 0 ranked_empty_stock na_part))%Q.
Proof.
  assert (H : rank_parts_with_preference decimal_float default_ranker
                empty_stock_candidates None "stock" =
              Some ([] ++ nth 0 ranked_empty_stock na_part ::
                    [] ++ nth 1 ranked_empty_stock na_part :: []))
    by (vm_compute; reflexivity).
  split; [exact H|]. split; [vm_compute; reflexivity|].
  exact (proj1 (proj2 (proj2 (proj2 (proj2 (proj2 (proj2
            (stock_mode_keeps_empty_stock_behind decimal_float default_ranker None
               empty_stock_candidates [] [] []
               (nth 0 ranked_empty_stock na_part) (nth 1 ranked_empty_stock na_part) H)))))))).
Defined.

(* ================================================================== *)
(** * Further properties *)

(** ** Ranking engine *)

(** X1.  [packages_match] is symmetric in its two arguments. *)
Theorem packages_match_symmetric (package1 package2 : string) :
  packages_match package1 package2 = packages_match package2 package1.
Proof.
  unfold packages_match.
  rewrite (orb_comm (negb (truthy package1))).
  rewrite (String.eqb_sym (normalize_package package1)).
  rewrite (orb_comm (contains (normalize_package package1) (normalize_package package2))).
  reflexivity.
Qed.

Lemma score_stock_range (p : mouser_part) : (0 <= score_stock p <= 100)%Q.
Proof.
  unfold score_stock.
  destruct (Z.leb (stock_of p) 0); [lra|].
  destruct (Z.leb 10000 (stock_of p)); [lra|].
  destruct (Z.leb 1000 (stock_of p)); [lra|].
  destruct (Z.leb 100 (stock_of p)); [lra|].
  destruct (Z.leb 10 (stock_of p)); lra.
Qed.

Lemma score_lifecycle_range (p : mouser_part) : (0 <= score_lifecycle p <= 100)%Q.
Proof.
  unfold score_lifecycle.
  destruct (negb (truthy (upper (text_or_empty (mp_lifecycle p))))); [lra|].
  destruct (PyStr.mem _ ["ACTIVE"; "LIFEBUY"; "NEW"]); [lra|].
  destruct (PyStr.mem _ ["LAST TIME BUY"; "NOT RECOMMENDED FOR NEW DESIGNS"]); [lra|].
  destruct (PyStr.mem _ ["OBSOLETE"; "EOL"; "END OF LIFE"]); lra.
Qed.

Lemma score_package_match_range (p : mouser_part) (target_package : option string) :
  (0 <= score_package_match p target_package <= 100)%Q.
Proof.
  unfold score_package_match.
  destruct (negb (truthy (text_or_empty target_package))); [lra|].
  destruct (negb (truthy (text_or_empty (mp_package p)))); [lra|].
  destruct (packages_match _ _); lra.
Qed.

Lemma score_price_range (float_of_str : string -> option pyfloat) (p : mouser_part) :
  (0 <= score_price float_of_str p <= 100)%Q.
Proof.
  unfold score_price.
  destruct (mp_price_breaks p) as [[|pb rest]|]; try lra.
  destruct (min_price_of float_of_str (pb :: rest)) as [m|]; [|lra].
  destruct (fle m (Finite (1 # 100))); [lra|].
  destruct (fle m (Finite (1 # 10))); [lra|].
  destruct (fle m (Finite 1)); [lra|].
  destruct (fle m (Finite 10)); [lra|].
  destruct (fle m (Finite 50)); lra.
Qed.

Lemma round_half_even_bounds (q : Q) (lo hi : Z) :
  (inject_Z lo <= q <= inject_Z hi)%Q -> (lo <= round_half_even q <= hi)%Z.
Proof.
  intros [Hlo Hhi]. unfold round_half_even.
  pose proof (Qfloor_le q) as Fle. pose proof (Qlt_floor q) as Flt.
  assert (F1 : (lo <= Qfloor q)%Z).
  { apply Qfloor_resp_le in Hlo. now rewrite Qfloor_Z in Hlo. }
  assert (F2 : (Qfloor q <= hi)%Z).
  { apply Qfloor_resp_le in Hhi. now rewrite Qfloor_Z in Hhi. }
  set (f := Qfloor q) in *.
  assert (Hup : ~ (q - inject_Z f < 1 # 2)%Q -> (f + 1 <= hi)%Z).
  { intros Hr. destruct (Z.eq_dec f hi) as [E|E]; [|lia].
    exfalso. apply Hr. rewrite E. lra. }
  destruct (Qlt_bool (q - inject_Z f) (1 # 2)) eqn:E1; [lia|].
  assert (Hr : ~ (q - inject_Z f < 1 # 2)%Q)
    by (intros H; apply Qlt_bool_iff in H; congruence).
  specialize (Hup Hr).
  destruct (Qlt_bool (1 # 2) (q - inject_Z f)); [lia|].
  destruct (Z.even f); lia.
Qed.

Lemma round2_range (q : Q) : (0 <= q <= 100)%Q -> (0 <= round2 q <= 100)%Q.
Proof.
  intros H. unfold round2.
  destruct (round_half_even_bounds (q * inject_Z 100) 0 10000) as [L U].
  { change (inject_Z 100) with (100 # 1)%Q. change (inject_Z 0) with 0%Q.
    change (inject_Z 10000) with (10000 # 1)%Q. lra. }
  rewrite Zle_Qle in L, U.
  set (n := inject_Z (round_half_even (q * inject_Z 100))) in *.
  unfold Qdiv. change (/ inject_Z 100)%Q with (1 # 100)%Q.
  change (inject_Z 0) with 0%Q in L. change (inject_Z 10000) with (10000 # 1)%Q in U.
  lra.
Qed.

(** X3.  With non-negative weights that sum to one, [calculate_score]
    returns a score between 0 and 100 for every candidate and target package,
    except for a candidate whose list of price breaks is there and empty:
    for that one, and only for that one, it raises. *)
Theorem calculate_score_range
  (float_of_str : string -> option pyfloat) (r : RankingEngine)
  (p : mouser_part) (target_package : option string) :
  (0 <= stock_weight r)%Q -> (0 <= price_weight r)%Q ->
  (0 <= lifecycle_weight r)%Q -> (0 <= package_match_weight r)%Q ->
  (stock_weight r + price_weight r + lifecycle_weight r + package_match_weight r == 1)%Q ->
  (calculate_score float_of_str r p target_package = None <->
   mp_price_breaks p = Some []) /\
  (mp_price_breaks p <> Some [] ->
   exists score, calculate_score float_of_str r p target_package = Some score) /\
  (forall score,
     calculate_score float_of_str r p target_package = Some score ->
     (0 <= score <= 100)%Q).
Proof.
  intros Hs Hp Hl Hk Hsum.
  split; [apply calculate_score_none|].
  split; [intros H; eexists; now apply calculate_score_some|].
  intros score Hscore.
  assert (Hb : mp_price_breaks p <> Some []).
  { intros Hb. apply (calculate_score_none float_of_str r p target_package) in Hb.
    congruence. }
  rewrite (calculate_score_some float_of_str r p target_package Hb) in Hscore.
  injection Hscore as <-. apply round2_range. unfold total_score.
  pose proof (score_stock_range p) as [S1 S2].
  pose proof (score_price_range float_of_str p) as [P1 P2].
  pose proof (score_lifecycle_range p) as [L1 L2].
  pose proof (score_package_match_range p target_package) as [K1 K2].
  set (ss := score_stock p) in *. set (sp := score_price float_of_str p) in *.
  set (sl := score_lifecycle p) in *. set (sk := score_package_match p target_package) in *.
  set (ws := stock_weight r) in *. set (wp := price_weight r) in *.
  set (wl := lifecycle_weight r) in *. set (wk := package_match_weight r) in *.
  split; nra.
Qed.

Lemma calculate_score_range_witness :
  exists score,
    calculate_score decimal_float stock_mode_ranker (candidate 5000 "$0.02") None =
      Some score /\
    (0 <= score <= 100)%Q.
Proof.
  destruct (calculate_score_range decimal_float stock_mode_ranker
              (candidate 5000 "$0.02") None) as (_ & Hsome & Hrange);
    try (vm_compute; congruence).
  destruct Hsome as [score Hscore]; [discriminate|].
  exists score. split; [exact Hscore | exact (Hrange score Hscore)].
Defined.

(** X4.  The stock sub-score never decreases when the stock grows. *)
Theorem score_stock_monotone (p q : mouser_part) :
  (stock_of p <= stock_of q)%Z -> (score_stock p <= score_stock q)%Q.
Proof.
  intros H. unfold score_stock.
  destruct (Z.leb_spec (stock_of p) 0); destruct (Z.leb_spec (stock_of q) 0);
    destruct (Z.leb_spec 10000 (stock_of p)); destruct (Z.leb_spec 10000 (stock_of q));
    destruct (Z.leb_spec 1000 (stock_of p)); destruct (Z.leb_spec 1000 (stock_of q));
    destruct (Z.leb_spec 100 (stock_of p)); destruct (Z.leb_spec 100 (stock_of q));
    destruct (Z.leb_spec 10 (stock_of p)); destruct (Z.leb_spec 10 (stock_of q));
    try lia; lra.
Qed.

Lemma score_stock_monotone_witness :
  (stock_of (stock_only 50) <= stock_of (stock_only 5000))%Z /\
  (score_stock (stock_only 50) <= score_stock (stock_only 5000))%Q.
Proof.
  assert (H : (stock_of (stock_only 50) <= stock_of (stock_only 5000))%Z)
    by (vm_compute; congruence).
  split; [exact H | exact (score_stock_monotone _ _ H)].
Defined.

Lemma lt_num_int_false (sa sb : Q) (za zb : Z) :
  lt_num_int (sa, za) (sb, zb) = false ->
  (sb <= sa)%Q /\ ((sa == sb)%Q -> (zb <= za)%Z).
Proof.
  unfold lt_num_int. cbn [fst snd]. intros H.
  destruct (Qeq_bool sa sb) eqn:E.
  - apply Qeq_bool_iff in E. apply Z.ltb_ge in H. split; [lra | auto].
  - split.
    + destruct (Qlt_le_dec sa sb) as [L|L]; [|exact L].
      apply Qlt_bool_iff in L. congruence.
    + intros Heq. apply Qeq_bool_iff in Heq. congruence.
Qed.

Lemma sorted_descending_idempotent {A K : Type} (key : A -> K) (ltk : K -> K -> bool)
      (l : list A) :
  (forall a b, ltk a b = true -> ltk b a = false) ->
  (forall a b c, ltk b a = false -> ltk c b = false -> ltk c a = false) ->
  sorted key ltk true (sorted key ltk true l) = sorted key ltk true l.
Proof.
  intros Hasym Htrans. unfold sorted. rewrite rev_involutive.
  rewrite (stable_sort_idempotent (fun a b => ltk (key a) (key b))); [reflexivity | |].
  - intros a b. apply Hasym.
  - intros a b c. unfold not_after. apply Htrans.
Qed.

Section RankPartsFacts.

Variable float_of_str : string -> option pyfloat.

(** Ranking returns a list exactly when no candidate carries an empty list
    of price breaks. *)
Lemma rank_parts_none (r : RankingEngine) (parts : list mouser_part)
      (target_package : option string) :
  rank_parts float_of_str r parts target_package = None <->
  exists p, In p parts /\ mp_price_breaks p = Some [].
Proof.
  unfold rank_parts. rewrite <- (attach_scores_none float_of_str r target_package parts).
  destruct (attach_scores float_of_str r parts target_package); split;
    intros H; try reflexivity; discriminate.
Qed.

Lemma rank_parts_split (r : RankingEngine) (parts ranked : list mouser_part)
      (target_package : option string) (l1 l2 l3 : list mouser_part) (a b : mouser_part) :
  rank_parts float_of_str r parts target_package = Some ranked ->
  ranked = l1 ++ a :: l2 ++ b :: l3 ->
  (score_of b <= score_of a)%Q /\
  ((score_of a == score_of b)%Q -> (stock_of b <= stock_of a)%Z).
Proof.
  unfold rank_parts.
  destruct (attach_scores float_of_str r parts target_package) as [scored|];
    [|discriminate].
  intros [= <-] H.
  apply (sorted_descending _ lt_num_int lt_num_int_asym lt_num_int_trans) in H.
  now apply lt_num_int_false.
Qed.

Lemma rank_parts_returns (r : RankingEngine) (parts : list mouser_part)
      (target_package : option string) :
  (forall p, In p parts -> mp_price_breaks p <> Some []) ->
  exists ranked, rank_parts float_of_str r parts target_package = Some ranked.
Proof.
  intros H. unfold rank_parts.
  rewrite (attach_scores_some float_of_str r target_package parts H). eauto.
Qed.

Lemma rank_parts_length (r : RankingEngine) (parts ranked : list mouser_part)
      (target_package : option string) :
  rank_parts float_of_str r parts target_package = Some ranked ->
  length ranked = length parts.
Proof.
  unfold rank_parts.
  destruct (attach_scores float_of_str r parts target_package) as [scored|] eqn:Hs;
    [|discriminate].
  intros [= <-]. transitivity (length scored).
  - apply Permutation_length.
    exact (sorted_perm (fun p => (score_of p, stock_of p)) lt_num_int true scored).
  - apply attach_scores_inv in Hs. destruct Hs as [_ ->]. apply length_map.
Qed.

(** X5.  For any weights, [rank_parts] raises exactly when some candidate
    carries an empty list of price breaks; otherwise it returns the
    candidates with their scores attached, rearranged so that scores never
    increase down the list and equal scores come in order of decreasing
    stock, and ranking the ranked list again returns it unchanged. *)
Theorem rank_parts_orders_and_settles
  (r : RankingEngine) (parts : list mouser_part) (target_package : option string) :
  (rank_parts float_of_str r parts target_package = None <->
   exists p, In p parts /\ mp_price_breaks p = Some []) /\
  ((forall p, In p parts -> mp_price_breaks p <> Some []) ->
   exists ranked, rank_parts float_of_str r parts target_package = Some ranked) /\
  (forall ranked,
     rank_parts float_of_str r parts target_package = Some ranked ->
     (exists scored,
        attach_scores float_of_str r parts target_package = Some scored /\
        Permutation ranked scored) /\
     length ranked = length parts /\
     (forall l1 a l2 b l3,
        ranked = l1 ++ a :: l2 ++ b :: l3 ->
        (score_of b <= score_of a)%Q /\
        ((score_of a == score_of b)%Q -> (stock_of b <= stock_of a)%Z)) /\
     rank_parts float_of_str r ranked target_package = Some ranked).
Proof.
  split; [apply rank_parts_none|]. split; [apply rank_parts_returns|].
  intros ranked Hr. pose proof Hr as Hr'. unfold rank_parts in Hr.
  destruct (attach_scores float_of_str r parts target_package) as [scored|] eqn:Hs;
    [|discriminate].
  assert (Hr2 : ranked = sorted (fun p => (score_of p, stock_of p)) lt_num_int true scored)
    by (injection Hr as <-; reflexivity).
  clear Hr.
  assert (Hperm : Permutation ranked scored).
  { rewrite Hr2. apply sorted_perm. }
  split; [exists scored; split; [reflexivity | exact Hperm]|].
  split; [exact (rank_parts_length r parts ranked target_package Hr')|].
  split.
  { intros l1 a l2 b l3 H. exact (rank_parts_split r parts ranked target_package _ _ _ _ _ Hr' H). }
  unfold rank_parts.
  rewrite (attach_scores_fixed float_of_str r target_package parts scored ranked Hs).
  - f_equal. rewrite Hr2.
    apply sorted_descending_idempotent; [apply lt_num_int_asym | apply lt_num_int_trans].
  - intros x Hx. exact (Permutation_in _ Hperm Hx).
Qed.

(** X6.  For a limit that is not negative and candidates none of which
    carries an empty list of price breaks, [get_top_parts] returns the first
    [limit] entries of the ranking (all of them when there are fewer), and no
    candidate left out has a higher score than a candidate returned. *)
Theorem get_top_parts_best
  (r : RankingEngine) (parts : list mouser_part) (target_package : option string)
  (limit : Z) :
  (0 <= limit)%Z ->
  (forall p, In p parts -> mp_price_breaks p <> Some []) ->
  exists top rest,
    get_top_parts float_of_str r parts target_package limit = Some top /\
    length top = Nat.min (Z.to_nat limit) (length parts) /\
    rank_parts float_of_str r parts target_package = Some (top ++ rest) /\
    forall a b, In a top -> In b rest -> (score_of b <= score_of a)%Q.
Proof.
  intros Hlim Hbreaks.
  destruct (rank_parts_returns r parts target_package Hbreaks) as [ranked Hr].
  pose proof (rank_parts_length r parts ranked target_package Hr) as Hlen.
  unfold get_top_parts, py_slice_to. rewrite Hr.
  destruct (Z.leb_spec 0 limit) as [_|Hneg]; [|lia].
  set (n := Z.to_nat limit).
  exists (firstn n ranked), (skipn n ranked).
  split; [reflexivity|]. split; [rewrite length_firstn, Hlen; reflexivity|].
  split; [now rewrite firstn_skipn|].
  intros a b Ha Hb.
  destruct (in_split _ _ Ha) as [t1 [t2 Ht]].
  destruct (in_split _ _ Hb) as [r1 [r2 Hsk]].
  assert (Hsplit : ranked = t1 ++ a :: (t2 ++ r1) ++ b :: r2).
  { transitivity (firstn n ranked ++ skipn n ranked);
      [symmetry; apply firstn_skipn|].
    rewrite Ht, Hsk, <- !app_assoc. reflexivity. }
  exact (proj1 (rank_parts_split r parts ranked target_package _ _ _ _ _ Hr Hsplit)).
Qed.

End RankPartsFacts.

Lemma get_top_parts_best_witness :
  exists top rest,
    get_top_parts decimal_float default_ranker
      [candidate 50 "$0.01"; candidate 5000 "$0.02"] None 1 = Some top /\
    length top = 1 /\
    rank_parts decimal_float default_ranker
      [candidate 50 "$0.01"; candidate 5000 "$0.02"] None = Some (top ++ rest) /\
    map stock_of top = [5000%Z].
Proof.
  destruct (get_top_parts_best decimal_float default_ranker
              [candidate 50 "$0.01"; candidate 5000 "$0.02"] None 1)
    as (top & rest & Htop & Hlen & Hrank & _).
  - lia.
  - intros p [<-|[<-|[]]]; discriminate.
  - exists top, rest. split; [exact Htop|]. split; [exact Hlen|]. split; [exact Hrank|].
    vm_compute in Htop. injection Htop as <-. reflexivity.
Defined.

(** ** Search client *)

Lemma apply_filters_passes (parts : list mouser_part) (in_stock_only active_only : bool) :
  _apply_filters parts in_stock_only active_only =
  filter (passes in_stock_only active_only) parts.
Proof.
  unfold _apply_filters, passes. destruct in_stock_only, active_only; cbn [negb orb andb].
  - induction parts as [|p parts IH]; cbn [filter]; [reflexivity|].
    destruct (Z.ltb 0 (stock_of p)); cbn [filter andb]; [|exact IH].
    destruct (negb (PyStr.mem (lifecycle_upper p) inactive_statuses)); now rewrite IH.
  - apply filter_ext. intros p. now rewrite andb_true_r.
  - reflexivity.
  - induction parts as [|p parts IH]; cbn [filter]; [reflexivity|]. now rewrite <- IH.
Qed.

(** X7.  Filtering is a selection that keeps the order of the candidates,
    and filtering the filtered list again with the same switches changes
    nothing; with both switches off the list is returned as it is. *)
Theorem apply_filters_idempotent (parts : list mouser_part) (in_stock_only active_only : bool) :
  _apply_filters parts in_stock_only active_only =
    filter (passes in_stock_only active_only) parts /\
  _apply_filters (_apply_filters parts in_stock_only active_only) in_stock_only active_only =
    _apply_filters parts in_stock_only active_only /\
  _apply_filters parts false false = parts.
Proof.
  split; [apply apply_filters_passes|]. split; [|reflexivity].
  rewrite !apply_filters_passes.
  induction parts as [|p parts IH]; cbn [filter]; [reflexivity|].
  destruct (passes in_stock_only active_only p) eqn:E; cbn [filter]; [|exact IH].
  now rewrite E, IH.
Qed.

Section SearchFacts.

Variable search_by_mpn : string -> list mouser_part.
Variable search_keyword : string -> Z -> string -> list mouser_part.

(** X8.  Whatever the provider returns, every candidate that [search] hands
    back was returned by one of the two provider lookups and satisfies the
    filters that were requested: positive stock under [in_stock_only], and
    under [active_only] a lifecycle text that is not, up to letter case, one
    of the inactive statuses. *)
Theorem search_results_pass_filters
  (component : RawRow) (spec : dict string) (in_stock_only active_only : bool)
  (p : mouser_part) :
  In p (search search_by_mpn search_keyword component spec in_stock_only active_only) ->
  ((exists mpn, In p (search_by_mpn mpn)) \/
   (exists keyword options, In p (search_keyword keyword 50 options))) /\
  (in_stock_only = true -> (0 < stock_of p)%Z) /\
  (active_only = true ->
   existsb (ci_equal (text_or_empty (mp_lifecycle p))) inactive_statuses = false).
Proof.
  assert (Hpass : passes in_stock_only active_only p = true ->
                  (in_stock_only = true -> (0 < stock_of p)%Z) /\
                  (active_only = true ->
                   existsb (ci_equal (text_or_empty (mp_lifecycle p))) inactive_statuses = false)).
  { unfold passes. intros H. apply andb_prop in H. destruct H as [H1 H2]. split.
    - intros ->. cbn [negb orb] in H1. now apply Z.ltb_lt.
    - intros ->. cbn [negb orb] in H2. apply negb_true_iff in H2.
      unfold lifecycle_upper in H2. now rewrite mem_upper_inactive in H2. }
  unfold search. intros H.
  destruct (if truthy (if truthy (strip (get_default component "mpn" ""))
                       then strip (get_default component "mpn" "")
                       else strip (get_default spec "mpn" ""))
            then search_by_mpn (if truthy (strip (get_default component "mpn" ""))
                                then strip (get_default component "mpn" "")
                                else strip (get_default spec "mpn" ""))
            else []) as [|x xs] eqn:Hm.
  - destruct (Dict.get spec "keyword") as [keyword|]; [|contradiction].
    destruct (negb (truthy keyword)); [contradiction|].
    rewrite apply_filters_passes in H. apply filter_In in H. destruct H as [Hin Hp].
    split; [right; eauto | now apply Hpass].
  - rewrite apply_filters_passes in H. apply filter_In in H. destruct H as [Hin Hp].
    split; [|now apply Hpass]. left.
    destruct (truthy (if truthy (strip (get_default component "mpn" ""))
                      then strip (get_default component "mpn" "")
                      else strip (get_default spec "mpn" ""))); [|discriminate].
    rewrite <- Hm in Hin. eauto.
Qed.

End SearchFacts.

(** ** Consolidation: totals, counts, carried fields *)

Lemma sumZ_app (l1 l2 : list Z) : sumZ (l1 ++ l2) = (sumZ l1 + sumZ l2)%Z.
Proof. induction l1 as [|x l1 IH]; simpl; [reflexivity | rewrite IH; lia]. Qed.

Lemma sumZ_cons (x : Z) (l : list Z) : sumZ (x :: l) = (x + sumZ l)%Z.
Proof. reflexivity. Qed.

Lemma sumZ_filter_out (g : string -> Z) (k0 : string) (ks : list string) :
  NoDup ks ->
  sumZ (map g ks) =
  ((if PyStr.mem k0 ks then g k0 else 0)
   + sumZ (map g (filter (fun y => negb (String.eqb y k0)) ks)))%Z.
Proof.
  induction 1 as [|k ks Hk Hnd IH]; [reflexivity|].
  change (PyStr.mem k0 (k :: ks)) with (String.eqb k0 k || PyStr.mem k0 ks).
  cbn [map filter]. rewrite sumZ_cons, IH.
  destruct (String.eqb_spec k0 k) as [->|Hne].
  - rewrite String.eqb_refl. cbn [negb orb].
    apply mem_false_iff in Hk. rewrite Hk. lia.
  - rewrite (proj2 (String.eqb_neq k k0)) by congruence. cbn [negb orb map].
    rewrite sumZ_cons. lia.
Qed.

Lemma filter_key_absent (key : RawRow -> string) (k : string) (comps : list RawRow) :
  PyStr.mem k (map key comps) = false ->
  filter (fun c => String.eqb (key c) k) comps = [].
Proof.
  intros M. apply mem_false_iff in M.
  induction comps as [|c1 comps IH]; [reflexivity|]. cbn [filter].
  destruct (String.eqb_spec (key c1) k) as [E|E].
  - exfalso. apply M. left. exact E.
  - apply IH. intros H. apply M. now right.
Qed.

Lemma sum_by_key (f : RawRow -> Z) (key : RawRow -> string) (comps : list RawRow) :
  sumZ (map (fun k => sumZ (map f (filter (fun c => String.eqb (key c) k) comps)))
            (dedup (map key comps))) =
  sumZ (map f comps).
Proof.
  induction comps as [|c comps IH]; [reflexivity|].
  cbn [map dedup]. rewrite !sumZ_cons, <- IH.
  cbn [filter]. rewrite String.eqb_refl. cbn [map]. rewrite sumZ_cons.
  rewrite (sumZ_filter_out
             (fun k => sumZ (map f (filter (fun c0 => String.eqb (key c0) k) comps)))
             (key c) (dedup (map key comps)) (NoDup_dedup _)).
  rewrite mem_dedup.
  assert (Hrest :
    map (fun k => sumZ (map f (if String.eqb (key c) k
                               then c :: filter (fun c0 => String.eqb (key c0) k) comps
                               else filter (fun c0 => String.eqb (key c0) k) comps)))
        (filter (fun y => negb (String.eqb y (key c))) (dedup (map key comps))) =
    map (fun k => sumZ (map f (filter (fun c0 => String.eqb (key c0) k) comps)))
        (filter (fun y => negb (String.eqb y (key c))) (dedup (map key comps)))).
  { apply map_ext_in. intros k Hk. apply filter_In in Hk. destruct Hk as [_ Hk].
    rewrite String.eqb_sym. apply negb_true_iff in Hk. now rewrite Hk. }
  rewrite Hrest.
  destruct (PyStr.mem (key c) (map key comps)) eqn:M; [lia|].
  rewrite (filter_key_absent key (key c) comps M). cbn [map].
  change (sumZ []) with 0%Z. lia.
Qed.

(** X9.  Consolidation conserves the total: the quantities of all
    consolidated parts add up to the sum of the counted quantities of all
    input rows. *)
Theorem consolidation_conserves_total (row_hash : RawRow -> Z) (comps : list RawRow) :
  sumZ (map quantity (get_consolidated_parts row_hash comps)) =
  sumZ (map counted_quantity comps).
Proof.
  rewrite get_consolidated_parts_spec, map_map.
  rewrite <- (sum_by_key counted_quantity (group_key row_hash) comps).
  f_equal. apply map_ext. intros k.
  change (quantity (finalize (group_entry (rows_of_key row_hash k comps))))
    with (quantity (group_entry (rows_of_key row_hash k comps))).
  rewrite group_entry_quantity. unfold rows_of_key. f_equal.
  apply map_ext. apply row_contribution_counted.
Qed.

Lemma dedup_length (l : list string) : length (dedup l) <= length l.
Proof.
  induction l as [|x l IH]; simpl; [lia|].
  pose proof (filter_length_le (fun y => negb (String.eqb y x)) (dedup l)). lia.
Qed.

Lemma counted_quantity_positive (c : RawRow) : (1 <= counted_quantity c)%Z.
Proof.
  unfold counted_quantity. destruct (Dict.get c "quantity") as [s|]; [|lia].
  destruct (isdigit s); cbn [andb]; [|lia].
  destruct (Z.ltb_spec 0 (int_of_digits s)); lia.
Qed.

Lemma sumZ_at_least (f : RawRow -> Z) (rows : list RawRow) :
  (forall c, 1 <= f c)%Z -> (Z.of_nat (length rows) <= sumZ (map f rows))%Z.
Proof.
  intros H. induction rows as [|c rows IH]; [simpl; lia|].
  cbn [map sumZ fold_right length]. fold (sumZ (map f rows)).
  specialize (H c). lia.
Qed.

(** X10.  There is one consolidated part per distinct grouping key, so never
    more parts than rows and none for an empty input; and every part has a
    quantity of at least one. *)
Theorem consolidation_part_count (row_hash : RawRow -> Z) (comps : list RawRow) :
  length (get_consolidated_parts row_hash comps) =
    length (dedup (map (group_key row_hash) comps)) /\
  length (get_consolidated_parts row_hash comps) <= length comps /\
  (forall p, In p (get_consolidated_parts row_hash comps) -> (1 <= quantity p)%Z).
Proof.
  rewrite get_consolidated_parts_spec, length_map. split; [reflexivity|]. split.
  - pose proof (dedup_length (map (group_key row_hash) comps)) as H.
    now rewrite length_map in H.
  - intros p Hp. apply in_map_iff in Hp. destruct Hp as [k [<- Hk]].
    change (quantity (finalize (group_entry (rows_of_key row_hash k comps))))
      with (quantity (group_entry (rows_of_key row_hash k comps))).
    rewrite group_entry_quantity.
    apply (proj1 (In_dedup _ _)) in Hk.
    destruct (rows_of_key_cons row_hash k comps Hk) as [c [rest Hr]].
    rewrite Hr.
    pose proof (sumZ_at_least row_contribution (c :: rest)) as Hs.
    cbn [length] in Hs.
    assert (Hall : forall c0, (1 <= row_contribution c0)%Z).
    { intros c0. rewrite row_contribution_counted. apply counted_quantity_positive. }
    specialize (Hs Hall). lia.
Qed.

Lemma search_results_pass_filters_witness :
  In sample_candidate
     (search sample_by_mpn sample_by_keyword sample_row [("keyword", "10k 0603")] true true) /\
  (0 < stock_of sample_candidate)%Z.
Proof.
  assert (H : In sample_candidate
                (search sample_by_mpn sample_by_keyword sample_row
                        [("keyword", "10k 0603")] true true))
    by (vm_compute; left; reflexivity).
  split; [exact H|].
  exact (proj1 (proj2 (search_results_pass_filters sample_by_mpn sample_by_keyword
                         sample_row [("keyword", "10k 0603")] true true
                         sample_candidate H)) eq_refl).
Defined.

Lemma absorb_fold_carried (rows : list RawRow) (p0 : part) :
  carried_fields (fold_left absorb rows p0) = carried_fields p0.
Proof.
  revert p0. induction rows as [|c rows IH]; intros p0; cbn [fold_left]; [reflexivity|].
  rewrite IH. unfold absorb, carried_fields.
  now destruct (truthy (row_refdes c) && negb (PyStr.mem (row_refdes c) (refdes_list p0))).
Qed.

Lemma copy_extra_fold (l : list (string * string)) (acc : dict string) :
  NoDup (Dict.keys acc ++ Dict.keys l) ->
  fold_left
    (fun (e : dict string) (kv : string * string) =>
       let (k, v) := kv in
       if negb (PyStr.mem k literal_keys || Dict.mem e k) && negb (PyStr.mem k ["refdes"])
       then Dict.set e k v else e)
    l acc = acc ++ filter additional_column l.
Proof.
  revert acc. induction l as [|[k v] l IH]; intros acc Hnd; cbn [fold_left filter].
  - now rewrite app_nil_r.
  - assert (Hk : Dict.get acc k = None).
    { destruct (Dict.get acc k) as [v'|] eqn:E; [|reflexivity].
      apply get_In in E. exfalso.
      cbn [Dict.keys map fst] in Hnd. apply NoDup_remove_2 in Hnd. apply Hnd.
      apply in_or_app. left. unfold Dict.keys. apply in_map_iff. now exists (k, v'). }
    assert (Hm : Dict.mem acc k = false) by (unfold Dict.mem; now rewrite Hk).
    cbv beta iota. rewrite Hm, orb_false_r.
    unfold additional_column at 1. cbn [fst].
    change (PyStr.mem k ["refdes"]) with (String.eqb k "refdes" || false).
    rewrite orb_false_r.
    destruct (negb (PyStr.mem k literal_keys) && negb (String.eqb k "refdes")) eqn:C.
    + rewrite (DictFacts.set_absent _ _ _ Hk), IH.
      * now rewrite <- app_assoc.
      * unfold Dict.keys in *. rewrite map_app, <- app_assoc. exact Hnd.
    + apply IH. cbn [Dict.keys map fst] in Hnd. now apply NoDup_remove_1 in Hnd.
Qed.

(** X12.  For a row whose column names are distinct, the additional columns
    stored with a new part are exactly the row's columns other than the
    nine built-in keys and [refdes], unchanged and in column order. *)
Theorem copy_extra_keeps_other_columns (comp : RawRow) :
  NoDup (Dict.keys comp) ->
  copy_extra comp = filter additional_column comp.
Proof.
  intros H. unfold copy_extra. now rewrite (copy_extra_fold comp []).
Qed.

Lemma copy_extra_keeps_other_columns_witness :
  NoDup (Dict.keys sample_row) /\ copy_extra sample_row = [("Supplier", "ACME")].
Proof.
  assert (H : NoDup (Dict.keys sample_row)).
  { repeat constructor; cbn; intuition discriminate. }
  split; [exact H|].
  rewrite (copy_extra_keeps_other_columns sample_row H). reflexivity.
Defined.

(** X11.  The descriptive fields of a consolidated part are those of the
    first row of its group, whatever the later rows of the group hold: for
    the i-th distinct grouping key, the i-th part carries the stripped mpn,
    value and package of the first row with that key, its voltage,
    tolerance, power and description as they stand in the row (the empty
    text for a missing column), and, when the row's column names are
    distinct, as additional columns the row's other columns apart from
    [refdes] and [quantity]. *)
Theorem part_fields_from_first_row
  (row_hash : RawRow -> Z) (comps : list RawRow) (i : nat) (k : string) :
  nth_error (dedup (map (group_key row_hash) comps)) i = Some k ->
  exists first rest p,
    rows_of_key row_hash k comps = first :: rest /\
    nth_error (get_consolidated_parts row_hash comps) i = Some p /\
    mpn p = stripped_field first "mpn" /\
    value p = stripped_field first "value" /\
    package p = stripped_field first "package" /\
    voltage p = exact_field first "voltage" /\
    tolerance p = exact_field first "tolerance" /\
    power p = exact_field first "power" /\
    description p = exact_field first "description" /\
    (NoDup (Dict.keys first) -> extra p = filter additional_column first).
Proof.
  intros Hk.
  assert (Hin : In k (map (group_key row_hash) comps)).
  { apply In_dedup. eapply nth_error_In. exact Hk. }
  destruct (rows_of_key_cons row_hash k comps Hin) as [first [rest Hr]].
  exists first, rest, (finalize (group_entry (rows_of_key row_hash k comps))).
  split; [exact Hr|]. split.
  { rewrite get_consolidated_parts_spec.
    exact (map_nth_error
             (fun k0 => finalize (group_entry (rows_of_key row_hash k0 comps))) i _ Hk). }
  assert (Hc : carried_fields (finalize (group_entry (rows_of_key row_hash k comps))) =
               carried_fields (new_part first)).
  { rewrite Hr. unfold group_entry.
    change (carried_fields (finalize (fold_left absorb (first :: rest) (new_part first))))
      with (carried_fields (fold_left absorb (first :: rest) (new_part first))).
    apply absorb_fold_carried. }
  set (p := finalize (group_entry (rows_of_key row_hash k comps))) in *.
  assert (E : forall (T : Type)
                     (g : string * string * string * string * string * string * string
                          * dict string -> T),
             g (carried_fields p) = g (carried_fields (new_part first)))
    by (intros T g; now rewrite Hc).
  split; [exact (E _ (fun t => fst (fst (fst (fst (fst (fst (fst t))))))))|].
  split; [exact (E _ (fun t => snd (fst (fst (fst (fst (fst (fst t))))))))|].
  split; [exact (E _ (fun t => snd (fst (fst (fst (fst (fst t)))))))|].
  split; [exact (E _ (fun t => snd (fst (fst (fst (fst t))))))|].
  split; [exact (E _ (fun t => snd (fst (fst (fst t)))))|].
  split; [exact (E _ (fun t => snd (fst (fst t))))|].
  split; [exact (E _ (fun t => snd (fst t)))|].
  intros Hnd. rewrite (E _ (fun t => snd t) : extra p = extra (new_part first)).
  cbn [extra new_part]. unfold copy_extra.
  now rewrite (copy_extra_fold first []).
Qed.

Lemma part_fields_from_first_row_witness :
  exists first rest p,
    rows_of_key no_hash "mpn:R1-103" two_voltage_rows = first :: rest /\
    nth_error (get_consolidated_parts no_hash two_voltage_rows) 0 = Some p /\
    mpn p = "R1-103" /\ voltage p = "50V" /\ extra p = [("Supplier", "ACME")].
Proof.
  destruct (part_fields_from_first_row no_hash two_voltage_rows 0 "mpn:R1-103" eq_refl)
    as (first & rest & p & Hr & Hp & Hmpn & _ & _ & Hv & _ & _ & _ & Hx).
  exists first, rest, p. split; [exact Hr|]. split; [exact Hp|].
  vm_compute in Hr. injection Hr as <- _.
  split; [exact Hmpn|]. split; [exact Hv|].
  rewrite Hx; [reflexivity|].
  repeat constructor; cbn; intuition discriminate.
Defined.


(** ** Reading the data rows: what a record holds and which rows are kept *)

Lemma fill_component_fold (hs : list string) (texts : list string) (s : nat)
      (acc : RawRow) :
  NoDup (Dict.keys acc ++ hs) ->
  fold_left
    (fun (component : RawRow) (ih : nat * string) =>
       match nth_error texts (fst ih) with
       | Some v => Dict.set component (snd ih) v
       | None => component
       end)
    (combine (seq s (length hs)) hs) acc =
  acc ++ combine hs (skipn s texts).
Proof.
  revert s acc. induction hs as [|h hs IH]; intros s acc Hnd; cbn [length seq combine fold_left].
  - now rewrite app_nil_r.
  - cbn [fst snd].
    assert (Hh : Dict.get acc h = None).
    { destruct (Dict.get acc h) as [v'|] eqn:E; [|reflexivity].
      apply get_In in E. exfalso. apply NoDup_remove_2 in Hnd. apply Hnd.
      apply in_or_app. left. unfold Dict.keys. apply in_map_iff. now exists (h, v'). }
    destruct (nth_error texts s) as [v|] eqn:E.
    + rewrite (DictFacts.set_absent _ _ _ Hh), IH.
      * rewrite <- app_assoc. cbn [app]. f_equal.
        clear - E. revert s E. induction texts as [|t texts IHt]; intros [|s] E;
          cbn in *; try discriminate.
        -- injection E as ->. reflexivity.
        -- now apply IHt.
      * unfold Dict.keys in *. rewrite map_app, <- app_assoc. exact Hnd.
    + rewrite IH by (now apply NoDup_remove_1 in Hnd).
      apply nth_error_None in E.
      rewrite (skipn_all2 texts) by lia. rewrite (skipn_all2 texts) by exact E.
      destruct hs; reflexivity.
Qed.

(** X14.  With distinct headers, the record built for a row pairs each
    header with the cell in its column, in column order: cells beyond the
    last header are ignored and headers beyond the last cell get no entry. *)
Theorem fill_component_pairs_columns (headers texts : list string) :
  NoDup headers ->
  fill_component headers texts = combine headers texts /\
  length (fill_component headers texts) = Nat.min (length headers) (length texts).
Proof.
  intros H.
  assert (E : fill_component headers texts = combine headers texts).
  { unfold fill_component, enumerate. now rewrite (fill_component_fold headers texts 0 []). }
  split; [exact E|]. rewrite E. apply length_combine.
Qed.

Lemma fill_component_pairs_columns_witness :
  NoDup ["refdes"; "mpn"] /\
  fill_component ["refdes"; "mpn"] ["R1"; "R1-103"; "spare"] =
  [("refdes", "R1"); ("mpn", "R1-103")].
Proof.
  assert (H : NoDup ["refdes"; "mpn"]).
  { repeat constructor; cbn; intuition discriminate. }
  split; [exact H|].
  rewrite (proj1 (fill_component_pairs_columns ["refdes"; "mpn"] ["R1"; "R1-103"; "spare"] H)).
  reflexivity.
Defined.

Lemma strip_empty_cell (c : string) : truthy (strip c) = true -> truthy c = true.
Proof. destruct c; [discriminate | reflexivity]. Qed.

Lemma has_data_iff (component : RawRow) :
  has_data component = true <-> exists h v, In (h, v) component /\ truthy v = true.
Proof.
  unfold has_data. split.
  - destruct component as [|kv component]; [discriminate|]. intros E.
    apply existsb_exists in E. destruct E as [v [Hv Ht]].
    unfold Dict.values in Hv. apply in_map_iff in Hv. destruct Hv as [[h v'] [E Hin]].
    cbn in E. subst v'. eauto.
  - intros [h [v [Hin Ht]]]. destruct component as [|kv component]; [contradiction|].
    apply existsb_exists. exists v. split; [|exact Ht].
    unfold Dict.values. apply in_map_iff. now exists (h, v).
Qed.

(** X15.  With distinct headers, a csv row yields a record exactly when some
    cell that lies under a header is not blank after stripping, and the
    record is then the headers paired with the stripped cells; a row whose
    only data sits in columns without a header is dropped. *)
Theorem csv_row_kept_iff (headers row : list string) (comp : RawRow) :
  NoDup headers ->
  (csv_row headers row = Some comp <->
   comp = combine headers (map strip row) /\
   exists h v, In (h, v) comp /\ truthy v = true).
Proof.
  intros H. unfold csv_row.
  rewrite (proj1 (fill_component_pairs_columns headers (map strip row) H)).
  set (record := combine headers (map strip row)).
  pose proof (has_data_iff record) as Hdata.
  assert (Hany : (exists h v, In (h, v) record /\ truthy v = true) ->
                 existsb truthy row = true).
  { intros [h [v [Hin Ht]]]. unfold record in Hin. apply in_combine_r in Hin.
    apply in_map_iff in Hin. destruct Hin as [c [<- Hc]].
    apply existsb_exists. exists c. split; [exact Hc | now apply strip_empty_cell]. }
  split.
  - destruct (negb (existsb truthy row)); [discriminate|].
    destruct (has_data record) eqn:D; [|discriminate].
    intros E. injection E as <-. split; [reflexivity | now apply Hdata].
  - intros [-> Hex]. rewrite (Hany Hex). cbn [negb].
    now rewrite (proj2 Hdata Hex).
Qed.

Lemma csv_row_kept_iff_witness :
  NoDup ["refdes"; "mpn"] /\
  csv_row ["refdes"; "mpn"] [" R1 "; ""; "note"] = Some [("refdes", "R1"); ("mpn", "")] /\
  csv_row ["refdes"; "mpn"] [" "; ""; "note"] = None.
Proof.
  assert (H : NoDup ["refdes"; "mpn"]).
  { repeat constructor; cbn; intuition discriminate. }
  split; [exact H|]. split; [|reflexivity].
  apply (proj2 (csv_row_kept_iff ["refdes"; "mpn"] [" R1 "; ""; "note"] _ H)).
  split; [reflexivity|]. exists "refdes", "R1". split; [left; reflexivity | reflexivity].
Defined.

(** ** Part keys and the key index *)

Lemma to_int_not_nil (z : Z) : Z.to_int z <> Decimal.Pos Decimal.Nil /\
                               Z.to_int z <> Decimal.Neg Decimal.Nil.
Proof.
  destruct z as [|p|p]; cbn; split; try discriminate.
  - intros H. injection H as H. exact (DecimalPos.Unsigned.to_uint_nonnil p H).
  - intros H. injection H as H. exact (DecimalPos.Unsigned.to_uint_nonnil p H).
Qed.

Lemma str_of_Z_inj (a b : Z) : str_of_Z a = str_of_Z b -> a = b.
Proof.
  unfold str_of_Z. intros H. apply DecimalZ.to_int_inj.
  destruct (to_int_not_nil a) as [A1 A2]. destruct (to_int_not_nil b) as [B1 B2].
  pose proof (DecimalString.NilZero.isi (Z.to_int a) A1 A2) as Ia.
  pose proof (DecimalString.NilZero.isi (Z.to_int b) B1 B2) as Ib.
  rewrite H in Ia. rewrite Ia in Ib. now injection Ib.
Qed.

Lemma generate_part_key_inj (i j : nat) :
  _generate_part_key i = _generate_part_key j -> i = j.
Proof.
  unfold _generate_part_key, str_of_nat. cbn [String.append]. intros H.
  injection H as H. apply str_of_Z_inj in H. lia.
Qed.

Lemma build_index_fold (parts : list part) (s : nat) (acc : dict nat) (k : string) :
  Dict.get
    (fold_left (fun (m : dict nat) (ip : nat * part) =>
                  Dict.set m (_generate_part_key (fst ip)) (fst ip))
               (combine (seq s (length parts)) parts) acc) k =
  match find (fun i => String.eqb k (_generate_part_key i)) (seq s (length parts)) with
  | Some i => Some i
  | None => Dict.get acc k
  end.
Proof.
  revert s acc. induction parts as [|p parts IH]; intros s acc;
    cbn [length seq combine fold_left find]; [reflexivity|].
  rewrite IH. cbn [fst].
  destruct (find (fun i => String.eqb k (_generate_part_key i)) (seq (S s) (length parts)))
    as [i|] eqn:F.
  - apply find_some in F. destruct F as [Hin E]. apply String.eqb_eq in E. subst k.
    destruct (String.eqb_spec (_generate_part_key i) (_generate_part_key s)) as [E|E];
      [|reflexivity].
    apply generate_part_key_inj in E. subst i. apply in_seq in Hin. lia.
  - destruct (String.eqb_spec k (_generate_part_key s)) as [->|E].
    + apply DictFacts.get_set_same.
    + apply DictFacts.get_set_other. congruence.
Qed.

Lemma build_index_lookup (parts : list part) (i : nat) :
  Dict.get (build_part_key_to_index parts) (_generate_part_key i) =
  if Nat.ltb i (length parts) then Some i else None.
Proof.
  unfold build_part_key_to_index, enumerate. rewrite build_index_fold.
  destruct (find _ (seq 0 (length parts))) as [j|] eqn:F.
  - apply find_some in F. destruct F as [Hin E]. apply String.eqb_eq in E.
    apply generate_part_key_inj in E. subst j. apply in_seq in Hin.
    destruct (Nat.ltb_spec i (length parts)); [reflexivity | lia].
  - destruct (Nat.ltb_spec i (length parts)) as [L|L]; [|reflexivity].
    exfalso. pose proof (find_none _ _ F i) as N. cbv beta in N.
    rewrite String.eqb_refl in N. discriminate N. apply in_seq. lia.
Qed.

Lemma build_index_only_part_keys (parts : list part) (k : string) (i : nat) :
  Dict.get (build_part_key_to_index parts) k = Some i ->
  k = _generate_part_key i /\ i < length parts.
Proof.
  unfold build_part_key_to_index, enumerate. rewrite build_index_fold.
  destruct (find _ (seq 0 (length parts))) as [j|] eqn:F; [|discriminate].
  intros E. injection E as ->. apply find_some in F. destruct F as [Hin E].
  apply String.eqb_eq in E. apply in_seq in Hin. split; [exact E | lia].
Qed.

(** X16.  In a session whose key index was built from its part list, the
    key ["part_" + i] leads to the i-th consolidated part when [i] is within
    the list and to nothing otherwise, distinct indices have distinct keys,
    and a key that is not of that form finds nothing. *)
Theorem part_key_lookup (a : App) :
  part_key_to_index a = build_part_key_to_index (consolidated_parts a) ->
  (forall i, _get_part_by_key a (_generate_part_key i) = nth_error (consolidated_parts a) i) /\
  (forall i j, _generate_part_key i = _generate_part_key j -> i = j) /\
  (forall k p, _get_part_by_key a k = Some p ->
               exists i, k = _generate_part_key i /\ nth_error (consolidated_parts a) i = Some p).
Proof.
  intros H. split; [|split].
  - intros i. unfold _get_part_by_key. rewrite H, build_index_lookup.
    destruct (Nat.ltb_spec i (length (consolidated_parts a))) as [L|L].
    + apply Nat.ltb_lt in L. now rewrite L.
    + symmetry. now apply nth_error_None.
  - apply generate_part_key_inj.
  - intros k p. unfold _get_part_by_key. rewrite H.
    destruct (Dict.get (build_part_key_to_index (consolidated_parts a)) k) as [i|] eqn:E;
      [|discriminate].
    apply build_index_only_part_keys in E. destruct E as [-> L].
    destruct (Nat.ltb i (length (consolidated_parts a))); [|discriminate].
    intros Hp. now exists i.
Qed.

Lemma part_key_lookup_witness :
  part_key_to_index two_part_session =
    build_part_key_to_index (consolidated_parts two_part_session) /\
  option_map mpn (_get_part_by_key two_part_session "part_1") = Some "C2-104".
Proof.
  assert (H : part_key_to_index two_part_session =
              build_part_key_to_index (consolidated_parts two_part_session))
    by reflexivity.
  split; [exact H|].
  change "part_1" with (_generate_part_key 1).
  rewrite (proj1 (part_key_lookup two_part_session H) 1). reflexivity.
Defined.

(** ** Checkbox toggles *)

Lemma get_default_set_same {V : Type} (d : dict V) (k : string) (v dflt : V) :
  Dict.get_default (Dict.set d k v) k dflt = v.
Proof. unfold Dict.get_default. now rewrite DictFacts.get_set_same. Qed.

Lemma get_default_set_other {V : Type} (d : dict V) (k k' : string) (v dflt : V) :
  k <> k' -> Dict.get_default (Dict.set d k v) k' dflt = Dict.get_default d k' dflt.
Proof. intros H. unfold Dict.get_default. now rewrite DictFacts.get_set_other. Qed.

Lemma checked_parts_ext (a b : App) :
  selected_parts a = selected_parts b ->
  (forall k, Dict.get_default (part_selected a) k false =
             Dict.get_default (part_selected b) k false) ->
  checked_parts a = checked_parts b.
Proof.
  intros Hs Hf. unfold checked_parts. rewrite Hs. apply filter_ext.
  intros kv. apply Hf.
Qed.

Lemma build_row_ext (a b : App) (entry : string * mouser_part) :
  consolidated_parts a = consolidated_parts b ->
  part_key_to_index a = part_key_to_index b ->
  build_row a entry = build_row b entry.
Proof.
  intros Hp Hi. unfold build_row, _get_part_by_key. destruct entry as [k c].
  now rewrite Hp, Hi.
Qed.

(** X17.  Toggling a checkbox flips that part's flag and nothing else: the
    selections stay as they are and other parts keep their flags.
    Unchecking a checked part removes exactly its records from the export
    while its confirmed choice is kept, and toggling twice gives the same
    export as before. *)
Theorem toggle_controls_export (a : App) (part_key : string) :
  let a1 := toggle_checked a part_key in
  selected_parts a1 = selected_parts a /\
  Dict.get_default (part_selected a1) part_key false =
    negb (Dict.get_default (part_selected a) part_key false) /\
  (forall k, k <> part_key ->
             Dict.get (part_selected a1) k = Dict.get (part_selected a) k) /\
  (Dict.get_default (part_selected a) part_key false = true ->
   checked_parts a1 =
   filter (fun kv => negb (String.eqb (fst kv) part_key)) (checked_parts a)) /\
  get_export_data (toggle_checked a1 part_key) = get_export_data a.
Proof.
  cbn zeta. unfold toggle_checked.
  split; [reflexivity|]. split; [apply get_default_set_same|]. split.
  { intros k Hk. apply DictFacts.get_set_other. congruence. }
  split.
  - intros Hc. unfold checked_parts. cbn [part_selected selected_parts set_part_selected].
    rewrite Hc. cbn [negb].
    induction (selected_parts a) as [|[k c] l IH]; [reflexivity|]. cbn [filter fst].
    destruct (String.eqb_spec k part_key) as [->|Hne].
    + rewrite get_default_set_same, Hc. cbn [filter fst]. rewrite String.eqb_refl.
      cbn [negb]. exact IH.
    + rewrite get_default_set_other by congruence.
      destruct (Dict.get_default (part_selected a) k false); [|exact IH].
      cbn [filter fst]. rewrite (proj2 (String.eqb_neq k part_key) Hne).
      cbn [negb]. now rewrite IH.
  - rewrite !get_export_data_rows.
    rewrite (checked_parts_ext
               (set_part_selected
                  (set_part_selected a
                     (Dict.set (part_selected a) part_key
                        (negb (Dict.get_default (part_selected a) part_key false))))
                  (Dict.set
                     (part_selected
                        (set_part_selected a
                           (Dict.set (part_selected a) part_key
                              (negb (Dict.get_default (part_selected a) part_key false)))))
                     part_key
                     (negb
                        (Dict.get_default
                           (part_selected
                              (set_part_selected a
                                 (Dict.set (part_selected a) part_key
                                    (negb (Dict.get_default (part_selected a) part_key false)))))
                           part_key false)))) a).
    + apply map_ext. intros entry. now apply build_row_ext.
    + reflexivity.
    + intros k. cbn [part_selected set_part_selected].
      destruct (String.eqb_spec part_key k) as [<-|Hne].
      * rewrite !get_default_set_same. apply negb_involutive.
      * now rewrite !get_default_set_other by exact Hne.
Qed.

(** ** Batch review cursor *)

Lemma review_step_cursor (a : App) (st : review_step) :
  cursor_in_range a ->
  cursor_in_range (review a st) /\ batch_part_keys (review a st) = batch_part_keys a.
Proof.
  unfold cursor_in_range. intros H. destruct st as [| | |k radio]; cbn [review].
  - unfold go_to_previous_part. destruct (Z.ltb_spec 0 (current_batch_index a));
      cbn [current_batch_index batch_part_keys set_current_batch_index];
      split; try reflexivity; lia.
  - unfold go_to_next_part.
    destruct (Z.ltb_spec (current_batch_index a) (Z.of_nat (length (batch_part_keys a)) - 1));
      cbn [current_batch_index batch_part_keys set_current_batch_index];
      split; try reflexivity; lia.
  - unfold confirm_and_advance.
    destruct (Z.ltb_spec (current_batch_index a) (Z.of_nat (length (batch_part_keys a)) - 1));
      cbn [current_batch_index batch_part_keys set_current_batch_index];
      split; try reflexivity; lia.
  - unfold confirm_selected_part. destruct radio as [v|]; [|split; [exact H | reflexivity]].
    destruct (negb (truthy v)); [split; [exact H | reflexivity]|].
    destruct (chosen_part a k v) as [c|]; [|split; [exact H | reflexivity]].
    unfold can_advance, confirm_part_selection.
    cbn [batch_part_keys current_batch_index set_part_selected set_selected_parts].
    destruct (batch_part_keys a) as [|k0 ks] eqn:B;
      [cbn [batch_part_keys current_batch_index set_part_selected set_selected_parts];
       rewrite B; split; [exact H | reflexivity]|].
    destruct (Z.ltb_spec (current_batch_index a) (Z.of_nat (length (k0 :: ks)) - 1));
      cbn [current_batch_index batch_part_keys set_current_batch_index
           set_part_selected set_selected_parts];
      rewrite B; split; try reflexivity; lia.
Qed.

(** X18.  During a batch review the cursor never leaves the batch: from a
    cursor in range, any sequence of Previous, Next, advance and confirm
    steps leaves the cursor in range and the batch key list unchanged; and
    Previous undoes a Next that moved. *)
Theorem review_keeps_cursor_in_range (a : App) (steps : list review_step) :
  cursor_in_range a ->
  cursor_in_range (fold_left review steps a) /\
  batch_part_keys (fold_left review steps a) = batch_part_keys a /\
  ((current_batch_index a < Z.of_nat (length (batch_part_keys a)) - 1)%Z ->
   current_batch_index (go_to_previous_part (go_to_next_part a)) = current_batch_index a).
Proof.
  intros H. split; [|split].
  - revert a H. induction steps as [|st steps IH]; intros a H; [exact H|].
    cbn [fold_left]. apply IH. now apply review_step_cursor.
  - revert a H. induction steps as [|st steps IH]; intros a H; [reflexivity|].
    cbn [fold_left]. destruct (review_step_cursor a st H) as [H1 H2].
    rewrite (IH _ H1). exact H2.
  - intros Hlt. unfold go_to_next_part. apply Z.ltb_lt in Hlt. rewrite Hlt.
    unfold go_to_previous_part. cbn [current_batch_index set_current_batch_index].
    unfold cursor_in_range in H.
    destruct (Z.ltb_spec 0 (current_batch_index a + 1));
      cbn [current_batch_index set_current_batch_index]; lia.
Qed.

Lemma review_keeps_cursor_in_range_witness :
  cursor_in_range (display_batch_results two_part_session
                     [("part_0", []); ("part_1", [])]) /\
  cursor_in_range
    (fold_left review [Next; Next; Next; Previous]
       (display_batch_results two_part_session [("part_0", []); ("part_1", [])])).
Proof.
  assert (H : cursor_in_range (display_batch_results two_part_session
                                 [("part_0", []); ("part_1", [])]))
    by (unfold cursor_in_range; cbn; lia).
  split; [exact H|].
  exact (proj1 (review_keeps_cursor_in_range _ [Next; Next; Next; Previous] H)).
Defined.

(** ** Paging through the results *)

Lemma one_press (results : dict (list mouser_part)) (cursors : dict nat)
      (part_key : string) :
  let all_results := Dict.get_default results part_key [] in
  let c := Dict.get_default cursors part_key 0 in
  c <= length all_results ->
  Dict.get_default (fst (get_more_parts_for_key results cursors part_key)) part_key 0 =
    Nat.min (c + 3) (length all_results) /\
  snd (get_more_parts_for_key results cursors part_key) =
    (if Nat.ltb c (length all_results)
     then Some (firstn (Nat.min (c + 3) (length all_results)) all_results)
     else None) /\
  (forall k, k <> part_key ->
             Dict.get (fst (get_more_parts_for_key results cursors part_key)) k =
             Dict.get cursors k).
Proof.
  cbn zeta. intros Hc. unfold get_more_parts_for_key.
  set (all_results := Dict.get_default results part_key []) in *.
  set (c := Dict.get_default cursors part_key 0) in *.
  assert (Hlen : length (firstn 3 (skipn c all_results)) = Nat.min 3 (length all_results - c)).
  { now rewrite length_firstn, length_skipn. }
  destruct (firstn 3 (skipn c all_results)) as [|x xs] eqn:E.
  - cbn [length] in Hlen. cbn [fst snd]. fold c.
    assert (c = length all_results) by lia.
    destruct (Nat.ltb_spec c (length all_results)); [lia|].
    split; [lia|]. split; reflexivity.
  - cbn [fst snd]. rewrite get_default_set_same.
    destruct (Nat.ltb_spec c (length all_results)) as [L|L]; [|cbn [length] in Hlen; lia].
    assert (c + length (x :: xs) = Nat.min (c + 3) (length all_results)) as -> by lia.
    split; [reflexivity|]. split; [reflexivity|].
    intros k Hk. apply DictFacts.get_set_other. congruence.
Qed.

(** X19.  "Get More Parts" reveals the results three at a time: starting
    from a cursor at 0, after [n] presses the cursor of the part stands at
    [min (3 n) (number of results)], never beyond the end; the next press
    displays the results up to the new cursor, or nothing once all are shown;
    cursors of other parts are not touched. *)
Theorem more_presses_reveal_three (results : dict (list mouser_part))
        (cursors : dict nat) (part_key : string) (n : nat) :
  Dict.get_default cursors part_key 0 = 0 ->
  let all_results := Dict.get_default results part_key [] in
  let after := more_presses results cursors part_key n in
  Dict.get_default after part_key 0 = Nat.min (3 * n) (length all_results) /\
  snd (get_more_parts_for_key results after part_key) =
    (if Nat.ltb (3 * n) (length all_results)
     then Some (firstn (Nat.min (3 * n + 3) (length all_results)) all_results)
     else None) /\
  (forall k, k <> part_key -> Dict.get after k = Dict.get cursors k).
Proof.
  intros H0. cbn zeta.
  assert (Hgen : forall m cs,
            Dict.get_default cs part_key 0 <= length (Dict.get_default results part_key []) ->
            Dict.get_default (more_presses results cs part_key m) part_key 0 =
              Nat.min (Dict.get_default cs part_key 0 + 3 * m)
                      (length (Dict.get_default results part_key [])) /\
            (forall k, k <> part_key ->
                       Dict.get (more_presses results cs part_key m) k = Dict.get cs k)).
  { induction m as [|m IH]; intros cs Hcs; cbn [more_presses].
    - split; [lia | reflexivity].
    - destruct (one_press results cs part_key Hcs) as [P1 [_ P3]].
      destruct (IH (fst (get_more_parts_for_key results cs part_key))) as [I1 I2];
        [rewrite P1; lia|].
      split; [rewrite I1, P1; lia|].
      intros k Hk. rewrite (I2 k Hk). now apply P3. }
  destruct (Hgen n cursors) as [G1 G2]; [rewrite H0; lia|].
  rewrite H0 in G1. cbn [Nat.add] in G1.
  split; [exact G1|]. split; [|exact G2].
  destruct (one_press results (more_presses results cursors part_key n) part_key)
    as [_ [P2 _]]; [rewrite G1; lia|].
  rewrite P2, G1.
  destruct (Nat.ltb_spec (3 * n) (length (Dict.get_default results part_key [])));
    destruct (Nat.ltb_spec (Nat.min (3 * n) (length (Dict.get_default results part_key [])))
                           (length (Dict.get_default results part_key []))); try lia.
  - do 2 f_equal. lia.
  - reflexivity.
Qed.

Lemma more_presses_reveal_three_witness :
  Dict.get_default ([] : dict nat) "part_0" 0 = 0 /\
  Dict.get_default
    (more_presses [("part_0", [stock_only 1; stock_only 2; stock_only 3; stock_only 4])]
                  [] "part_0" 2) "part_0" 0 = 4.
Proof.
  assert (H : Dict.get_default ([] : dict nat) "part_0" 0 = 0) by reflexivity.
  split; [exact H|].
  exact (proj1 (more_presses_reveal_three
                  [("part_0", [stock_only 1; stock_only 2; stock_only 3; stock_only 4])]
                  [] "part_0" 2 H)).
Defined.

(** ** Opening a BOM, exporting, restoring *)

Lemma mem_get_eq {V : Type} (d d' : dict V) (k : string) :
  Dict.get d k = Dict.get d' k -> Dict.mem d k = Dict.mem d' k.
Proof. intros H. unfold Dict.mem. now rewrite H. Qed.

Lemma boxes_fold (parts : list part) (s : nat) (acc : dict bool) :
  let result :=
    fold_left (fun (d : dict bool) (ip : nat * part) =>
                 let part_key := _generate_part_key (fst ip) in
                 if Dict.mem d part_key then d else Dict.set d part_key false)
              (combine (seq s (length parts)) parts) acc in
  (forall k, Dict.mem acc k = true -> Dict.get result k = Dict.get acc k) /\
  (forall i, s <= i < s + length parts -> Dict.mem result (_generate_part_key i) = true) /\
  (forall k, Dict.get result k = Some true -> Dict.get acc k = Some true).
Proof.
  cbn zeta. revert s acc. induction parts as [|p parts IH]; intros s acc;
    cbn [length seq combine fold_left fst].
  - split; [reflexivity|]. split; [intros i Hi; lia | auto].
  - set (acc' := if Dict.mem acc (_generate_part_key s) then acc
                 else Dict.set acc (_generate_part_key s) false).
    destruct (IH (S s) acc') as [I1 [I2 I3]].
    assert (Hkeep : forall k, Dict.mem acc k = true ->
                              Dict.get acc' k = Dict.get acc k /\ Dict.mem acc' k = true).
    { intros k Hk. unfold acc'.
      destruct (Dict.mem acc (_generate_part_key s)) eqn:M; [now split|].
      assert (Hne : _generate_part_key s <> k) by (intros E; subst k; congruence).
      unfold Dict.mem in *. rewrite (DictFacts.get_set_other _ _ _ _ Hne). now split. }
    assert (Hnew : Dict.mem acc' (_generate_part_key s) = true).
    { unfold acc'. destruct (Dict.mem acc (_generate_part_key s)) eqn:M; [exact M|].
      unfold Dict.mem. now rewrite DictFacts.get_set_same. }
    split; [|split].
    + intros k Hk. destruct (Hkeep k Hk) as [H1 H2]. now rewrite (I1 k H2).
    + intros i Hi. destruct (Nat.eq_dec i s) as [->|Hne].
      * rewrite (mem_get_eq _ _ _ (I1 _ Hnew)). exact Hnew.
      * apply I2. lia.
    + intros k Hk. apply I3 in Hk. unfold acc' in Hk.
      destruct (Dict.mem acc (_generate_part_key s)); [exact Hk|].
      destruct (String.eqb_spec (_generate_part_key s) k) as [<-|Hne].
      * rewrite DictFacts.get_set_same in Hk. discriminate.
      * now rewrite (DictFacts.get_set_other _ _ _ _ Hne) in Hk.
Qed.

Lemma get_part_by_key_built (a : App) (i : nat) :
  part_key_to_index a = build_part_key_to_index (consolidated_parts a) ->
  _get_part_by_key a (_generate_part_key i) = nth_error (consolidated_parts a) i.
Proof.
  intros H. unfold _get_part_by_key. rewrite H, build_index_lookup.
  destruct (Nat.ltb_spec i (length (consolidated_parts a))) as [L|L].
  - apply Nat.ltb_lt in L. now rewrite L.
  - symmetry. now apply nth_error_None.
Qed.

(** X20.  Opening a BOM installs the consolidated parts of the parsed rows
    and an index under which every part key finds its part, clears the
    selections and the search results so that the export is empty, and gives
    every part a checkbox entry; checkbox entries that existed before are
    kept as they were, no entry is newly set to checked, and the batch key
    list and cursor are not reset. *)
Theorem open_bom_resets_selection
  (row_hash : RawRow -> Z) (a : App) (comps : list RawRow) (mapping : dict string) :
  let a' := open_bom row_hash a (comps, mapping) in
  consolidated_parts a' = get_consolidated_parts row_hash comps /\
  (forall i, _get_part_by_key a' (_generate_part_key i) = nth_error (consolidated_parts a') i) /\
  selected_parts a' = [] /\ current_search_results a' = [] /\
  get_export_data a' = [] /\
  (forall i, i < length (consolidated_parts a') ->
             Dict.mem (part_selected a') (_generate_part_key i) = true) /\
  (forall k, Dict.mem (part_selected a) k = true ->
             Dict.get (part_selected a') k = Dict.get (part_selected a) k) /\
  (forall k, Dict.get (part_selected a') k = Some true ->
             Dict.get (part_selected a) k = Some true) /\
  batch_part_keys a' = batch_part_keys a /\
  current_batch_index a' = current_batch_index a.
Proof.
  cbn zeta. unfold open_bom.
  destruct (boxes_fold (get_consolidated_parts row_hash comps) 0 (part_selected a))
    as [B1 [B2 B3]].
  split; [reflexivity|]. split.
  { intros i. now apply get_part_by_key_built. }
  split; [reflexivity|]. split; [reflexivity|]. split; [reflexivity|].
  split; [|split; [|split; [|split; reflexivity]]].
  - intros i Hi. cbn [part_selected consolidated_parts] in *. apply B2. lia.
  - exact B1.
  - exact B3.
Qed.

(** X21.  In a session whose key index was built from its part list, the
    export row for part key ["part_" + i] joins the vendor choice with the
    i-th BOM line: reference designators, quantity, value and voltage come
    from that consolidated part; the package column is the vendor's package,
    stripped, or blank, never the BOM's own package; the description is the
    vendor's when it has one and the BOM's otherwise. *)
Theorem export_row_joins_bom_line (a : App) (i : nat) (p : part) (choice : mouser_part) :
  part_key_to_index a = build_part_key_to_index (consolidated_parts a) ->
  nth_error (consolidated_parts a) i = Some p ->
  let row := build_row a (_generate_part_key i, choice) in
  x_REFDES row = text_or_empty (refdes p) /\
  x_Quantity row = PyInt (quantity p) /\
  x_Value row = value p /\
  x_Voltage row = voltage p /\
  x_Package row = strip (text_or_empty (mp_package choice)) /\
  x_Description row =
    match mp_description choice with Some d => d | None => description p end.
Proof.
  intros Hidx Hp. cbn zeta. unfold build_row.
  rewrite (get_part_by_key_built a i Hidx), Hp.
  cbn [x_REFDES x_Quantity x_Value x_Voltage x_Package x_Description].
  repeat split.
  destruct (mp_package choice) as [[|c raw]|]; reflexivity.
Qed.

Lemma export_row_joins_bom_line_witness :
  part_key_to_index two_part_session =
    build_part_key_to_index (consolidated_parts two_part_session) /\
  x_REFDES (build_row two_part_session (_generate_part_key 1, sample_candidate)) = "C2".
Proof.
  assert (H : part_key_to_index two_part_session =
              build_part_key_to_index (consolidated_parts two_part_session))
    by reflexivity.
  split; [exact H|].
  destruct (nth_error (consolidated_parts two_part_session) 1) as [p|] eqn:E;
    [|discriminate E].
  rewrite (proj1 (export_row_joins_bom_line two_part_session 1 p sample_candidate H E)).
  injection E as <-. reflexivity.
Defined.

(** X22.  Loading a snapshot that holds a part list installs that list and
    rebuilds the key index from it, so every part key finds its part again;
    keys the snapshot lacks leave the session's own selections, flags and
    options in place, except that every restored part without a checkbox
    entry gets an unchecked one; a snapshot without a part list changes
    nothing. *)
Theorem load_rebuilds_key_index (a : App) (doc : state_data) :
  (sd_consolidated_parts doc = None -> load_bom_state a doc = a) /\
  (forall parts,
     sd_consolidated_parts doc = Some parts ->
     let a' := load_bom_state a doc in
     consolidated_parts a' = parts /\
     (forall i, _get_part_by_key a' (_generate_part_key i) = nth_error parts i) /\
     (sd_selected_parts doc = None -> selected_parts a' = selected_parts a) /\
     (sd_part_selected doc = None ->
      (forall i, i < length parts ->
                 Dict.mem (part_selected a') (_generate_part_key i) = true) /\
      (forall k, Dict.mem (part_selected a) k = true ->
                 Dict.get (part_selected a') k = Dict.get (part_selected a) k)) /\
     in_stock_var a' = restore (sd_in_stock_only doc) (in_stock_var a) /\
     active_only_var a' = restore (sd_active_only doc) (active_only_var a) /\
     sort_preference a' = restore (sd_sort_preference doc) (sort_preference a)).
Proof.
  split.
  - intros H. unfold load_bom_state. now rewrite H.
  - intros parts H. cbn zeta. unfold load_bom_state. rewrite H.
    unfold populate_parts_table. cbn [consolidated_parts].
    destruct parts as [|p parts].
    + cbn [consolidated_parts part_key_to_index selected_parts part_selected
           in_stock_var active_only_var sort_preference components column_mapping
           current_search_results batch_part_keys current_batch_index].
      split; [reflexivity|]. split.
      { intros i.
        exact (get_part_by_key_built
                 (mkApp (components a) (column_mapping a) []
                        (build_part_key_to_index [])
                        [] [] true true "" [] [] 0) i eq_refl). }
      split; [intros ->; reflexivity|].
      split; [|repeat split].
      intros ->. cbn [restore length]. split; [intros i Hi; lia | reflexivity].
    + cbn [consolidated_parts part_key_to_index selected_parts part_selected
           in_stock_var active_only_var sort_preference components column_mapping
           current_search_results batch_part_keys current_batch_index].
      split; [reflexivity|]. split.
      { intros i.
        exact (get_part_by_key_built
                 (mkApp (components a) (column_mapping a) (p :: parts)
                        (build_part_key_to_index (p :: parts))
                        [] [] true true "" [] [] 0) i eq_refl). }
      split; [intros ->; reflexivity|].
      split; [|repeat split].
      intros ->. cbn [restore].
      destruct (boxes_fold (p :: parts) 0 (part_selected a)) as [B1 [B2 _]].
      split; [intros i Hi; apply B2; lia | exact B1].
Qed.

(** ** Index text of a radio button *)

Lemma digits_of_uint_acc (d : Decimal.uint) (acc : positive) :
  digits_value (Z.pos acc) (DecimalString.NilEmpty.string_of_uint d) =
  Z.pos (Pos.of_uint_acc d acc).
Proof.
  revert acc. induction d; intros acc;
    cbn [DecimalString.NilEmpty.string_of_uint digits_value Pos.of_uint_acc];
    [reflexivity | | | | | | | | | |];
    rewrite <- IHd; f_equal;
    match goal with
    | |- context [nat_of_ascii ?c] =>
        let v := eval vm_compute in (Z.of_nat (nat_of_ascii c)) in
        change (Z.of_nat (nat_of_ascii c)) with v
    end; lia.
Qed.

Lemma digits_of_uint (d : Decimal.uint) :
  digits_value 0 (DecimalString.NilEmpty.string_of_uint d) = Z.of_N (Pos.of_uint d).
Proof.
  induction d;
    cbn [DecimalString.NilEmpty.string_of_uint digits_value Pos.of_uint];
    [reflexivity | exact IHd | | | | | | | | |];
    cbn [Z.of_N]; rewrite <- digits_of_uint_acc; reflexivity.
Qed.

Lemma all_digits_of_uint (d : Decimal.uint) :
  all_digits (DecimalString.NilEmpty.string_of_uint d) = true.
Proof.
  induction d; cbn [DecimalString.NilEmpty.string_of_uint all_digits];
    [reflexivity | | | | | | | | | |]; exact IHd.
Qed.

Lemma str_of_nat_digits (i : nat) :
  isdigit (str_of_nat i) = true /\ int_of_digits (str_of_nat i) = Z.of_nat i.
Proof.
  unfold str_of_nat, str_of_Z, int_of_digits, isdigit.
  destruct (Z.of_nat i) as [|p|p] eqn:E; [split; reflexivity | | lia].
  cbn [Z.to_int DecimalString.NilZero.string_of_int].
  assert (Hs : DecimalString.NilZero.string_of_uint (Pos.to_uint p) =
               DecimalString.NilEmpty.string_of_uint (Pos.to_uint p)).
  { pose proof (DecimalPos.Unsigned.to_uint_nonnil p) as Hn.
    now destruct (Pos.to_uint p). }
  rewrite Hs, all_digits_of_uint, digits_of_uint, DecimalPos.Unsigned.of_to.
  split; [|reflexivity]. rewrite andb_true_r.
  pose proof (DecimalPos.Unsigned.to_uint_nonnil p) as Hn.
  now destruct (Pos.to_uint p).
Qed.

Lemma digit_not_space (c : ascii) : is_digit c = true -> is_space c = false.
Proof.
  unfold is_digit, is_space. intros H. apply andb_prop in H. destruct H as [H1 H2].
  apply Nat.leb_le in H1, H2.
  apply orb_false_iff. split; apply andb_false_iff.
  - right. apply Nat.leb_gt. lia.
  - right. apply Nat.leb_gt. lia.
Qed.

Lemma lstrip_no_space (l : list ascii) :
  Forall (fun c => is_space c = false) l -> lstrip_l l = l.
Proof. intros H. destruct H as [|c l Hc _]; [reflexivity|]. cbn. now rewrite Hc. Qed.

Lemma strip_digits (s : string) : all_digits s = true -> strip s = s.
Proof.
  intros H. unfold strip, strip_l.
  assert (F : Forall (fun c => is_space c = false) (list_ascii_of_string s)).
  { induction s as [|c s IH]; [constructor|]. cbn in H. apply andb_prop in H.
    destruct H as [Hc Hs]. constructor; [now apply digit_not_space | now apply IH]. }
  rewrite (lstrip_no_space _ F).
  rewrite (lstrip_no_space (rev (list_ascii_of_string s))).
  - rewrite rev_involutive. apply string_of_list_ascii_of_string.
  - apply Forall_rev. exact F.
Qed.

Lemma parse_int_digits (s : string) :
  isdigit s = true -> parse_int s = Some (int_of_digits s).
Proof.
  intros H. unfold parse_int.
  assert (Hall : all_digits s = true) by (unfold isdigit in H; now apply andb_prop in H).
  rewrite (strip_digits s Hall).
  destruct s as [|c t]; [discriminate|].
  assert (Hc : is_digit c = true).
  { cbn in Hall. now apply andb_prop in Hall. }
  destruct c as [b0 b1 b2 b3 b4 b5 b6 b7].
  destruct b0, b1, b2, b3, b4, b5, b6, b7; try discriminate Hc; now rewrite H.
Qed.

Lemma str_of_nat_not_na (i : nat) : String.eqb (str_of_nat i) "NA" = false.
Proof.
  destruct (String.eqb_spec (str_of_nat i) "NA") as [E|E]; [|reflexivity].
  destruct (str_of_nat_digits i) as [D _]. rewrite E in D. discriminate.
Qed.

Lemma chosen_part_index (a : App) (part_key : string) (i : nat) :
  chosen_part a part_key (str_of_nat i) =
  nth_error (Dict.get_default (current_search_results a) part_key []) i.
Proof.
  unfold chosen_part. rewrite str_of_nat_not_na.
  destruct (str_of_nat_digits i) as [D V].
  rewrite (parse_int_digits _ D), V.
  set (results := Dict.get_default (current_search_results a) part_key []).
  destruct (Z.ltb_spec (Z.of_nat i) (Z.of_nat (length results))) as [L|L].
  - unfold py_index. destruct (Z.leb_spec 0 (Z.of_nat i)); [|lia].
    now rewrite Nat2Z.id.
  - symmetry. apply nth_error_None. lia.
Qed.

(** X23.  Confirming with the radio value of result number [i] (its decimal
    text) records the i-th stored search result of that part as the
    confirmed choice and checks the part; when the part has no result number
    [i], or the radio variable is missing or empty, the session is left
    exactly as it was. *)
Theorem confirm_by_index (a : App) (part_key : string) (i : nat) :
  let results := Dict.get_default (current_search_results a) part_key [] in
  (forall c, nth_error results i = Some c ->
             let a' := confirm_selected_part a part_key (Some (str_of_nat i)) in
             Dict.get (selected_parts a') part_key = Some c /\
             Dict.get (part_selected a') part_key = Some true /\
             consolidated_parts a' = consolidated_parts a) /\
  (length results <= i ->
   confirm_selected_part a part_key (Some (str_of_nat i)) = a) /\
  confirm_selected_part a part_key None = a /\
  confirm_selected_part a part_key (Some "") = a.
Proof.
  cbn zeta. split; [|split; [|split; reflexivity]].
  - intros c Hc. unfold confirm_selected_part.
    destruct (str_of_nat_digits i) as [D _].
    assert (T : truthy (str_of_nat i) = true)
      by (unfold isdigit in D; now apply andb_prop in D).
    rewrite T. cbn [negb]. rewrite chosen_part_index, Hc.
    destruct (can_advance (confirm_part_selection a part_key c));
      cbn [selected_parts part_selected consolidated_parts set_current_batch_index
           confirm_part_selection set_part_selected set_selected_parts];
      (split; [apply DictFacts.get_set_same|]);
      (split; [apply DictFacts.get_set_same | reflexivity]).
  - intros Hlen. unfold confirm_selected_part.
    rewrite chosen_part_index.
    rewrite (proj2 (nth_error_None _ _) Hlen).
    now destruct (negb (truthy (str_of_nat i))).
Qed.

(* ------------------------------------------------------------------ *)
(** ** Column names *)

Lemma append_cancel_l (a x y : string) : (a ++ x)%string = (a ++ y)%string -> x = y.
Proof. induction a as [|c a IH]; cbn; intros H; [exact H | injection H; auto]. Qed.

Lemma suffixed_inj (b : string) (n m : nat) : suffixed b n = suffixed b m -> n = m.
Proof.
  unfold suffixed. intros H. apply append_cancel_l in H. cbn in H.
  injection H as H. unfold str_of_nat in H. apply str_of_Z_inj in H. lia.
Qed.

Lemma truthy_suffixed (b : string) (n : nat) : truthy b = true -> truthy (suffixed b n) = true.
Proof. destruct b; [discriminate | reflexivity]. Qed.

Lemma truthy_base_name (idx : nat) (raw : string) : truthy (base_name_of idx raw) = true.
Proof.
  unfold base_name_of.
  destruct (truthy (normalize_column_name (orig_header_of idx raw))) eqn:E;
    [exact E | reflexivity].
Qed.

Lemma truthy_orig_header (idx : nat) (raw : string) : truthy (orig_header_of idx raw) = true.
Proof.
  unfold orig_header_of. destruct (truthy (strip raw)) eqn:E; [exact E | reflexivity].
Qed.

Lemma mem_In_keys {V : Type} (d : dict V) (k : string) :
  Dict.mem d k = true <-> In k (Dict.keys d).
Proof. rewrite mem_keys. apply mem_true_iff. Qed.

Lemma mem_set {V : Type} (d : dict V) (k h : string) (v : V) :
  Dict.mem (Dict.set d k v) h = true <-> h = k \/ Dict.mem d h = true.
Proof.
  destruct (String.eqb_spec k h) as [->|Hne].
  - unfold Dict.mem at 1. rewrite DictFacts.get_set_same. tauto.
  - rewrite (mem_get_eq (Dict.set d k v) d h) by now apply DictFacts.get_set_other.
    split; [tauto | intros [->|H]; [congruence | exact H]].
Qed.

(** The inner loop ends on a name that is not in use: among more candidate
    names than the mapping has keys, one is free. *)
Lemma bump_fresh (b : string) (m : dict string) :
  forall fuel c c0,
    c0 <= c ->
    (forall n, c0 < n <= c -> Dict.mem m (suffixed b n) = true) ->
    length m <= (c - c0) + fuel ->
    Dict.mem m (suffixed b (bump fuel b c m + 1)) = false.
Proof.
  induction fuel as [|fuel IH]; intros c c0 Hle Hused Hlen; cbn [bump];
    destruct (Dict.mem m (suffixed b (c + 1))) eqn:E; try exact E.
  - exfalso.
    assert (Hnd : NoDup (map (suffixed b) (seq (c0 + 1) (c - c0 + 1)))).
    { apply Finite.Injective_map_NoDup; [|apply seq_NoDup].
      intros x y. apply suffixed_inj. }
    assert (Hin : incl (map (suffixed b) (seq (c0 + 1) (c - c0 + 1))) (Dict.keys m)).
    { intros h Hh. apply in_map_iff in Hh. destruct Hh as [n [<- Hn]].
      apply in_seq in Hn. apply mem_In_keys.
      destruct (Nat.eq_dec n (c + 1)) as [->|Hne]; [exact E|].
      apply Hused. lia. }
    pose proof (NoDup_incl_length Hnd Hin) as Hl.
    rewrite length_map, length_seq in Hl. unfold Dict.keys in Hl.
    rewrite length_map in Hl. lia.
  - apply (IH (c + 1) c0); [lia | | lia].
    intros n Hn. destruct (Nat.eq_dec n (c + 1)) as [->|Hne]; [exact E|].
    apply Hused. lia.
Qed.

Lemma bump_ge (b : string) (m : dict string) (fuel c : nat) : c <= bump fuel b c m.
Proof.
  revert c. induction fuel as [|fuel IH]; intros c; cbn [bump];
    destruct (Dict.mem m (suffixed b (c + 1))); try lia.
  specialize (IH (c + 1)). lia.
Qed.

Lemma bases_of_snoc (done : list (nat * string)) (x : nat * string) :
  bases_of (done ++ [x]) = bases_of done ++ [base_name_of (fst x) (snd x)].
Proof. unfold bases_of. now rewrite map_app. Qed.

(** One iteration appends one header; when the base name was met before, the
    header is a name that no earlier column received. *)
Lemma prepare_step_header (done : list (nat * string)) (st : header_state)
      (x : nat * string) :
  header_inv done st ->
  exists h,
    fst (fst (prepare_step st x)) = fst (fst st) ++ [h] /\
    (In (base_name_of (fst x) (snd x)) (bases_of done) ->
     ~ In h (fst (fst st)) /\
     exists n, 2 <= n /\ h = suffixed (base_name_of (fst x) (snd x)) n) /\
    (~ In (base_name_of (fst x) (snd x)) (bases_of done) ->
     h = base_name_of (fst x) (snd x)).
Proof.
  destruct st as [[hs cm] nc]. intros (Hlen & Hkeys & Htruthy & Hcount & Hdistinct).
  unfold prepare_step. cbn [fst snd].
  set (b := base_name_of (fst x) (snd x)).
  destruct (Nat.eqb (Dict.get_default nc b 0) 0) eqn:E.
  - exists b. split; [reflexivity|]. apply Nat.eqb_eq in E. apply Hcount in E.
    split; [intros H; contradiction | reflexivity].
  - apply Nat.eqb_neq in E. eexists. split; [reflexivity|]. split.
    + intros _. split.
      * intros Hin. apply Hkeys in Hin.
        rewrite (bump_fresh b cm (length cm) (Dict.get_default nc b 0)
                   (Dict.get_default nc b 0)) in Hin; [discriminate | lia | lia | lia].
      * eexists. split; [|reflexivity].
        pose proof (bump_ge b cm (length cm) (Dict.get_default nc b 0)). lia.
    + intros Hnot. apply Hcount in Hnot. contradiction.
Qed.

Lemma prepare_step_inv (done : list (nat * string)) (st : header_state)
      (x : nat * string) :
  header_inv done st -> header_inv (done ++ [x]) (prepare_step st x).
Proof.
  intros Hinv. destruct (prepare_step_header done st x Hinv) as (h & Hh & Hseen & Hnew).
  destruct st as [[hs cm] nc]. destruct Hinv as (Hlen & Hkeys & Htruthy & Hcount & Hdistinct).
  assert (Hshape : exists c,
             prepare_step (hs, cm, nc) x =
             (hs ++ [h], Dict.set cm h (orig_header_of (fst x) (snd x)),
              Dict.set nc (base_name_of (fst x) (snd x)) (c + 1))).
  { unfold prepare_step in Hh |- *. cbn [fst snd] in Hh |- *.
    apply app_inv_head in Hh. injection Hh as Hh. rewrite Hh. eexists. reflexivity. }
  destruct Hshape as [c ->]. unfold header_inv.
  set (b := base_name_of (fst x) (snd x)) in *.
  assert (Hb : truthy h = true).
  { destruct (in_dec string_dec b (bases_of done)) as [Hin|Hnin].
    - destruct (Hseen Hin) as (_ & n & _ & ->). apply truthy_suffixed, truthy_base_name.
    - rewrite (Hnew Hnin). apply truthy_base_name. }
  split; [rewrite !length_app; cbn; lia|].
  split.
  { intros h'. rewrite in_app_iff, mem_set, <- Hkeys. cbn. intuition congruence. }
  split.
  { intros h' Hin. apply in_app_iff in Hin. destruct Hin as [Hin|[<-|[]]]; auto. }
  split.
  { intros b'. rewrite bases_of_snoc, in_app_iff. fold b. cbn.
    destruct (string_dec b b') as [<-|Hne].
    - rewrite get_default_set_same. split; [lia | intros H; exfalso; apply H; auto].
    - rewrite get_default_set_other by exact Hne. rewrite Hcount. intuition congruence. }
  rewrite bases_of_snoc. fold b. intros Hnd.
  apply NoDup_remove in Hnd. rewrite app_nil_r in Hnd. destruct Hnd as [Hnd Hnin].
  destruct (Hdistinct Hnd) as [-> ->]. rewrite (Hnew Hnin).
  split; [reflexivity|]. unfold named_columns. rewrite map_app. cbn [map]. fold b.
  apply DictFacts.set_absent. fold (named_columns done).
  destruct (Dict.get (named_columns done) b) eqn:G; [|reflexivity].
  exfalso. apply Hnin. apply get_In in G. unfold named_columns in G.
  apply in_map_iff in G. destruct G as [y [Hy Hin]]. injection Hy as Hy _.
  unfold bases_of. apply in_map_iff. exists y. split; [exact Hy | exact Hin].
Qed.

Lemma prepare_run_inv (ihs : list (nat * string)) :
  header_inv ihs (fold_left prepare_step ihs ([], [], [])).
Proof.
  induction ihs as [|x ihs IH] using rev_ind.
  - cbn. split; [reflexivity|]. split; [intros h; split; [intros [] | discriminate]|].
    split; [intros h []|]. split; [intros b; split; [intros _ [] | reflexivity]|].
    intros _. split; reflexivity.
  - rewrite fold_left_app. cbn [fold_left]. now apply prepare_step_inv.
Qed.

Lemma length_enumerate {A : Type} (l : list A) : length (enumerate l) = length l.
Proof. unfold enumerate. rewrite length_combine, length_seq. lia. Qed.

Lemma prepare_headers_fold (original_headers : list string) :
  _prepare_headers original_headers =
  (fst (fst (fold_left prepare_step (enumerate original_headers) ([], [], []))),
   snd (fst (fold_left prepare_step (enumerate original_headers) ([], [], [])))).
Proof.
  unfold _prepare_headers.
  now destruct (fold_left prepare_step (enumerate original_headers) ([], [], []))
    as [[hs cm] nc].
Qed.

Lemma nth_error_split_at {A : Type} (l : list A) (j : nat) (x : A) :
  nth_error l j = Some x -> l = firstn j l ++ x :: skipn (S j) l.
Proof.
  revert j. induction l as [|a l IH]; intros [|j] H; cbn in *; try discriminate.
  - now injection H as ->.
  - f_equal. now apply IH.
Qed.

(** Later iterations only append to the header list. *)
Lemma prepare_fold_prefix (rest : list (nat * string)) (st : header_state) :
  exists tail, fst (fst (fold_left prepare_step rest st)) = fst (fst st) ++ tail.
Proof.
  revert st. induction rest as [|x rest IH]; intros st; cbn [fold_left].
  - exists []. now rewrite app_nil_r.
  - destruct (IH (prepare_step st x)) as [tail ->].
    destruct st as [[hs cm] nc]. unfold prepare_step. cbn [fst snd].
    eexists. rewrite <- app_assoc. reflexivity.
Qed.

(** X24.  [_prepare_headers] names every column: there is one header per
    input column, no header is empty, and the keys of the column mapping are
    exactly the headers.  When the normalized names of the columns are all
    different, the headers are these names, in column order, and the mapping
    sends each to the stripped original header (or [col_<index>] for a blank
    one). *)
Theorem prepare_headers_names (original_headers : list string) :
  let (headers, column_mapping) := _prepare_headers original_headers in
  length headers = length original_headers /\
  (forall h, In h headers -> truthy h = true) /\
  (forall h, In h headers <-> Dict.mem column_mapping h = true) /\
  (NoDup (base_names original_headers) ->
   headers = base_names original_headers /\
   column_mapping = named_columns (enumerate original_headers)).
Proof.
  rewrite prepare_headers_fold.
  pose proof (prepare_run_inv (enumerate original_headers)) as Hinv.
  destruct (fold_left prepare_step (enumerate original_headers) ([], [], []))
    as [[hs cm] nc].
  destruct Hinv as (Hlen & Hkeys & Htruthy & _ & Hdistinct). cbn [fst snd].
  rewrite length_enumerate in Hlen. unfold base_names. auto.
Qed.

(** X25.  A column whose normalized name was already met at an earlier column
    receives that name with a numeric suffix of at least 2, and this header
    differs from the header of every earlier column. *)
Theorem repeated_name_gets_new_header
        (original_headers : list string) (i j : nat) (hi hj : string) :
  i < j ->
  nth_error (fst (_prepare_headers original_headers)) i = Some hi ->
  nth_error (fst (_prepare_headers original_headers)) j = Some hj ->
  (exists k, k < j /\
             nth_error (base_names original_headers) k =
             nth_error (base_names original_headers) j) ->
  hi <> hj /\
  exists b n, nth_error (base_names original_headers) j = Some b /\
              2 <= n /\ hj = suffixed b n.
Proof.
  intros Hij Hi Hj (k & Hk & Hsame).
  rewrite prepare_headers_fold in Hi, Hj. cbn [fst] in Hi, Hj.
  set (l := enumerate original_headers) in *.
  pose proof (prepare_run_inv l) as Hall.
  assert (Hjl : j < length l).
  { destruct (fold_left prepare_step l ([], [], [])) as [[hs cm] nc].
    destruct Hall as (Hlen & _). cbn [fst] in Hj. rewrite <- Hlen.
    apply nth_error_Some. congruence. }
  destruct (nth_error l j) as [x|] eqn:Hx; [|apply nth_error_None in Hx; lia].
  pose proof (nth_error_split_at l j x Hx) as Hsplit.
  pose proof (prepare_run_inv (firstn j l)) as Hinv.
  rewrite Hsplit, fold_left_app in Hi, Hj. cbn [fold_left] in Hi, Hj.
  set (st := fold_left prepare_step (firstn j l) ([], [], [])) in *.
  destruct (prepare_step_header (firstn j l) st x Hinv) as (h & Hh & Hseen & _).
  destruct (prepare_fold_prefix (skipn (S j) l) (prepare_step st x)) as [tail Ht].
  rewrite Ht, Hh in Hi, Hj.
  assert (Hlen : length (fst (fst st)) = j).
  { destruct st as [[hs cm] nc]. destruct Hinv as (Hlen & _). cbn [fst].
    rewrite Hlen, length_firstn. lia. }
  rewrite <- app_assoc in Hi, Hj.
  rewrite nth_error_app1 in Hi by lia.
  rewrite nth_error_app2 in Hj by lia.
  rewrite Hlen, Nat.sub_diag in Hj. cbn in Hj. injection Hj as <-.
  assert (Hbase : nth_error (base_names original_headers) j =
                  Some (base_name_of (fst x) (snd x))).
  { unfold base_names, bases_of. fold l. now rewrite nth_error_map, Hx. }
  assert (Hin : In (base_name_of (fst x) (snd x)) (bases_of (firstn j l))).
  { rewrite Hbase in Hsame. unfold bases_of. rewrite <- firstn_map.
    fold (bases_of l). fold (base_names original_headers).
    apply nth_error_In with k. rewrite nth_error_firstn.
    apply Nat.ltb_lt in Hk. now rewrite Hk. }
  destruct (Hseen Hin) as (Hfresh & n & Hn & Hsuf). split.
  - intros ->. apply Hfresh. eapply nth_error_In. exact Hi.
  - exists (base_name_of (fst x) (snd x)), n. auto.
Qed.

Lemma repeated_name_gets_new_header_witness :
  "package" <> "package_3" /\
  exists b n, nth_error (base_names ["Size"; "Footprint"; "Case"]) 2 = Some b /\
              2 <= n /\ "package_3" = suffixed b n.
Proof.
  apply (repeated_name_gets_new_header ["Size"; "Footprint"; "Case"] 0 2).
  - lia.
  - reflexivity.
  - reflexivity.
  - exists 0. split; [lia | reflexivity].
Defined.

(* ------------------------------------------------------------------ *)
(** ** Normalized column names *)

Lemma lstrip_In (c : ascii) (l : list ascii) : In c (lstrip_l l) -> In c l.
Proof.
  induction l as [|a l IH]; cbn; [tauto|].
  destruct (is_space a); cbn; tauto.
Qed.

Lemma strip_In (c : ascii) (l : list ascii) : In c (strip_l l) -> In c l.
Proof.
  unfold strip_l. intros H. apply in_rev, lstrip_In, in_rev, lstrip_In in H. exact H.
Qed.

Lemma lstrip_head (l : list ascii) :
  match lstrip_l l with [] => True | c :: _ => is_space c = false end.
Proof.
  induction l as [|a l IH]; cbn; [exact I|].
  destruct (is_space a) eqn:E; [exact IH | exact E].
Qed.

Lemma lstrip_idem (l : list ascii) : lstrip_l (lstrip_l l) = lstrip_l l.
Proof.
  pose proof (lstrip_head l) as H. destruct (lstrip_l l) as [|c t]; [reflexivity|].
  cbn. now rewrite H.
Qed.

Lemma lstrip_decomp (l : list ascii) : exists sp, l = sp ++ lstrip_l l.
Proof.
  induction l as [|a l [sp IH]]; cbn; [now exists []|].
  destruct (is_space a); [exists (a :: sp); cbn; now f_equal | now exists []].
Qed.

Lemma strip_trimmed (l : list ascii) :
  lstrip_l (strip_l l) = strip_l l /\
  lstrip_l (List.rev (strip_l l)) = List.rev (strip_l l).
Proof.
  unfold strip_l. split; [|now rewrite rev_involutive, lstrip_idem].
  pose proof (lstrip_head l) as Hhead.
  destruct (lstrip_decomp (List.rev (lstrip_l l))) as [sp E].
  apply (f_equal (@List.rev ascii)) in E. rewrite rev_involutive, rev_app_distr in E.
  destruct (List.rev (lstrip_l (List.rev (lstrip_l l)))) as [|c t]; [reflexivity|].
  rewrite E in Hhead. cbn in Hhead. cbn. now rewrite Hhead.
Qed.

Lemma trimmed_strip (l : list ascii) :
  lstrip_l l = l -> lstrip_l (List.rev l) = List.rev l -> strip_l l = l.
Proof. intros H1 H2. unfold strip_l. now rewrite H1, H2, rev_involutive. Qed.

Lemma lstrip_map (f : ascii -> ascii) (l : list ascii) :
  (forall c, is_space c = false -> is_space (f c) = false) ->
  lstrip_l l = l -> lstrip_l (map f l) = map f l.
Proof.
  intros Hf H. pose proof (lstrip_head l) as Hhead. rewrite H in Hhead.
  destruct l as [|c t]; [reflexivity|]. cbn. now rewrite (Hf c Hhead).
Qed.

Lemma strip_map_trimmed (f : ascii -> ascii) (l : list ascii) :
  (forall c, is_space c = false -> is_space (f c) = false) ->
  strip_l (map f (strip_l l)) = map f (strip_l l).
Proof.
  intros Hf. destruct (strip_trimmed l) as [H1 H2]. apply trimmed_strip.
  - now apply lstrip_map.
  - rewrite <- map_rev. now apply lstrip_map.
Qed.

Lemma string_list_inj (a b : string) :
  list_ascii_of_string a = list_ascii_of_string b -> a = b.
Proof.
  intros H. rewrite <- (string_of_list_ascii_of_string a),
                    <- (string_of_list_ascii_of_string b). now rewrite H.
Qed.

Lemma lower_list (s : string) :
  list_ascii_of_string (lower s) = map lower_char (list_ascii_of_string s).
Proof. induction s as [|c s IH]; cbn; [reflexivity | now rewrite IH]. Qed.

Lemma underscores_list (s : string) :
  list_ascii_of_string (spaces_to_underscores s) =
  map (fun c => if Ascii.eqb c " " then "_"%char else c) (list_ascii_of_string s).
Proof. induction s as [|c s IH]; cbn; [reflexivity | now rewrite IH]. Qed.

Lemma underscores_no_space (s : string) :
  existsb (Ascii.eqb " ") (list_ascii_of_string (spaces_to_underscores s)) = false.
Proof.
  induction s as [|c s IH]; [reflexivity|].
  cbn [list_ascii_of_string spaces_to_underscores existsb]. rewrite IH, orb_false_r.
  destruct (Ascii.eqb_spec c " ") as [->|Hne]; [reflexivity|].
  apply Ascii.eqb_neq. congruence.
Qed.

(** Replacing spaces either changes nothing or leaves an underscore. *)
Lemma underscores_same_or_mark (s : string) :
  spaces_to_underscores s = s \/
  existsb (Ascii.eqb "_") (list_ascii_of_string (spaces_to_underscores s)) = true.
Proof.
  induction s as [|c s [IH|IH]]; [now left | |];
    cbn [list_ascii_of_string spaces_to_underscores existsb].
  - destruct (Ascii.eqb_spec c " ") as [->|Hne]; [now right | left; now rewrite IH].
  - right. rewrite IH. apply orb_true_r.
Qed.

(** The names and variations of [COLUMN_MAPPINGS] hold no underscore and no
    space at either end, and every standard name is its own normal form. *)
Lemma known_name_plain (x : string) :
  existsb (fun sv => PyStr.mem x (snd sv)) COLUMN_MAPPINGS = true ->
  existsb (Ascii.eqb "_") (list_ascii_of_string x) = false.
Proof.
  unfold COLUMN_MAPPINGS. cbn [existsb snd PyStr.mem]. intros H.
  repeat match goal with
         | H : (_ || _) = true |- _ => apply orb_prop in H; destruct H as [H|H]
         | H : String.eqb _ _ = true |- _ => apply String.eqb_eq in H; subst x
         | H : false = true |- _ => discriminate H
         end; reflexivity.
Qed.

Lemma standard_name_fixed (sv : string * list string) :
  In sv COLUMN_MAPPINGS ->
  normalize_column_name (fst sv) = fst sv /\
  existsb (Ascii.eqb " ") (list_ascii_of_string (fst sv)) = false.
Proof.
  unfold COLUMN_MAPPINGS. cbn [In]. intros H.
  repeat (destruct H as [<-|H]; [split; reflexivity|]). destruct H.
Qed.

Lemma find_known (x : string) :
  find (fun sv => PyStr.mem x (snd sv)) COLUMN_MAPPINGS = None <->
  existsb (fun sv => PyStr.mem x (snd sv)) COLUMN_MAPPINGS = false.
Proof.
  generalize COLUMN_MAPPINGS. intros l. induction l as [|sv l IH]; cbn; [tauto|].
  destruct (PyStr.mem x (snd sv)); cbn; [split; discriminate | exact IH].
Qed.

Lemma lower_sub_lower (c : ascii) :
  lower_char (if Ascii.eqb (lower_char c) " " then "_"%char else lower_char c) =
  (if Ascii.eqb (lower_char c) " " then "_"%char else lower_char c).
Proof. destruct c as [[] [] [] [] [] [] [] []]; reflexivity. Qed.

Lemma sub_keeps_non_space (c : ascii) :
  is_space c = false ->
  is_space (if Ascii.eqb c " " then "_"%char else c) = false.
Proof. destruct c as [[] [] [] [] [] [] [] []]; vm_compute; congruence. Qed.

Lemma sub_sub (c : ascii) :
  (if Ascii.eqb (if Ascii.eqb c " " then "_"%char else c) " " then "_"%char
   else if Ascii.eqb c " " then "_"%char else c) =
  (if Ascii.eqb c " " then "_"%char else c).
Proof. destruct (Ascii.eqb_spec c " ") as [->|Hne]; [reflexivity|].
       apply Ascii.eqb_neq in Hne. now rewrite Hne. Qed.

(** X26.  A normalized column name is settled: normalizing it again returns
    it unchanged, and it never contains a space. *)
Theorem normalize_column_name_settled (col_name : string) :
  normalize_column_name (normalize_column_name col_name) =
  normalize_column_name col_name /\
  existsb (Ascii.eqb " ")
          (list_ascii_of_string (normalize_column_name col_name)) = false.
Proof.
  unfold normalize_column_name at 2 3 4.
  destruct (truthy col_name); cbn [negb]; [|split; reflexivity].
  set (M := strip_l (list_ascii_of_string (lower col_name))).
  assert (HM : strip (lower col_name) = string_of_list_ascii M) by reflexivity.
  destruct (find (fun sv => PyStr.mem (strip (lower col_name)) (snd sv)) COLUMN_MAPPINGS)
    as [sv|] eqn:F.
  { apply find_some in F. destruct F as [F _]. now apply standard_name_fixed. }
  split; [|apply underscores_no_space].
  set (r := spaces_to_underscores (strip (lower col_name))).
  assert (Hr : list_ascii_of_string r =
               map (fun c => if Ascii.eqb c " " then "_"%char else c) M).
  { unfold r. now rewrite underscores_list, HM, list_ascii_of_string_of_list_ascii. }
  unfold normalize_column_name. destruct (truthy r) eqn:T; cbn [negb].
  2:{ destruct r; [reflexivity | discriminate]. }
  assert (Hlow : lower r = r).
  { apply string_list_inj. rewrite lower_list, Hr, map_map. apply map_ext_in.
    intros c Hc. unfold M in Hc. apply strip_In in Hc. rewrite lower_list in Hc.
    apply in_map_iff in Hc. destruct Hc as [c' [<- _]]. apply lower_sub_lower. }
  assert (Hstrip : strip r = r).
  { unfold strip. rewrite Hr. unfold M.
    rewrite strip_map_trimmed by exact sub_keeps_non_space.
    fold M. rewrite <- Hr. apply string_of_list_ascii_of_string. }
  rewrite Hlow, Hstrip.
  assert (Hsub : spaces_to_underscores r = r).
  { apply string_list_inj. rewrite underscores_list, Hr, map_map. apply map_ext.
    intros c. apply sub_sub. }
  destruct (find (fun sv => PyStr.mem r (snd sv)) COLUMN_MAPPINGS) as [sv|] eqn:F';
    [|exact Hsub].
  exfalso. apply find_known in F.
  assert (K : existsb (fun sv => PyStr.mem r (snd sv)) COLUMN_MAPPINGS = true).
  { destruct (existsb (fun sv => PyStr.mem r (snd sv)) COLUMN_MAPPINGS) eqn:K;
      [reflexivity|]. apply find_known in K. congruence. }
  pose proof (known_name_plain r K) as Hplain.
  destruct (underscores_same_or_mark (strip (lower col_name))) as [Same|Mark].
  - fold r in Same. rewrite <- Same in F. congruence.
  - fold r in Mark. congruence.
Qed.

(* ------------------------------------------------------------------ *)
(** ** API keys *)

Lemma no_space_Forall (s : string) :
  has_no_space s = true ->
  Forall (fun c => is_space c = false) (list_ascii_of_string s).
Proof.
  unfold has_no_space. intros H. apply Forall_forall. intros c Hc.
  rewrite forallb_forall in H. specialize (H c Hc). now destruct (is_space c).
Qed.

Lemma strip_no_space (s : string) : has_no_space s = true -> strip s = s.
Proof.
  intros H. apply no_space_Forall in H. unfold strip, strip_l.
  rewrite (lstrip_no_space _ H).
  rewrite (lstrip_no_space (List.rev (list_ascii_of_string s))).
  - rewrite rev_involutive. apply string_of_list_ascii_of_string.
  - now apply Forall_rev.
Qed.

Lemma after_prefix_app (n r : string) : after_prefix n (n ++ r) = Some r.
Proof.
  induction n as [|a n IH]; cbn [after_prefix String.append]; [reflexivity|].
  now rewrite Ascii.eqb_refl.
Qed.

Lemma after_prefix_eq (n s r : string) : after_prefix n s = Some r -> s = (n ++ r)%string.
Proof.
  revert s. induction n as [|a n IH]; intros s; cbn [after_prefix String.append].
  - now intros [= ->].
  - destruct s as [|b s]; [discriminate|].
    destruct (Ascii.eqb_spec a b) as [->|]; [|discriminate].
    intros H. now rewrite (IH s H).
Qed.

Lemma take_non_space_app (k e : string) :
  has_no_space k = true ->
  take_non_space (k ++ e) = (k ++ take_non_space e)%string.
Proof.
  unfold has_no_space. induction k as [|c k IH]; cbn [String.append]; [reflexivity|].
  cbn [list_ascii_of_string forallb take_non_space]. intros H.
  apply andb_prop in H. destruct H as [Hc Hk].
  destruct (is_space c); [discriminate|]. now rewrite IH.
Qed.

Lemma take_non_space_spec (s : string) :
  has_no_space (take_non_space s) = true /\
  exists e, s = (take_non_space s ++ e)%string.
Proof.
  induction s as [|c s [IH1 [e IH2]]]; cbn [take_non_space].
  - split; [reflexivity | now exists EmptyString].
  - destruct (is_space c) eqn:E.
    + split; [reflexivity | now eexists].
    + split.
      * unfold has_no_space in *. cbn [list_ascii_of_string forallb].
        now rewrite E, IH1.
      * exists e. cbn [String.append]. now rewrite <- IH2.
Qed.

Lemma append_empty_r (s : string) : (s ++ EmptyString)%string = s.
Proof. induction s as [|c s IH]; cbn; [reflexivity | now rewrite IH]. Qed.

Lemma append_assoc (a b c : string) : ((a ++ b) ++ c)%string = (a ++ (b ++ c))%string.
Proof. induction a as [|x a IH]; cbn; [reflexivity | now rewrite IH]. Qed.

(** A key that directly follows its name is what the search returns. *)
Lemma search_key_here (n k e : string) :
  truthy k = true -> has_no_space k = true -> take_non_space e = EmptyString ->
  re_search_key n (n ++ k ++ e) = Some k.
Proof.
  intros Hk Hs He.
  assert (M : match_at n (n ++ k ++ e) = Some k).
  { unfold match_at. rewrite after_prefix_app. cbv zeta.
    rewrite take_non_space_app by exact Hs. rewrite He, append_empty_r.
    now rewrite Hk. }
  destruct n; cbn [re_search_key]; destruct (k ++ e)%string; 
    cbn [String.append re_search_key] in *; now rewrite M.
Qed.

Lemma search_skip (n s : string) (c : ascii) :
  after_prefix n (String c s) = None ->
  re_search_key n (String c s) = re_search_key n s.
Proof. intros H. cbn [re_search_key]. unfold match_at. now rewrite H. Qed.

Lemma prefix_String (a b : ascii) (n s : string) :
  String.prefix (String a n) (String b s) = Ascii.eqb a b && String.prefix n s.
Proof.
  cbn [String.prefix]. destruct (ascii_dec a b) as [->|Hne].
  - now rewrite Ascii.eqb_refl.
  - apply Ascii.eqb_neq in Hne. now rewrite Hne.
Qed.

Lemma space_not_in (n : string) (w : ascii) :
  has_no_space n = true -> is_space w = true ->
  forall a n', n = String a n' -> Ascii.eqb a w = false.
Proof.
  intros Hn Hw a n' ->. unfold has_no_space in Hn.
  cbn [list_ascii_of_string forallb] in Hn. apply andb_prop in Hn.
  destruct Hn as [Ha _]. destruct (Ascii.eqb_spec a w) as [->|]; [|reflexivity].
  rewrite Hw in Ha. discriminate.
Qed.

(** A name free of white space does not match across a white-space
    character. *)
Lemma after_prefix_cut (n a r : string) (w : ascii) :
  has_no_space n = true -> is_space w = true ->
  String.prefix n a = false ->
  after_prefix n (a ++ String w r) = None.
Proof.
  revert a. induction n as [|x n IH]; intros a Hn Hw Hp.
  - destruct a; discriminate.
  - assert (Hn' : has_no_space n = true).
    { unfold has_no_space in *. cbn [list_ascii_of_string forallb] in Hn.
      apply andb_prop in Hn. tauto. }
    destruct a as [|y a]; cbn [String.append after_prefix].
    + now rewrite (space_not_in _ _ Hn Hw x n eq_refl).
    + rewrite prefix_String in Hp. destruct (Ascii.eqb x y); [|reflexivity].
      cbn [andb] in Hp. now apply IH.
Qed.

Lemma search_scan (n k r : string) (w : ascii) :
  has_no_space n = true -> is_space w = true ->
  PyStr.contains n k = false ->
  re_search_key n (k ++ String w r) = re_search_key n (String w r).
Proof.
  intros Hn Hw. induction k as [|c k IH]; intros Hc; [reflexivity|].
  cbn [PyStr.contains] in Hc. apply orb_false_iff in Hc. destruct Hc as [Hp Hc].
  cbn [String.append]. rewrite search_skip.
  - now apply IH.
  - change (String c (k ++ String w r)) with (String c k ++ String w r)%string.
    now apply after_prefix_cut.
Qed.

Lemma prefix_app (a b : string) : String.prefix a (a ++ b) = true.
Proof.
  induction a as [|x a IH]; cbn [String.append]; [now destruct b|].
  rewrite prefix_String, Ascii.eqb_refl. exact IH.
Qed.

Lemma match_at_sound (n s g : string) :
  match_at n s = Some g ->
  String.prefix (n ++ g) s = true /\ truthy g = true /\ has_no_space g = true.
Proof.
  unfold match_at. destruct (after_prefix n s) as [rest|] eqn:A; [|discriminate].
  cbv zeta. destruct (truthy (take_non_space rest)) eqn:T; [|discriminate].
  intros [= <-]. destruct (take_non_space_spec rest) as [Hs [e He]].
  apply after_prefix_eq in A. split; [|split; assumption].
  rewrite A. rewrite He at 2. rewrite <- append_assoc. apply prefix_app.
Qed.

Lemma search_key_sound (n content g : string) :
  re_search_key n content = Some g ->
  PyStr.contains (n ++ g) content = true /\ truthy g = true /\ has_no_space g = true.
Proof.
  induction content as [|c content IH]; cbn [re_search_key PyStr.contains].
  - destruct (match_at n EmptyString) as [g'|] eqn:M; [|discriminate].
    intros [= ->]. apply match_at_sound in M. destruct M as (P & T & S).
    rewrite P. auto.
  - destruct (match_at n (String c content)) as [g'|] eqn:M.
    + intros [= ->]. apply match_at_sound in M. destruct M as (P & T & S).
      rewrite P. auto.
    + intros H. destruct (IH H) as (P & T & S). rewrite P, orb_true_r. auto.
Qed.

(** X27.  A keys file that holds the line [MouserAPIkey=k] followed by the
    line [GeminiKey=g] configures both keys as written, whatever the
    environment holds: [k] and [g] are any non-empty texts free of white
    space, [k] not containing the name [GeminiKey=], the lines may be ended
    by any white-space characters, and anything may follow. *)
Theorem keys_file_entries_load
        (getenv : string -> option string) (k g tail : string) (w1 w2 : ascii) :
  truthy k = true -> has_no_space k = true ->
  truthy g = true -> has_no_space g = true ->
  is_space w1 = true -> is_space w2 = true ->
  PyStr.contains "GeminiKey=" k = false ->
  let c := load_keys getenv
             (Content ("MouserAPIkey=" ++ k ++
                       String w1 ("GeminiKey=" ++ g ++ String w2 tail))) in
  mouser_api_key c = Some k /\ gemini_api_key c = Some g /\ is_configured c = true.
Proof.
  intros Tk Sk Tg Sg W1 W2 Hk. cbv zeta.
  assert (M : key_from getenv "MouserAPIkey=" "MOUSER_API_KEY"
                ("MouserAPIkey=" ++ k ++
                 String w1 ("GeminiKey=" ++ g ++ String w2 tail)) = Some k).
  { unfold key_from. rewrite search_key_here; auto.
    - now rewrite strip_no_space.
    - cbn [take_non_space]. now rewrite W1. }
  assert (G : key_from getenv "GeminiKey=" "GEMINI_API_KEY"
                ("MouserAPIkey=" ++ k ++
                 String w1 ("GeminiKey=" ++ g ++ String w2 tail)) = Some g).
  { unfold key_from.
    change ("MouserAPIkey=" ++ k ++ String w1 ("GeminiKey=" ++ g ++ String w2 tail))%string
      with (String "M" (String "o" (String "u" (String "s" (String "e" (String "r"
           (String "A" (String "P" (String "I" (String "k" (String "e" (String "y"
           (String "=" (k ++ String w1 ("GeminiKey=" ++ g ++ String w2 tail))))))))))))))%string).
    do 13 (rewrite search_skip by reflexivity).
    rewrite search_scan by (auto; reflexivity).
    rewrite search_skip.
    - rewrite search_key_here; auto.
      + now rewrite strip_no_space.
      + cbn [take_non_space]. now rewrite W2.
    - cbn [after_prefix].
      destruct (Ascii.eqb_spec "G" w1) as [<-|]; [|reflexivity].
      vm_compute in W1. discriminate. }
  unfold is_configured, load_keys. cbn [mouser_api_key gemini_api_key].
  rewrite M, G. auto.
Qed.

Lemma keys_file_entries_load_witness :
  let c := load_keys (fun _ => None)
             (Content ("MouserAPIkey=" ++ "abc-123" ++
                       String (ascii_of_nat 10)
                         ("GeminiKey=" ++ "xyz" ++ String (ascii_of_nat 10) ""))) in
  mouser_api_key c = Some "abc-123" /\ gemini_api_key c = Some "xyz" /\
  is_configured c = true.
Proof.
  apply (keys_file_entries_load (fun _ => None) "abc-123" "xyz" ""
           (ascii_of_nat 10) (ascii_of_nat 10)); reflexivity.
Defined.

(** X28.  Where a loaded key comes from: each key of the configuration is
    either the value of its environment variable, or a non-empty text free of
    white space that stands in the keys file right after the key's name.
    Without a readable keys file both keys are the environment's. *)
Theorem loaded_key_origin (getenv : string -> option string) (file : keys_file) :
  (forall k, mouser_api_key (load_keys getenv file) = Some k ->
     getenv "MOUSER_API_KEY" = Some k \/
     exists content, file = Content content /\
                     PyStr.contains ("MouserAPIkey=" ++ k) content = true /\
                     truthy k = true /\ has_no_space k = true) /\
  (forall g, gemini_api_key (load_keys getenv file) = Some g ->
     getenv "GEMINI_API_KEY" = Some g \/
     exists content, file = Content content /\
                     PyStr.contains ("GeminiKey=" ++ g) content = true /\
                     truthy g = true /\ has_no_space g = true) /\
  (file = Missing \/ file = Unreadable ->
     load_keys getenv file =
     {| mouser_api_key := getenv "MOUSER_API_KEY";
        gemini_api_key := getenv "GEMINI_API_KEY" |}).
Proof.
  assert (K : forall name env content k,
             key_from getenv name env content = Some k ->
             getenv env = Some k \/
             (PyStr.contains (name ++ k) content = true /\
              truthy k = true /\ has_no_space k = true)).
  { intros name env content k. unfold key_from.
    destruct (re_search_key name content) as [g|] eqn:S; [|now left].
    apply search_key_sound in S. destruct S as (P & T & N).
    rewrite (strip_no_space g N). intros [= <-]. right. auto. }
  split; [|split].
  - intros k. destruct file as [| |content]; cbn [load_keys mouser_api_key]; auto.
    intros H. apply K in H. destruct H as [H|H]; [now left | right; eauto].
  - intros g. destruct file as [| |content]; cbn [load_keys gemini_api_key]; auto.
    intros H. apply K in H. destruct H as [H|H]; [now left | right; eauto].
  - intros [-> | ->]; reflexivity.
Qed.

(* ------------------------------------------------------------------ *)
(** ** Price score *)

Lemma min_price_fold (float_of_str : string -> option pyfloat)
      (l : list price_break) (acc : option pyfloat) (m : pyfloat) :
  (forall x, acc = Some x -> x <> NaN) ->
  (forall pb, In pb l -> score_price_parse float_of_str pb <> Some NaN) ->
  fold_left
    (fun (min_price : option pyfloat) (pb : price_break) =>
       match score_price_parse float_of_str pb with
       | None => min_price
       | Some price =>
           match min_price with
           | None => Some price
           | Some m => if flt price m then Some price else min_price
           end
       end) l acc = Some m ->
  (acc = Some m \/
   exists pb, In pb l /\ score_price_parse float_of_str pb = Some m) /\
  (forall x, acc = Some x -> fle m x = true) /\
  (forall pb p, In pb l -> score_price_parse float_of_str pb = Some p ->
                fle m p = true).
Proof.
  revert acc. induction l as [|pb l IH]; intros acc Hacc0 Hl; cbn [fold_left].
  - intros ->. split; [now left|]. split.
    + intros x [= <-]. apply fle_refl. now apply Hacc0.
    + intros pb p [].
  - assert (Hl' : forall pb', In pb' l -> score_price_parse float_of_str pb' <> Some NaN)
      by (intros pb' Hpb'; apply Hl; now right).
    intros H.
    destruct (score_price_parse float_of_str pb) as [price|] eqn:P.
    + assert (Hprice : price <> NaN).
      { intros ->. apply (Hl pb); [now left | exact P]. }
      destruct acc as [a|].
      * assert (Ha : a <> NaN) by now apply Hacc0.
        destruct (flt price a) eqn:L.
        -- assert (Hpa : fle price a = true).
           { unfold flt in L. now destruct (fle price a). }
           apply IH in H; [|intros x [= <-]; exact Hprice | exact Hl'].
           destruct H as (Horigin & Hacc & Hall).
           split; [|split].
           ++ destruct Horigin as [[= <-]|(pb' & Hin & Hp)].
              ** right. exists pb. split; [now left | exact P].
              ** right. exists pb'. split; [now right | exact Hp].
           ++ intros x [= <-]. apply fle_trans with price; [|exact Hpa].
              now apply Hacc.
           ++ intros pb' p [<-|Hin] Hp.
              ** rewrite P in Hp. injection Hp as <-. now apply Hacc.
              ** now apply (Hall pb').
        -- assert (Hap : fle a price = true).
           { unfold flt in L. destruct (fle_total a price Ha Hprice) as [T|T]; [exact T|].
             rewrite T in L. cbn [andb negb] in L. now destruct (fle a price). }
           apply IH in H; [|exact Hacc0 | exact Hl'].
           destruct H as (Horigin & Hacc & Hall).
           split; [|split].
           ++ destruct Horigin as [->|(pb' & Hin & Hp)]; [now left|].
              right. exists pb'. split; [now right | exact Hp].
           ++ exact Hacc.
           ++ intros pb' p [<-|Hin] Hp.
              ** rewrite P in Hp. injection Hp as <-.
                 apply fle_trans with a; [|exact Hap]. now apply Hacc.
              ** now apply (Hall pb').
      * apply IH in H; [|intros x [= <-]; exact Hprice | exact Hl'].
        destruct H as (Horigin & Hacc & Hall).
        split; [|split].
        -- right. destruct Horigin as [[= <-]|(pb' & Hin & Hp)].
           ++ exists pb. split; [now left | exact P].
           ++ exists pb'. split; [now right | exact Hp].
        -- intros x [=].
        -- intros pb' p [<-|Hin] Hp.
           ++ rewrite P in Hp. injection Hp as <-. now apply Hacc.
           ++ now apply (Hall pb').
    + apply IH in H; [|exact Hacc0 | exact Hl'].
      destruct H as (Horigin & Hacc & Hall).
      split; [|split].
      * destruct Horigin as [->|(pb' & Hin & Hp)]; [now left|].
        right. exists pb'. split; [now right | exact Hp].
      * exact Hacc.
      * intros pb' p [<-|Hin] Hp; [congruence | now apply (Hall pb')].
Qed.

(** X29.  For a candidate none of whose prices reads as NaN, the price score
    looks at the lowest price that can be read from any of its price breaks,
    and such a candidate never gets a lower price score than a candidate
    whose lowest price is not lower than its own. *)
Theorem price_score_follows_lowest_price
        (float_of_str : string -> option pyfloat)
        (a b : mouser_part) (breaks_a breaks_b : list price_break)
        (lowest_a lowest_b : pyfloat) :
  mp_price_breaks a = Some breaks_a ->
  mp_price_breaks b = Some breaks_b ->
  (forall pb, In pb breaks_a -> score_price_parse float_of_str pb <> Some NaN) ->
  min_price_of float_of_str breaks_a = Some lowest_a ->
  min_price_of float_of_str breaks_b = Some lowest_b ->
  (exists pb, In pb breaks_a /\ score_price_parse float_of_str pb = Some lowest_a) /\
  (forall pb p, In pb breaks_a -> score_price_parse float_of_str pb = Some p ->
                fle lowest_a p = true) /\
  (fle lowest_a lowest_b = true ->
   (score_price float_of_str b <= score_price float_of_str a)%Q).
Proof.
  intros Ha Hb Hnan Ma Mb.
  assert (Hnone : forall x : pyfloat, @None pyfloat = Some x -> x <> NaN)
    by (intros x H; discriminate H).
  pose proof (min_price_fold float_of_str breaks_a None lowest_a Hnone Hnan Ma)
    as (Horigin & _ & Hall).
  split; [destruct Horigin as [H|H]; [discriminate | exact H]|].
  split; [exact Hall|].
  intros Hle. unfold score_price. rewrite Ha, Hb.
  destruct breaks_a as [|pa ra]; [discriminate|].
  destruct breaks_b as [|pb rb]; [discriminate|].
  rewrite Ma, Mb.
  assert (T : forall c, fle lowest_b (Finite c) = true -> fle lowest_a (Finite c) = true).
  { intros c H. now apply fle_trans with lowest_b. }
  destruct (fle lowest_a (Finite (1 # 100))) eqn:A1;
    [|destruct (fle lowest_a (Finite (1 # 10))) eqn:A2;
      [|destruct (fle lowest_a (Finite 1)) eqn:A3;
        [|destruct (fle lowest_a (Finite 10)) eqn:A4;
          [|destruct (fle lowest_a (Finite 50)) eqn:A5]]]];
    repeat match goal with
           | |- context [fle lowest_b (Finite ?c)] =>
               let B := fresh "B" in
               destruct (fle lowest_b (Finite c)) eqn:B;
               [first [lra | apply T in B; congruence]|]
           end; lra.
Qed.

Lemma price_score_follows_lowest_price_witness :
  (exists pb, In pb volume_priced_breaks /\
              score_price_parse decimal_float pb = Some (Finite (120 # 100))) /\
  (forall pb p, In pb volume_priced_breaks ->
                score_price_parse decimal_float pb = Some p ->
                fle (Finite (120 # 100)) p = true) /\
  (score_price decimal_float (candidate 5 "$9.99") <=
   score_price decimal_float volume_priced_candidate)%Q.
Proof.
  assert (Hnan : forall pb, In pb volume_priced_breaks ->
                            score_price_parse decimal_float pb <> Some NaN).
  { intros pb [<-|[<-|[<-|[]]]]; discriminate. }
  destruct (price_score_follows_lowest_price decimal_float
              volume_priced_candidate (candidate 5 "$9.99")
              volume_priced_breaks [mkPriceBreak 1 (PyStr "$9.99") "USD"]
              (Finite (120 # 100)) (Finite (999 # 100))
              eq_refl eq_refl Hnan eq_refl eq_refl) as (H1 & H2 & H3).
  split; [exact H1|]. split; [exact H2|]. apply H3. reflexivity.
Defined.
